(** * Turtle Trading: indicator engine and signal engine

  A shallow embedding of [turtle_trading/core/data_manager.py]
  ([DataManager.calculate_technical_indicators], [_normalize_data],
  [validate_data_quality], the loop of [get_universe_data]) and of
  [turtle_trading/core/signal_engine.py] ([SignalEngine]), together with
  the properties of the natural-language specification that concern them
  and further properties of the code.

  Numbers.  Python floats are modelled by [float64]: exact rationals
  extended with NaN and the two infinities.  Rounding, overflow and the
  sign of zero are not modelled; every comparison and every
  defined/undefined distinction is.  The general theorems are stated
  for what comparisons and selections (maxima, minima) decide
  and for orderings that rounding keeps; a value is computed exactly only in
  the evaluations on concrete inputs.  *)

From Stdlib Require Import QArith Qabs Qround Lqa.
From stdpp Require Import gmap strings list pretty.

Local Open Scope Z_scope.

(** ** Floating-point cells *)

Module Float.

Inductive float64 :=
| NaN
| Inf (neg : bool)
| Num (q : Q).

Definition Qis_zero (q : Q) : bool := Qeq_bool q 0.
Definition Qis_neg (q : Q) : bool := negb (Qle_bool 0 q).

(** [pd.isna] *)
Definition isna (x : float64) : bool :=
  match x with NaN => true | _ => false end.

Definition neg (x : float64) : float64 :=
  match x with
  | NaN => NaN
  | Inf s => Inf (negb s)
  | Num q => Num (- q)
  end.

Definition add (x y : float64) : float64 :=
  match x, y with
  | NaN, _ | _, NaN => NaN
  | Inf s, Inf s' => if Bool.eqb s s' then Inf s else NaN
  | Inf s, Num _ | Num _, Inf s => Inf s
  | Num a, Num b => Num (a + b)
  end.

Definition sub (x y : float64) : float64 := add x (neg y).

Definition mul (x y : float64) : float64 :=
  match x, y with
  | NaN, _ | _, NaN => NaN
  | Inf s, Inf s' => Inf (xorb s s')
  | Inf s, Num q | Num q, Inf s =>
      if Qis_zero q then NaN else Inf (xorb s (Qis_neg q))
  | Num a, Num b => Num (a * b)
  end.

Definition div (x y : float64) : float64 :=
  match x, y with
  | NaN, _ | _, NaN => NaN
  | Inf _, Inf _ => NaN
  | Inf s, Num q => Inf (xorb s (Qis_neg q))
  | Num _, Inf _ => Num 0
  | Num a, Num b =>
      if Qis_zero b
      then (if Qis_zero a then NaN else Inf (Qis_neg a))
      else Num (a / b)
  end.

Definition abs (x : float64) : float64 :=
  match x with
  | NaN => NaN
  | Inf _ => Inf false
  | Num q => Num (Qabs q)
  end.

(** [x < y]; every comparison with NaN is false. *)
Definition ltb (x y : float64) : bool :=
  match x, y with
  | NaN, _ | _, NaN => false
  | Inf true, Inf true => false
  | Inf true, _ => true
  | _, Inf true => false
  | Inf false, _ => false
  | Num _, Inf false => true
  | Num a, Num b => negb (Qle_bool b a)
  end.

(** [x > y] *)
Definition gtb (x y : float64) : bool := ltb y x.

(** [x == y]; NaN equals nothing. *)
Definition eqb (x y : float64) : bool :=
  match x, y with
  | Num a, Num b => Qeq_bool a b
  | Inf s, Inf s' => Bool.eqb s s'
  | _, _ => false
  end.

(** A Python int used where a float is expected. *)
Definition of_Z (z : Z) : float64 := Num (inject_Z z).

End Float.
Export Float.

(** ** pandas: columns, frames and rolling windows *)

Module Pandas.

(** A column of a frame ([pd.Series] of floats), by position. *)
Abbreviation column := (list float64).

(** [s.shift(1)]: every value moves one position down, the first
    position becomes NaN, the length is kept. *)
Definition shift1 (xs : column) : column := take (length xs) (NaN :: xs).

(** Element-wise arithmetic of two columns of one frame. *)
Definition col_sub (xs ys : column) : column := zip_with sub xs ys.
Definition col_div (xs ys : column) : column := zip_with div xs ys.
Definition col_abs (xs : column) : column := abs <$> xs.
Definition col_scale (k : float64) (xs : column) : column := (λ x, mul x k) <$> xs.

(** Maximum of two cells that skips NaN ([skipna=True]). *)
Definition nanmax2 (x y : float64) : float64 :=
  match x, y with
  | NaN, _ => y
  | _, NaN => x
  | _, _ => if ltb x y then y else x
  end.

(** [df[[a, b, c]].max(axis=1)]: the row-wise maximum over three columns,
    NaN cells skipped; a row whose three cells are NaN gives NaN. *)
Definition row_max3 (xs ys zs : column) : column :=
  zip_with (λ x yz, nanmax2 (nanmax2 x yz.1) yz.2) xs (zip ys zs).

(** [s.ffill()] as used by [pct_change]'s default [fill_method='pad']
    (the default of pandas 1 and 2). *)
Fixpoint ffill_from (prev : float64) (xs : column) : column :=
  match xs with
  | [] => []
  | x :: xs' =>
      let v := if isna x then prev else x in
      v :: ffill_from v xs'
  end.
Definition ffill (xs : column) : column := ffill_from NaN xs.

(** [s.pct_change()]: [s / s.shift(1) - 1] after padding. *)
Definition pct_change (xs : column) : column :=
  let d := ffill xs in
  (λ x, sub x (Num 1)) <$> col_div d (shift1 d).

(** The trailing window of length [w] that ends at position [i]. *)
Definition window (w i : nat) (xs : column) : column :=
  drop (S i - w) (take (S i) xs).

(** The observations a rolling aggregate sees: NaN and the infinities
    count as missing. *)
Definition observation (x : float64) : option Q :=
  match x with Num q => Some q | _ => None end.

Definition observations (w i : nat) (xs : column) : list Q :=
  omap observation (window w i xs).

(** [s.rolling(window=w).agg()], with [min_periods] at its default [w]:
    the aggregate of the observations where there are at least [w] of
    them, NaN elsewhere. *)
Definition rolling (w : nat) (agg : list Q → float64) (xs : column) : column :=
  (λ i, let obs := observations w i xs in
        if decide (w ≤ length obs)%nat then agg obs else NaN)
    <$> seq 0 (length xs).

Definition Qmax2 (a b : Q) : Q := if Qle_bool a b then b else a.
Definition Qmin2 (a b : Q) : Q := if Qle_bool a b then a else b.

Definition agg_max (obs : list Q) : float64 :=
  match obs with
  | [] => NaN
  | q :: qs => Num (foldl Qmax2 q qs)
  end.

Definition agg_min (obs : list Q) : float64 :=
  match obs with
  | [] => NaN
  | q :: qs => Num (foldl Qmin2 q qs)
  end.

Definition Qsum (obs : list Q) : Q := foldr Qplus 0%Q obs.

Definition agg_mean (obs : list Q) : float64 :=
  match obs with
  | [] => NaN
  | _ => Num (Qsum obs / inject_Z (Z.of_nat (length obs)))
  end.

(** Sample standard deviation ([ddof=1]); the square root is a parameter. *)
Definition agg_std (sqrt : Q → Q) (obs : list Q) : float64 :=
  match obs with
  | [] | [_] => NaN
  | _ =>
      let n := inject_Z (Z.of_nat (length obs)) in
      let m := (Qsum obs / n)%Q in
      let ss := Qsum ((λ x, (x - m) * (x - m))%Q <$> obs) in
      Num (sqrt (ss / (n - 1))%Q)
  end.

(** A frame: the index labels (dates) and the columns by name.  Every
    column of a frame has the length of its index. *)
Record DataFrame := {
  index : list Z;
  columns : gmap string column;
}.

Definition rectangular (df : DataFrame) : Prop :=
  ∀ k col, columns df !! k = Some col → length col = length (index df).

(** [len(df)] *)
Definition len (df : DataFrame) : Z := Z.of_nat (length (index df)).

(** [df[k] = col] *)
Definition set_column (k : string) (col : column) (df : DataFrame) : DataFrame :=
  {| index := index df; columns := <[k := col]> (columns df) |}.

(** [df.drop(columns=[k for k in ks if k in df.columns])] *)
Definition drop_columns (ks : list string) (df : DataFrame) : DataFrame :=
  {| index := index df; columns := foldr delete (columns df) ks |}.

(** A row of a frame ([df.iloc[i]]): its label and its cells by column. *)
Record Row := {
  name : Z;
  cells : gmap string float64;
}.

End Pandas.
Export Pandas.

(** ** Python exceptions *)

Module Py.

Inductive exn :=
| KeyError (key : string)
| IndexError.

Inductive result (A : Type) :=
| Ok (a : A)
| Raise (e : exn).
Arguments Ok {A} a.
Arguments Raise {A} e.

#[export] Instance result_ret : MRet result := λ A a, Ok a.
#[export] Instance result_bind : MBind result := λ A B f m,
  match m with
  | Ok a => f a
  | Raise e => Raise e
  end.

Definition raises {A} (m : result A) : Prop := ∃ e, m = Raise e.
Definition returns {A} (m : result A) : Prop := ∃ a, m = Ok a.

(** [for x in xs: body], threading the variables the body assigns. *)
Fixpoint for_each {A S} (xs : list A) (body : A → S → result S) (s : S) : result S :=
  match xs with
  | [] => Ok s
  | x :: xs' => s' ← body x s; for_each xs' body s'
  end.

(** [df[k]] *)
Definition getitem (df : DataFrame) (k : string) : result column :=
  match columns df !! k with
  | Some col => Ok col
  | None => Raise (KeyError k)
  end.

(** [df.iloc[-1]] *)
Definition iloc_last (df : DataFrame) : result Row :=
  match last (index df) with
  | None => Raise IndexError
  | Some t => Ok {| name := t;
                    cells := (λ col, default NaN (last col)) <$> columns df |}
  end.

(** [row[k]] *)
Definition row_getitem (r : Row) (k : string) : result float64 :=
  match cells r !! k with
  | Some x => Ok x
  | None => Raise (KeyError k)
  end.

(** [row.get(k, d)] *)
Definition row_get (r : Row) (k : string) (d : float64) : float64 :=
  default d (cells r !! k).

End Py.
Export Py.

(** ** data_manager.py *)

Module DataManager.

Section Indicators.

(** [np.sqrt] on the rationals of the model. *)
Variable sqrt : Q → Q.

Definition donchian_periods : list nat := [10; 20; 55]%nat.
Definition atr_periods : list nat := [10; 20; 30]%nat.
Definition sma_periods : list nat := [10; 20; 50; 200]%nat.
Definition volatility_periods : list nat := [10; 20; 30]%nat.
Definition temp_cols : list string := ["prev_close"; "tr1"; "tr2"; "tr3"].

Definition calculate_technical_indicators (df : DataFrame) : result DataFrame :=
  (* Donchian Channels *)
  df ← for_each donchian_periods (λ period df,
    high ← getitem df "high";
    let df := set_column ("donchian_high_" +:+ pretty period)
                (rolling period agg_max high) df in
    low ← getitem df "low";
    Ok (set_column ("donchian_low_" +:+ pretty period)
          (rolling period agg_min low) df)) df;
  (* Average True Range (ATR) *)
  close ← getitem df "close";
  let df := set_column "prev_close" (shift1 close) df in
  high ← getitem df "high";
  low ← getitem df "low";
  let df := set_column "tr1" (col_sub high low) df in
  high ← getitem df "high";
  prev_close ← getitem df "prev_close";
  let df := set_column "tr2" (col_abs (col_sub high prev_close)) df in
  low ← getitem df "low";
  prev_close ← getitem df "prev_close";
  let df := set_column "tr3" (col_abs (col_sub low prev_close)) df in
  tr1 ← getitem df "tr1";
  tr2 ← getitem df "tr2";
  tr3 ← getitem df "tr3";
  let df := set_column "true_range" (row_max3 tr1 tr2 tr3) df in
  df ← for_each atr_periods (λ period df,
    true_range ← getitem df "true_range";
    Ok (set_column ("atr_" +:+ pretty period)
          (rolling period agg_mean true_range) df)) df;
  (* Simple Moving Averages *)
  df ← for_each sma_periods (λ period df,
    close ← getitem df "close";
    Ok (set_column ("sma_" +:+ pretty period)
          (rolling period agg_mean close) df)) df;
  (* Volatility measures *)
  close ← getitem df "close";
  let df := set_column "returns" (pct_change close) df in
  df ← for_each volatility_periods (λ period df,
    returns ← getitem df "returns";
    Ok (set_column ("volatility_" +:+ pretty period)
          (col_scale (Num (sqrt 252))
             (rolling period (agg_std sqrt) returns)) df)) df;
  (* Clean up temporary columns *)
  Ok (drop_columns temp_cols df).

End Indicators.

(** One trading day, as the frames handed to the indicator engine hold
    it after [_normalize_data]: no missing cell. *)
Record PriceBar := {
  bar_timestamp : Z;
  bar_open : Q;
  bar_high : Q;
  bar_low : Q;
  bar_close : Q;
  bar_volume : Z;
}.

Abbreviation PriceSeries := (list PriceBar).

(** The columns of a price series. *)
Definition opens (s : PriceSeries) : column := (Num ∘ bar_open) <$> s.
Definition highs (s : PriceSeries) : column := (Num ∘ bar_high) <$> s.
Definition lows (s : PriceSeries) : column := (Num ∘ bar_low) <$> s.
Definition closes (s : PriceSeries) : column := (Num ∘ bar_close) <$> s.
Definition volumes (s : PriceSeries) : column := (of_Z ∘ bar_volume) <$> s.

(** The frame of a price series. *)
Definition to_frame (s : PriceSeries) : DataFrame :=
  {| index := bar_timestamp <$> s;
     columns :=
       <["open" := opens s]>
       (<["high" := highs s]>
       (<["low" := lows s]>
       (<["close" := closes s]>
       (<["volume" := volumes s]> ∅)))) |}.

End DataManager.
Export DataManager.

(** ** signal_engine.py *)

Module SignalEngine.

Inductive SignalType := BUY | SELL | HOLD | PYRAMID | EXIT.

#[export] Instance SignalType_eq_dec : EqDecision SignalType.
Proof. solve_decision. Defined.

(** The members of the enumeration, in declaration order. *)
Definition SignalType_members : list SignalType := [BUY; SELL; HOLD; PYRAMID; EXIT].

Definition SignalType_value (t : SignalType) : string :=
  match t with
  | BUY => "BUY" | SELL => "SELL" | HOLD => "HOLD"
  | PYRAMID => "PYRAMID" | EXIT => "EXIT"
  end.

Record Signal := {
  symbol : string;
  signal_type : SignalType;
  timestamp : Z;
  price : float64;
  system : Z;
  confidence : float64;
  stop_price : option float64;
  target_price : option float64;
  units : Z;
}.

(** The fields of [TradingConfig] the engine reads. *)
Record TradingConfig := {
  system1_length : Z;
  system2_length : Z;
  use_system2 : bool;
  max_units_per_position : Z;
  pyramid_increment : Q;
  atr_period : Z;
  stop_atr_multiple : Q;
  exit_length_s1 : Z;
  exit_length_s2 : Z;
}.

(** The defaults of config.py. *)
Definition default_config : TradingConfig := {|
  system1_length := 20;
  system2_length := 55;
  use_system2 := true;
  max_units_per_position := 5;
  pyramid_increment := 1 # 2;
  atr_period := 20;
  stop_atr_multiple := 2;
  exit_length_s1 := 10;
  exit_length_s2 := 20;
|}.

Record SignalEngine := {
  config : TradingConfig;
  last_signals : gmap string (list Signal);
}.

Definition __init__ (config : TradingConfig) : SignalEngine :=
  {| config := config; last_signals := ∅ |}.

(** A method of the engine: it may raise, and it may assign to [self]. *)
Definition method (A : Type) : Type := SignalEngine → result A * SignalEngine.

(** A method body that only reads [self]. *)
Definition reading {A} (body : SignalEngine → result A) : method A :=
  λ self, (body self, self).

(** [k in df.columns] *)
Definition has_column (df : DataFrame) (k : string) : bool :=
  bool_decide (is_Some (columns df !! k)).

Definition _check_system1_signals (self : SignalEngine) (symbol : string)
    (df : DataFrame) (latest_row : Row) (latest_date : Z) : result (list Signal) :=
  let signals := [] in
  let length := system1_length (config self) in
  (* Get required data *)
  if negb (has_column df ("donchian_high_" +:+ pretty length)) then Ok signals else
  current_price ← row_getitem latest_row "close";
  donchian_high ← row_getitem latest_row ("donchian_high_" +:+ pretty length);
  donchian_low ← row_getitem latest_row ("donchian_low_" +:+ pretty length);
  let atr := row_get latest_row ("atr_" +:+ pretty (atr_period (config self))) (of_Z 0) in
  (* Entry signals - breakout above high *)
  let signals :=
    if gtb current_price donchian_high && negb (isna donchian_high) then
      let stop_price := sub current_price (mul (Num (stop_atr_multiple (config self))) atr) in
      signals ++ [ {| symbol := symbol; signal_type := BUY; timestamp := latest_date;
                      price := current_price; system := 1; confidence := Num 1;
                      stop_price := Some stop_price; target_price := None;
                      units := 1 |} ]
    else signals in
  (* Exit signals - breakout below low *)
  let exit_length := exit_length_s1 (config self) in
  if has_column df ("donchian_low_" +:+ pretty exit_length) then
    exit_low ← row_getitem latest_row ("donchian_low_" +:+ pretty exit_length);
    if ltb current_price exit_low && negb (isna exit_low) then
      Ok (signals ++ [ {| symbol := symbol; signal_type := EXIT; timestamp := latest_date;
                          price := current_price; system := 1; confidence := Num 1;
                          stop_price := None; target_price := None; units := 1 |} ])
    else Ok signals
  else Ok signals.

Definition _check_system2_signals (self : SignalEngine) (symbol : string)
    (df : DataFrame) (latest_row : Row) (latest_date : Z) : result (list Signal) :=
  let signals := [] in
  let length := system2_length (config self) in
  (* Get required data *)
  if negb (has_column df ("donchian_high_" +:+ pretty length)) then Ok signals else
  current_price ← row_getitem latest_row "close";
  donchian_high ← row_getitem latest_row ("donchian_high_" +:+ pretty length);
  donchian_low ← row_getitem latest_row ("donchian_low_" +:+ pretty length);
  let atr := row_get latest_row ("atr_" +:+ pretty (atr_period (config self))) (of_Z 0) in
  (* Entry signals - breakout above high *)
  let signals :=
    if gtb current_price donchian_high && negb (isna donchian_high) then
      let stop_price := sub current_price (mul (Num (stop_atr_multiple (config self))) atr) in
      signals ++ [ {| symbol := symbol; signal_type := BUY; timestamp := latest_date;
                      price := current_price; system := 2; confidence := Num 1;
                      stop_price := Some stop_price; target_price := None;
                      units := 1 |} ]
    else signals in
  (* Exit signals - breakout below low *)
  let exit_length := exit_length_s2 (config self) in
  if has_column df ("donchian_low_" +:+ pretty exit_length) then
    exit_low ← row_getitem latest_row ("donchian_low_" +:+ pretty exit_length);
    if ltb current_price exit_low && negb (isna exit_low) then
      Ok (signals ++ [ {| symbol := symbol; signal_type := EXIT; timestamp := latest_date;
                          price := current_price; system := 2; confidence := Num 1;
                          stop_price := None; target_price := None; units := 1 |} ])
    else Ok signals
  else Ok signals.

Definition _generate_symbol_signals (self : SignalEngine) (symbol : string)
    (df : DataFrame) : result (list Signal) :=
  if bool_decide (len df < Z.max (system1_length (config self))
                                 (system2_length (config self))) then Ok [] else
  let signals := [] in
  latest_row ← iloc_last df;
  let latest_date := name latest_row in
  (* System 1 signals (20-day breakout) *)
  system1_signals ← _check_system1_signals self symbol df latest_row latest_date;
  let signals := signals ++ system1_signals in
  (* System 2 signals (55-day breakout) if enabled *)
  if use_system2 (config self) then
    system2_signals ← _check_system2_signals self symbol df latest_row latest_date;
    Ok (signals ++ system2_signals)
  else Ok signals.

(** The body of the loop of [generate_signals]: the variables it assigns
    are [all_signals] and [self.last_signals]; an exception of the
    symbol is caught and the loop continues. *)
Definition generate_signals_body (acc : gmap string (list Signal) * SignalEngine)
    (item : string * DataFrame) : gmap string (list Signal) * SignalEngine :=
  let '(all_signals, self) := acc in
  let '(symbol, df) := item in
  match _generate_symbol_signals self symbol df with
  | Ok [] => (all_signals, self)
  | Ok signals =>
      (<[symbol := signals]> all_signals,
       {| config := config self;
          last_signals := <[symbol := signals]> (last_signals self) |})
  | Raise _ => (all_signals, self)
  end.

(** [data] is a dict: its items in insertion order. *)
Definition generate_signals (data : list (string * DataFrame))
    : method (gmap string (list Signal)) :=
  λ self, let '(all_signals, self) := foldl generate_signals_body (∅, self) data in
          (Ok all_signals, self).

Definition check_pyramid_signals (symbol : string) (df : DataFrame)
    (current_position_price : float64) (current_units : Z) : method (option Signal) :=
  reading (λ self,
    if bool_decide (max_units_per_position (config self) ≤ current_units) then Ok None else
    latest_row ← iloc_last df;
    current_price ← row_getitem latest_row "close";
    let atr := row_get latest_row ("atr_" +:+ pretty (atr_period (config self))) (of_Z 0) in
    (* Pyramid condition: price moved favorably by ATR increment *)
    let pyramid_threshold :=
      add current_position_price
          (mul (mul (Num (pyramid_increment (config self))) atr) (of_Z current_units)) in
    if gtb current_price pyramid_threshold then
      let stop_price := sub current_price (mul (Num (stop_atr_multiple (config self))) atr) in
      Ok (Some {| symbol := symbol; signal_type := PYRAMID; timestamp := name latest_row;
                  price := current_price; system := 1; confidence := Num 1;
                  stop_price := Some stop_price; target_price := None; units := 1 |})
    else Ok None).

Definition get_stop_loss_price (symbol : string) (df : DataFrame)
    (entry_price : float64) : method float64 :=
  reading (λ self,
    latest_row ← iloc_last df;
    let atr := row_get latest_row ("atr_" +:+ pretty (atr_period (config self))) (of_Z 0) in
    Ok (sub entry_price (mul (Num (stop_atr_multiple (config self))) atr))).

Record Summary := {
  total_symbols : nat;
  signals_by_type : gmap string nat;
  signals_by_system : gmap string nat;
}.

(** [summary[key][k] = count] for the members with a positive count. *)
Definition count_into {A} (members : list A) (key : A → string)
    (count : A → nat) : gmap string nat :=
  foldl (λ m x, if decide (0 < count x)%nat then <[key x := count x]> m else m) ∅ members.

Definition get_signal_summary : method Summary :=
  reading (λ self,
    let all_signals := (map_to_list (last_signals self)) ≫= snd in
    Ok {| total_symbols := size (last_signals self);
          signals_by_type :=
            count_into SignalType_members SignalType_value
              (λ t, length (filter (λ s, signal_type s = t) all_signals));
          signals_by_system :=
            count_into [1; 2] (λ n, "system_" +:+ pretty n)
              (λ n, length (filter (λ s, system s = n) all_signals)) |}).

End SignalEngine.
Export SignalEngine.

(** ** data_manager.py: normalisation and validation *)

Module DataQuality.

(** [x <= y]; every comparison with NaN is false. *)
Definition leb (x y : float64) : bool :=
  match x, y with
  | NaN, _ | _, NaN => false
  | Inf true, _ => true
  | _, Inf false => true
  | Inf false, _ => false
  | Num _, Inf true => false
  | Num a, Num b => Qle_bool a b
  end.

Definition col_mul (xs ys : column) : column := zip_with mul xs ys.

(** [s.any()] *)
Definition any (bs : list bool) : bool := existsb id bs.

(** [df.isnull().any().any()] *)
Definition isnull_any (df : DataFrame) : bool :=
  any ((λ kc : string * column, any (isna <$> kc.2)) <$> map_to_list (columns df)).

(** [xs[mask]]: the positions at which the boolean column holds. *)
Definition keep {A} (mask : list bool) (xs : list A) : list A :=
  (filter (λ p : bool * A, p.1 = true) (zip mask xs)).*2.

(** [df[mask]] *)
Definition rows_where (mask : list bool) (df : DataFrame) : DataFrame :=
  {| index := keep mask (index df); columns := keep mask <$> columns df |}.

(** No cell of row [i] is missing. *)
Definition notna_row (df : DataFrame) (i : nat) : bool :=
  forallb (λ kc : string * column,
             match kc.2 !! i with Some x => negb (isna x) | None => true end)
          (map_to_list (columns df)).

(** [df.dropna()] *)
Definition dropna (df : DataFrame) : DataFrame :=
  rows_where (notna_row df <$> seq 0 (length (index df))) df.

Definition price_cols : list string := ["open"; "high"; "low"; "close"].

Definition _normalize_data (df : DataFrame) (symbol : string) : result DataFrame :=
  (* Calculate adjustment factor from adj_close *)
  df ← (if has_column df "adj_close" then
          adj_close ← getitem df "adj_close";
          close ← getitem df "close";
          let adj_factor := col_div adj_close close in
          (* Apply adjustment to OHLC *)
          open_ ← getitem df "open";
          let df := set_column "open" (col_mul open_ adj_factor) df in
          high ← getitem df "high";
          let df := set_column "high" (col_mul high adj_factor) df in
          low ← getitem df "low";
          let df := set_column "low" (col_mul low adj_factor) df in
          adj_close ← getitem df "adj_close";
          let df := set_column "close" adj_close df in
          (* Adjust volume (inverse of price adjustment) *)
          volume ← getitem df "volume";
          Ok (set_column "volume" (col_div volume adj_factor) df)
        else Ok df);
  (* Remove any rows with missing data *)
  let df := dropna df in
  (* Ensure positive prices *)
  for_each price_cols (λ col df,
    if has_column df col then
      prices ← getitem df col;
      Ok (rows_where ((λ x, gtb x (of_Z 0)) <$> prices) df)
    else Ok df) df.

Definition validate_data_quality (df : DataFrame) (symbol : string)
    : bool * list string :=
  let issues := [] in
  (* Check for missing data *)
  let issues :=
    if isnull_any df then issues ++ ["Missing data found"] else issues in
  (* Check for negative prices *)
  let issues :=
    foldl (λ issues col,
             match columns df !! col with
             | Some prices =>
                 if any ((λ x, leb x (of_Z 0)) <$> prices)
                 then issues ++ ["Negative or zero prices in " +:+ col]
                 else issues
             | None => issues
             end) issues price_cols in
  (* Check for invalid OHLC relationships *)
  let issues :=
    match columns df !! "high", columns df !! "low" with
    | Some high, Some low =>
        if any (zip_with ltb high low) then issues ++ ["High < Low found"]
        else issues
    | _, _ => issues
    end in
  (* Check for extreme price movements (>50% in one day) *)
  let issues :=
    match columns df !! "close" with
    | Some close =>
        let daily_returns := col_abs (pct_change close) in
        if any ((λ x, gtb x (Num (1 # 2))) <$> daily_returns)
        then issues ++ ["Extreme price movements detected"]
        else issues
    | None => issues
    end in
  (* Check for sufficient data *)
  let issues :=
    if bool_decide (len df < 60) then issues ++ ["Insufficient data for analysis"]
    else issues in
  let is_valid := bool_decide (length issues = 0%nat) in
  (is_valid, issues).

(** [get_universe_data], from the dict [get_latest_data] returned: the
    frame of every symbol is replaced by its indicators, in the order of
    the dict; an exception of a symbol is not caught. *)
Fixpoint get_universe_data (sqrt : Q → Q) (data : list (string * DataFrame))
    : result (list (string * DataFrame)) :=
  match data with
  | [] => Ok []
  | (symbol, df) :: data =>
      df ← calculate_technical_indicators sqrt df;
      data ← get_universe_data sqrt data;
      Ok ((symbol, df) :: data)
  end.

End DataQuality.
Export DataQuality.


(** * Properties *)

(** ** Vocabulary of the statements *)

Module Vocabulary.

(** [v] is the greatest element of [qs]. *)
Definition is_max_of (v : Q) (qs : list Q) : Prop :=
  v ∈ qs ∧ ∀ q, q ∈ qs → (q <= v)%Q.

(** Every cell of the column is a finite number. *)
Definition all_finite (xs : column) : Prop :=
  Forall (λ x, ∃ q, x = Num q) xs.

(** The cell of column [k] at position [i], when the frame has both. *)
Definition cell (df : DataFrame) (k : string) (i : nat) : option float64 :=
  columns df !! k ≫= (.!! i).

(** The true range column of a price series, as the source computes it
    from [tr1], [tr2] and [tr3]. *)
Definition true_range_column (s : PriceSeries) : column :=
  row_max3 (col_sub (highs s) (lows s))
           (col_abs (col_sub (highs s) (shift1 (closes s))))
           (col_abs (col_sub (lows s) (shift1 (closes s)))).

(** One cell of the true range: the NaN-skipping maximum of [tr1], [tr2]
    and [tr3] of a bar, given the cell of [prev_close]. *)
Definition true_range_cell (h l : Q) (prev_close : float64) : float64 :=
  nanmax2 (nanmax2 (sub (Num h) (Num l)) (abs (sub (Num h) prev_close)))
          (abs (sub (Num l) prev_close)).

(** The columns [calculate_technical_indicators] adds, by name. *)
Definition donchian_high (w : nat) (s : PriceSeries) : column :=
  rolling w agg_max (highs s).
Definition donchian_low (w : nat) (s : PriceSeries) : column :=
  rolling w agg_min (lows s).
Definition atr (w : nat) (s : PriceSeries) : column :=
  rolling w agg_mean (true_range_column s).
Definition sma (w : nat) (s : PriceSeries) : column :=
  rolling w agg_mean (closes s).
Definition returns_column (s : PriceSeries) : column := pct_change (closes s).
Definition volatility (sqrt : Q → Q) (w : nat) (s : PriceSeries) : column :=
  col_scale (Num (sqrt 252%Q)) (rolling w (agg_std sqrt) (returns_column s)).

(** The columns of the frame the indicator engine returns on a price
    series: the five input columns and the indicators. *)
Definition indicator_columns (sqrt : Q → Q) (s : PriceSeries)
    : list (string * column) :=
  [ ("open", opens s); ("high", highs s); ("low", lows s);
    ("close", closes s); ("volume", volumes s);
    ("donchian_high_10", donchian_high 10 s);
    ("donchian_low_10", donchian_low 10 s);
    ("donchian_high_20", donchian_high 20 s);
    ("donchian_low_20", donchian_low 20 s);
    ("donchian_high_55", donchian_high 55 s);
    ("donchian_low_55", donchian_low 55 s);
    ("true_range", true_range_column s);
    ("atr_10", atr 10 s); ("atr_20", atr 20 s); ("atr_30", atr 30 s);
    ("sma_10", sma 10 s); ("sma_20", sma 20 s); ("sma_50", sma 50 s);
    ("sma_200", sma 200 s);
    ("returns", returns_column s);
    ("volatility_10", volatility sqrt 10 s);
    ("volatility_20", volatility sqrt 20 s);
    ("volatility_30", volatility sqrt 30 s) ].

Definition indicator_frame (sqrt : Q → Q) (s : PriceSeries) : DataFrame :=
  {| index := bar_timestamp <$> s;
     columns := list_to_map (indicator_columns sqrt s) |}.

(** OHLC ordering of a bar: [high >= max(open, close)] and
    [low <= min(open, close)]. *)
Definition ohlc_ordered (b : PriceBar) : Prop :=
  (bar_open b <= bar_high b)%Q ∧ (bar_close b <= bar_high b)%Q ∧
  (bar_low b <= bar_open b)%Q ∧ (bar_low b <= bar_close b)%Q.

(** [np.sqrt] to six decimals, for the examples. *)
Definition sqrt_e6 (q : Q) : Q :=
  Z.sqrt (Qfloor (q * inject_Z (10 ^ 12))) # 10 ^ 6.

(** A bar that violates OHLC ordering: its high is below its low, its
    open and its close. *)
Definition inverted_bar : PriceBar :=
  {| bar_timestamp := 1; bar_open := 10; bar_high := 5; bar_low := 9;
     bar_close := 11; bar_volume := 1000 |}.

(** A bar that respects OHLC ordering. *)
Definition plain_bar : PriceBar :=
  {| bar_timestamp := 1; bar_open := 10; bar_high := 12; bar_low := 9;
     bar_close := 11; bar_volume := 1000 |}.

(** [df.iloc[-1, df.columns.get_loc(k)] = v], as the tests of the signal
    engine prepare a breakout. *)
Definition set_last (k : string) (v : float64) (df : DataFrame) : DataFrame :=
  match columns df !! k with
  | Some col => set_column k (<[pred (length col) := v]> col) df
  | None => df
  end.

(** A flat market: [n] days on which open, high, low and close are 100. *)
Definition flat_series (n : nat) : PriceSeries :=
  (λ t, {| bar_timestamp := t; bar_open := 100; bar_high := 100;
           bar_low := 100; bar_close := 100; bar_volume := 1000 |})
    <$> seqZ 1 (Z.of_nat n).

(** The indicators of a series, the last close then moved to [c]. *)
Definition breakout_frame (s : PriceSeries) (c : Q) : DataFrame :=
  match calculate_technical_indicators sqrt_e6 (to_frame s) with
  | Ok df => set_last "close" (Num c) df
  | Raise _ => to_frame []
  end.

(** 54 flat days and a day whose close gaps one above its high. *)
Definition flat_then_gap : PriceSeries :=
  flat_series 54 ++
  [ {| bar_timestamp := 55; bar_open := 100; bar_high := 100; bar_low := 100;
       bar_close := 101; bar_volume := 1000 |} ].

(** Twelve equal days of range 3, the last close then moved one above the
    10-day high, and a configuration of 10-day systems to read them. *)
Definition plain_breakout_frame : DataFrame :=
  breakout_frame (replicate 12 plain_bar) 13.

Definition short_config : TradingConfig := {|
  system1_length := 10;
  system2_length := 10;
  use_system2 := true;
  max_units_per_position := 5;
  pyramid_increment := 1 # 2;
  atr_period := 10;
  stop_atr_multiple := 2;
  exit_length_s1 := 10;
  exit_length_s2 := 10;
|}.

(** The latest row of a frame that has one. *)
Definition latest_row (df : DataFrame) : Row :=
  match iloc_last df with
  | Ok row => row
  | Raise _ => {| name := 0; cells := ∅ |}
  end.

(** An indicator series carries its Donchian channels in pairs: the low
    of every window of which it has the high. *)
Definition paired_channels (df : DataFrame) : Prop :=
  ∀ n : Z, has_column df ("donchian_high_" +:+ pretty n) →
           has_column df ("donchian_low_" +:+ pretty n).

(** An entry signal of system [n]. *)
Definition is_entry (n : Z) (sig : Signal) : bool :=
  bool_decide (signal_type sig = BUY ∧ system sig = n).

(** The list [generate_signals] gets for one item of [data]; an exception
    of the symbol leaves none. *)
Definition produced (cfg : TradingConfig) (item : string * DataFrame) : list Signal :=
  match _generate_symbol_signals (__init__ cfg) item.1 item.2 with
  | Ok signals => signals
  | Raise _ => []
  end.

Definition nonempty {A} (l : list A) : bool :=
  match l with [] => false | _ => true end.

(** The calls a client can make on an engine. *)
Inductive call :=
| Call_generate_signals (data : list (string * DataFrame))
| Call_check_pyramid_signals (symbol : string) (df : DataFrame)
    (current_position_price : float64) (current_units : Z)
| Call_get_stop_loss_price (symbol : string) (df : DataFrame) (entry_price : float64)
| Call_get_signal_summary.

(** The engine after a call. *)
Definition exec (c : call) (self : SignalEngine) : SignalEngine :=
  match c with
  | Call_generate_signals data => (generate_signals data self).2
  | Call_check_pyramid_signals symbol df price units =>
      (check_pyramid_signals symbol df price units self).2
  | Call_get_stop_loss_price symbol df entry_price =>
      (get_stop_loss_price symbol df entry_price self).2
  | Call_get_signal_summary => (get_signal_summary self).2
  end.

(** The engine after construction and a sequence of calls. *)
Definition run (cfg : TradingConfig) (calls : list call) : SignalEngine :=
  foldl (λ self c, exec c self) (__init__ cfg) calls.

(** The symbols for which a call produced at least one signal. *)
Definition signalled_by (cfg : TradingConfig) (c : call) : gset string :=
  match c with
  | Call_generate_signals data =>
      list_to_set (fst <$> filter (λ item, nonempty (produced cfg item)) data)
  | _ => ∅
  end.

Definition signalled (cfg : TradingConfig) (calls : list call) : gset string :=
  ⋃ (signalled_by cfg <$> calls).

(** The invariant of [last_signals]. *)
Definition no_empty_list (self : SignalEngine) : Prop :=
  ∀ symbol signals, last_signals self !! symbol = Some signals → signals ≠ [].

End Vocabulary.
Export Vocabulary.

(** ** Vocabulary of normalisation and validation *)

Module QualityVocabulary.

(** The checks of [validate_data_quality], each as the condition under
    which its issue is appended. *)
Definition nonpositive (df : DataFrame) (col : string) : bool :=
  match columns df !! col with
  | Some prices => any ((λ x, leb x (of_Z 0)) <$> prices)
  | None => false
  end.

Definition high_below_low (df : DataFrame) : bool :=
  match columns df !! "high", columns df !! "low" with
  | Some high, Some low => any (zip_with ltb high low)
  | _, _ => false
  end.

Definition extreme_move (df : DataFrame) : bool :=
  match columns df !! "close" with
  | Some close => any ((λ x, gtb x (Num (1 # 2))) <$> col_abs (pct_change close))
  | None => false
  end.

Definition report (fires : bool) (issue : string) : list string :=
  if fires then [issue] else [].

(** A bar with positive prices whose low is at or under its high. *)
Definition sound_bar (b : PriceBar) : Prop :=
  (0 < bar_open b)%Q ∧ (0 < bar_high b)%Q ∧ (0 < bar_low b)%Q ∧
  (0 < bar_close b)%Q ∧ (bar_low b <= bar_high b)%Q.

(** No close moves by more than half of the close before it. *)
Definition moves_within_half (s : PriceSeries) : Prop :=
  ∀ i p b, s !! i = Some p → s !! S i = Some b →
           (Qabs (bar_close b / bar_close p - 1) <= 1 # 2)%Q.

Definition sound_series (s : PriceSeries) : Prop :=
  Forall sound_bar s ∧ moves_within_half s ∧ (60 ≤ length s)%nat.

(** A frame without a missing cell. *)
Definition complete (df : DataFrame) : Prop :=
  ∀ k col, columns df !! k = Some col → Forall (λ x, isna x = false) col.

(** The cells of the price columns a frame has are above 0. *)
Definition positive_prices (df : DataFrame) : Prop :=
  ∀ k col, k ∈ price_cols → columns df !! k = Some col →
           Forall (λ x, gtb x (of_Z 0) = true) col.

(** The two phases of [_normalize_data]: the adjustment by the adjusted
    close, and the filters on the price columns. *)
Definition adjust (df : DataFrame) : result DataFrame :=
  if has_column df "adj_close" then
    adj_close ← getitem df "adj_close";
    close ← getitem df "close";
    let adj_factor := col_div adj_close close in
    open_ ← getitem df "open";
    let df := set_column "open" (col_mul open_ adj_factor) df in
    high ← getitem df "high";
    let df := set_column "high" (col_mul high adj_factor) df in
    low ← getitem df "low";
    let df := set_column "low" (col_mul low adj_factor) df in
    adj_close ← getitem df "adj_close";
    let df := set_column "close" adj_close df in
    volume ← getitem df "volume";
    Ok (set_column "volume" (col_div volume adj_factor) df)
  else Ok df.

Definition ensure_positive (cols : list string) (df : DataFrame) : result DataFrame :=
  for_each cols (λ col df,
    if has_column df col then
      prices ← getitem df col;
      Ok (rows_where ((λ x, gtb x (of_Z 0)) <$> prices) df)
    else Ok df) df.

(** The adjusted frame, from the columns read. *)
Definition adjusted (adj_close close open_ high low volume : column)
    (df : DataFrame) : DataFrame :=
  {| index := index df;
     columns :=
       <["volume" := col_div volume (col_div adj_close close)]>
       (<["close" := adj_close]>
       (<["low" := col_mul low (col_div adj_close close)]>
       (<["high" := col_mul high (col_div adj_close close)]>
       (<["open" := col_mul open_ (col_div adj_close close)]> (columns df))))) |}.

(** [df'] has the columns of [df], each with some of its cells, in
    order. *)
Definition thinned (df' df : DataFrame) : Prop :=
  index df' `sublist_of` index df ∧
  ∀ k, option_Forall2 sublist (columns df' !! k) (columns df !! k).

(** The issues normalisation leaves possible. *)
Definition remaining_issues : list string :=
  ["High < Low found"; "Extreme price movements detected";
   "Insufficient data for analysis"].

End QualityVocabulary.
Export QualityVocabulary.

(** ** Vocabulary of the further properties *)

Module Further.

(** The true range column computed from the three columns read. *)
Definition true_range_of (h l c : column) : column :=
  row_max3 (col_sub h l) (col_abs (col_sub h (shift1 c))) (col_abs (col_sub l (shift1 c))).

(** The columns [calculate_technical_indicators] assigns and keeps, from
    the [high], [low] and [close] columns of the frame. *)
Definition computed_columns (sqrt : Q → Q) (h l c : column) : list (string * column) :=
  [ ("donchian_high_10", rolling 10 agg_max h);
    ("donchian_low_10", rolling 10 agg_min l);
    ("donchian_high_20", rolling 20 agg_max h);
    ("donchian_low_20", rolling 20 agg_min l);
    ("donchian_high_55", rolling 55 agg_max h);
    ("donchian_low_55", rolling 55 agg_min l);
    ("true_range", true_range_of h l c);
    ("atr_10", rolling 10 agg_mean (true_range_of h l c));
    ("atr_20", rolling 20 agg_mean (true_range_of h l c));
    ("atr_30", rolling 30 agg_mean (true_range_of h l c));
    ("sma_10", rolling 10 agg_mean c);
    ("sma_20", rolling 20 agg_mean c);
    ("sma_50", rolling 50 agg_mean c);
    ("sma_200", rolling 200 agg_mean c);
    ("returns", pct_change c);
    ("volatility_10", col_scale (Num (sqrt 252%Q)) (rolling 10 (agg_std sqrt) (pct_change c)));
    ("volatility_20", col_scale (Num (sqrt 252%Q)) (rolling 20 (agg_std sqrt) (pct_change c)));
    ("volatility_30", col_scale (Num (sqrt 252%Q)) (rolling 30 (agg_std sqrt) (pct_change c))) ].

Definition computed_map (sqrt : Q → Q) (h l c : column) : gmap string column :=
  list_to_map (computed_columns sqrt h l c).

(** Every column it assigns, in the order of the assignments, the
    temporary ones included. *)
Definition assigned_columns (sqrt : Q → Q) (h l c : column) : list (string * column) :=
  [ ("donchian_high_10", rolling 10 agg_max h);
    ("donchian_low_10", rolling 10 agg_min l);
    ("donchian_high_20", rolling 20 agg_max h);
    ("donchian_low_20", rolling 20 agg_min l);
    ("donchian_high_55", rolling 55 agg_max h);
    ("donchian_low_55", rolling 55 agg_min l);
    ("prev_close", shift1 c);
    ("tr1", col_sub h l);
    ("tr2", col_abs (col_sub h (shift1 c)));
    ("tr3", col_abs (col_sub l (shift1 c)));
    ("true_range", true_range_of h l c);
    ("atr_10", rolling 10 agg_mean (true_range_of h l c));
    ("atr_20", rolling 20 agg_mean (true_range_of h l c));
    ("atr_30", rolling 30 agg_mean (true_range_of h l c));
    ("sma_10", rolling 10 agg_mean c);
    ("sma_20", rolling 20 agg_mean c);
    ("sma_50", rolling 50 agg_mean c);
    ("sma_200", rolling 200 agg_mean c);
    ("returns", pct_change c);
    ("volatility_10", col_scale (Num (sqrt 252%Q)) (rolling 10 (agg_std sqrt) (pct_change c)));
    ("volatility_20", col_scale (Num (sqrt 252%Q)) (rolling 20 (agg_std sqrt) (pct_change c)));
    ("volatility_30", col_scale (Num (sqrt 252%Q)) (rolling 30 (agg_std sqrt) (pct_change c))) ].

(** The frame it returns: the computed columns laid over the columns of
    the input, the temporary names removed. *)
Definition enriched (sqrt : Q → Q) (h l c : column) (df : DataFrame) : DataFrame :=
  {| index := index df;
     columns := computed_map sqrt h l c ∪ foldr delete (columns df) temp_cols |}.

(** The names of those columns. *)
Definition computed_names : list string :=
  [ "donchian_high_10"; "donchian_low_10"; "donchian_high_20"; "donchian_low_20";
    "donchian_high_55"; "donchian_low_55"; "true_range";
    "atr_10"; "atr_20"; "atr_30"; "sma_10"; "sma_20"; "sma_50"; "sma_200";
    "returns"; "volatility_10"; "volatility_20"; "volatility_30" ].

(** The latest bar has its close between its low and its high. *)
Definition latest_bar_ordered (s : PriceSeries) : Prop :=
  ∃ b, last s = Some b ∧ (bar_low b <= bar_close b)%Q ∧ (bar_close b <= bar_high b)%Q.

(** The frames of a universe of price series, as [get_latest_data]
    hands them to the loop of [get_universe_data]. *)
Definition frames_of (universe : list (string * PriceSeries))
    : list (string * DataFrame) :=
  (λ item, (item.1, to_frame item.2)) <$> universe.

(** The entry and the exit signal a system emits for a symbol on a row. *)
Definition entry_signal (self : SignalEngine) (symbol : string) (row : Row)
    (close : float64) (sys : Z) : Signal :=
  {| symbol := symbol; signal_type := BUY; timestamp := name row;
     price := close; system := sys; confidence := Num 1;
     stop_price := Some (sub close
       (mul (Num (stop_atr_multiple (config self)))
          (row_get row ("atr_" +:+ pretty (atr_period (config self))) (of_Z 0))));
     target_price := None; units := 1 |}.

Definition exit_signal (symbol : string) (row : Row) (close : float64) (sys : Z)
    : Signal :=
  {| symbol := symbol; signal_type := EXIT; timestamp := name row;
     price := close; system := sys; confidence := Num 1;
     stop_price := None; target_price := None; units := 1 |}.

(** What one system emits on a row that has a close and the system's
    entry channel: the entry when the close is above the channel high,
    then the exit when the frame has the exit channel and the close is
    below its low. *)
Definition system_signals (self : SignalEngine) (symbol : string) (row : Row)
    (close high : float64) (sys exit_length : Z) : list Signal :=
  (if gtb close high then [entry_signal self symbol row close sys] else [])
  ++ match cells row !! ("donchian_low_" +:+ pretty exit_length) with
     | Some exit_low =>
         if ltb close exit_low then [exit_signal symbol row close sys] else []
     | None => []
     end.

(** An exit signal of system [n]. *)
Definition is_exit (n : Z) (sig : Signal) : bool :=
  bool_decide (signal_type sig = EXIT ∧ system sig = n).

(** The kind of a signal: its type and its system. *)
Definition kind (sig : Signal) : SignalType * Z := (signal_type sig, system sig).

Definition well_formed (symbol : string) (row : Row) (sig : Signal) : Prop :=
  SignalEngine.symbol sig = symbol ∧ timestamp sig = name row ∧
  cells row !! "close" = Some (price sig) ∧
  confidence sig = Num 1 ∧ units sig = 1%Z ∧ target_price sig = None ∧
  (signal_type sig = EXIT → stop_price sig = None).

(** What one item of [data] adds to a dict of signal lists. *)
Definition record (cfg : TradingConfig) (m : gmap string (list Signal))
    (item : string * DataFrame) : gmap string (list Signal) :=
  if nonempty (produced cfg item) then <[item.1 := produced cfg item]> m else m.

(** The signals an engine holds, over all its symbols. *)
Definition stored_signals (self : SignalEngine) : list Signal :=
  map_to_list (last_signals self) ≫= snd.

(** [summary[key].get(k, 0)] *)
Definition counted (m : gmap string nat) (k : string) : nat := default 0%nat (m !! k).

(** An entry or an exit of one of the two systems. *)
Definition entry_or_exit (sig : Signal) : Prop :=
  (signal_type sig = BUY ∨ signal_type sig = EXIT) ∧
  (system sig = 1%Z ∨ system sig = 2%Z).

Definition only_entries_and_exits (self : SignalEngine) : Prop :=
  ∀ symbol signals,
    last_signals self !! symbol = Some signals → Forall entry_or_exit signals.

(** Twelve equal days of range 3, the last close then moved one under the
    10-day low. *)
Definition plain_breakdown_frame : DataFrame :=
  breakout_frame (replicate 12 plain_bar) 8.

(** Four days as a provider delivers them: an adjusted close at half the
    close, a missing open on the second day, a negative low on the
    third. *)
Definition raw_frame : DataFrame :=
  {| index := [1; 2; 3; 4]%Z;
     columns :=
       <["open" := [Num 10; NaN; Num 10; Num 10]]>
       (<["high" := [Num 12; Num 12; Num 12; Num 12]]>
       (<["low" := [Num 9; Num 9; Num (-1); Num 9]]>
       (<["close" := [Num 11; Num 11; Num 11; Num 11]]>
       (<["adj_close" := [Num (11 # 2); Num (11 # 2); Num (11 # 2); Num (11 # 2)]]>
       (<["volume" := [Num 1000; Num 1000; Num 1000; Num 1000]]> ∅))))) |}.

End Further.
Export Further.

(** ** pandas primitives *)

Section PandasFacts.

Local Open Scope nat_scope.

Implicit Types (xs ys zs : column) (w i n : nat).

Lemma length_shift1 xs : length (shift1 xs) = length xs.
Proof. unfold shift1. rewrite length_take. cbn [length]. lia. Qed.

Lemma shift1_lookup_0 xs : xs ≠ [] → shift1 xs !! 0 = Some NaN.
Proof. by destruct xs. Qed.

Lemma shift1_lookup_S xs i : S i < length xs → shift1 xs !! S i = xs !! i.
Proof. intros Hi. unfold shift1. by rewrite lookup_take_lt. Qed.

(** A shifted column is causal: the shift of a prefix is the prefix of the
    shift. *)
Lemma take_shift1 xs n : take n (shift1 xs) = shift1 (take n xs).
Proof.
  unfold shift1. rewrite take_take, length_take.
  destruct (min n (length xs)) as [|m] eqn:Hm; [done|].
  cbn [take]. rewrite take_take. f_equal. f_equal. lia.
Qed.

Lemma take_ffill_from prev xs n :
  take n (ffill_from prev xs) = ffill_from prev (take n xs).
Proof.
  revert prev n. induction xs as [|x xs IH]; intros prev n; [by destruct n|].
  destruct n as [|n]; [done|]. cbn. by rewrite IH.
Qed.

Lemma take_row_max3 xs ys zs n :
  take n (row_max3 xs ys zs) = row_max3 (take n xs) (take n ys) (take n zs).
Proof.
  unfold row_max3. rewrite zip_with_take. f_equal. apply zip_with_take.
Qed.

Lemma take_pct_change xs n : take n (pct_change xs) = pct_change (take n xs).
Proof.
  unfold pct_change, col_div, ffill. cbn zeta.
  by rewrite <-fmap_take, zip_with_take, take_shift1, take_ffill_from.
Qed.

Lemma length_rolling w agg xs : length (rolling w agg xs) = length xs.
Proof. unfold rolling. by rewrite length_fmap, length_seq. Qed.

Lemma rolling_lookup w agg xs i :
  i < length xs →
  rolling w agg xs !! i =
    Some (if decide (w ≤ length (observations w i xs))
          then agg (observations w i xs) else NaN).
Proof.
  intros Hi. unfold rolling. rewrite list_lookup_fmap, lookup_seq_lt by done. done.
Qed.

Lemma length_window w i xs :
  length (window w i xs) = min (S i) (length xs) - (S i - w).
Proof. unfold window. by rewrite length_drop, length_take. Qed.

Lemma length_observations_le w i xs :
  length (observations w i xs) ≤ length (window w i xs).
Proof.
  unfold observations. induction (window w i xs) as [|x l IH]; [done|].
  cbn. destruct (observation x); cbn; lia.
Qed.

(** Before [w] rows are available the rolling aggregate is NaN, whatever
    the cells and the aggregate. *)
Lemma rolling_warm_up w agg xs i :
  i < length xs → S i < w → rolling w agg xs !! i = Some NaN.
Proof.
  intros Hi Hw. rewrite rolling_lookup by done.
  pose proof (length_observations_le w i xs) as Hle.
  rewrite length_window in Hle.
  case_decide; [lia|done].
Qed.

Lemma omap_observation_Num (qs : list Q) : omap observation (Num <$> qs) = qs.
Proof. induction qs as [|q qs IH]; [done|]. cbn. by rewrite IH. Qed.

Lemma all_finite_Num xs : all_finite xs → ∃ qs, xs = Num <$> qs.
Proof.
  induction 1 as [|x xs [q ->] _ [qs ->]]; [by exists []|]. by exists (q :: qs).
Qed.

Lemma observations_Num w i (qs : list Q) :
  observations w i (Num <$> qs) = drop (S i - w) (take (S i) qs).
Proof.
  unfold observations, window.
  by rewrite <-fmap_take, <-fmap_drop, omap_observation_Num.
Qed.

(** From row [w - 1] on, over finite cells, the rolling aggregate is the
    aggregate of the last [w] cells. *)
Lemma rolling_full w agg (qs : list Q) i :
  i < length qs → w ≤ S i →
  rolling w agg (Num <$> qs) !! i = Some (agg (drop (S i - w) (take (S i) qs))).
Proof.
  intros Hi Hw. rewrite rolling_lookup by (by rewrite length_fmap).
  rewrite observations_Num.
  case_decide as Hlen; [done|].
  rewrite length_drop, length_take in Hlen. lia.
Qed.

Lemma length_full_window {A} (l : list A) w i :
  i < length l → w ≤ S i → length (drop (S i - w) (take (S i) l)) = w.
Proof. intros. rewrite length_drop, length_take. lia. Qed.

(** A rolling aggregate is causal. *)
Lemma take_rolling w agg xs n :
  take n (rolling w agg xs) = rolling w agg (take n xs).
Proof.
  unfold rolling. rewrite <-fmap_take, take_seq, length_take.
  apply list_fmap_ext. intros j i [-> Hi]%lookup_seq. cbn [Nat.add].
  unfold observations, window.
  rewrite take_take.
  replace (min (S j) n) with (S j) by lia. done.
Qed.

End PandasFacts.

(** ** The indicator engine on a price series *)

Section IndicatorEngine.

Local Open Scope nat_scope.

Variable sqrt : Q → Q.

Implicit Types (s : PriceSeries) (w i n : nat).

(** The source, run on the frame of a price series, returns the frame of
    the named columns. *)
Lemma calculate_on_series s :
  calculate_technical_indicators sqrt (to_frame s) = Ok (indicator_frame sqrt s).
Proof. reflexivity. Qed.

Lemma indicator_frame_donchian_high s w :
  w ∈ donchian_periods →
  columns (indicator_frame sqrt s) !! ("donchian_high_" +:+ pretty w)
  = Some (donchian_high w s).
Proof.
  unfold donchian_periods. rewrite !elem_of_cons, elem_of_nil.
  intros [->|[->|[->|[]]]]; reflexivity.
Qed.

Lemma indicator_frame_atr s w :
  w ∈ atr_periods →
  columns (indicator_frame sqrt s) !! ("atr_" +:+ pretty w) = Some (atr w s).
Proof.
  unfold atr_periods. rewrite !elem_of_cons, elem_of_nil.
  intros [->|[->|[->|[]]]]; reflexivity.
Qed.

Lemma indicator_frame_true_range s :
  columns (indicator_frame sqrt s) !! "true_range" = Some (true_range_column s).
Proof. reflexivity. Qed.

(** *** True range *)

Lemma length_true_range s : length (true_range_column s) = length s.
Proof.
  unfold true_range_column, row_max3, col_abs, col_sub, highs, lows, closes.
  rewrite !length_zip_with, !length_fmap, !length_zip_with, length_shift1,
    !length_fmap. lia.
Qed.

Lemma true_range_lookup s i b pc :
  s !! i = Some b → shift1 (closes s) !! i = Some pc →
  true_range_column s !! i
  = Some (true_range_cell (bar_high b) (bar_low b) pc).
Proof.
  intros Hb Hpc.
  unfold true_range_column, row_max3, col_abs, col_sub, highs, lows.
  rewrite lookup_zip_with, lookup_zip_with, lookup_zip_with.
  rewrite !list_lookup_fmap, !lookup_zip_with, !list_lookup_fmap, Hb, Hpc.
  reflexivity.
Qed.

Lemma true_range_cell_first (h l : Q) :
  true_range_cell h l NaN = Num (h - l).
Proof. reflexivity. Qed.

Lemma Qle_bool_false (a b : Q) : Qle_bool a b = false → (b <= a)%Q.
Proof.
  intros H. apply Qlt_le_weak, Qnot_le_lt. intros Hle.
  apply Qle_bool_iff in Hle. congruence.
Qed.

Lemma elem_of_pair {A} (x a b : A) : x ∈ [a; b] → x = a ∨ x = b.
Proof.
  intros [->|Hx%elem_of_cons]%elem_of_cons; [by left|].
  destruct Hx as [->|Hx]; [by right|]. by apply elem_of_nil in Hx.
Qed.

Lemma nanmax2_Num (a b : Q) :
  ∃ v, nanmax2 (Num a) (Num b) = Num v ∧ is_max_of v [a; b].
Proof.
  cbn. destruct (Qle_bool b a) eqn:E; cbn.
  - exists a. split; [done|]. split; [repeat constructor|].
    intros q [->| ->]%elem_of_pair.
    + apply Qle_refl.
    + by apply Qle_bool_iff.
  - exists b. split; [done|]. split; [repeat constructor|].
    intros q [->| ->]%elem_of_pair.
    + by apply Qle_bool_false.
    + apply Qle_refl.
Qed.

Lemma true_range_cell_later (h l c : Q) :
  ∃ v, true_range_cell h l (Num c) = Num v ∧
       is_max_of v [(h - l)%Q; Qabs (h - c); Qabs (l - c)].
Proof.
  unfold true_range_cell. cbn [sub neg add abs].
  destruct (nanmax2_Num (h + - l) (Qabs (h + - c))) as (u & -> & Hin & Hub).
  destruct (nanmax2_Num u (Qabs (l + - c))) as (v & -> & Hin' & Hub').
  assert (u <= v)%Q as Huv by (apply Hub'; repeat constructor).
  exists v. split; [done|]. split.
  - apply elem_of_pair in Hin' as [->| ->]; [|repeat constructor].
    apply elem_of_pair in Hin as [->| ->]; repeat constructor.
  - intros q [->|Hq%elem_of_pair]%elem_of_cons.
    + eapply Qle_trans; [apply Hub|done]. repeat constructor.
    + destruct Hq as [->| ->].
      * eapply Qle_trans; [apply Hub|done]. repeat constructor.
      * apply Hub'. repeat constructor.
Qed.

Lemma prev_close_first s b :
  s !! 0 = Some b → shift1 (closes s) !! 0 = Some NaN.
Proof. by destruct s. Qed.

Lemma prev_close_later s i p b :
  s !! i = Some p → s !! S i = Some b →
  shift1 (closes s) !! S i = Some (Num (bar_close p)).
Proof.
  intros Hp Hb. apply lookup_lt_Some in Hb.
  rewrite shift1_lookup_S by (unfold closes; by rewrite length_fmap).
  unfold closes. by rewrite list_lookup_fmap, Hp.
Qed.

Lemma true_range_finite s : all_finite (true_range_column s).
Proof.
  apply Forall_lookup. intros i x Hx.
  assert (i < length s) as Hi.
  { rewrite <-length_true_range. by eapply lookup_lt_Some. }
  destruct (lookup_lt_is_Some_2 s i Hi) as [b Hb].
  destruct i as [|i].
  - rewrite (true_range_lookup s 0 b NaN Hb (prev_close_first s b Hb)) in Hx.
    injection Hx as <-. by eexists.
  - destruct (lookup_lt_is_Some_2 s i) as [p Hp]; [lia|].
    rewrite (true_range_lookup s (S i) b _ Hb (prev_close_later s i p b Hp Hb)) in Hx.
    injection Hx as <-.
    destruct (true_range_cell_later (bar_high b) (bar_low b) (bar_close p))
      as (v & -> & _). by eexists.
Qed.

(** *** Rolling aggregates of finite cells *)

Lemma Qmax2_cases (a b : Q) :
  (Qmax2 a b = a ∨ Qmax2 a b = b) ∧ (a <= Qmax2 a b)%Q ∧ (b <= Qmax2 a b)%Q.
Proof.
  unfold Qmax2. destruct (Qle_bool a b) eqn:E.
  - split; [by right|]. split; [by apply Qle_bool_iff|apply Qle_refl].
  - split; [by left|]. split; [apply Qle_refl|by apply Qle_bool_false].
Qed.

Lemma foldl_Qmax2_is_max (qs : list Q) (q : Q) :
  is_max_of (foldl Qmax2 q qs) (q :: qs).
Proof.
  revert q. induction qs as [|x qs IH]; intros q.
  - split; [repeat constructor|].
    intros y [->|Hy]%elem_of_cons; [apply Qle_refl|by apply elem_of_nil in Hy].
  - cbn [foldl]. destruct (IH (Qmax2 q x)) as [Hin Hub].
    destruct (Qmax2_cases q x) as (Hcase & Hq & Hx).
    assert (Qmax2 q x <= foldl Qmax2 (Qmax2 q x) qs)%Q as Hm
      by (apply Hub; constructor).
    split.
    + apply elem_of_cons in Hin as [Hin|Hin].
      * rewrite Hin. destruct Hcase as [-> | ->]; repeat constructor.
      * by do 2 constructor.
    + intros y [->|[->|Hy]%elem_of_cons]%elem_of_cons.
      * by eapply Qle_trans.
      * by eapply Qle_trans.
      * apply Hub. by constructor.
Qed.

Lemma agg_max_is_max (qs : list Q) :
  qs ≠ [] → ∃ v, agg_max qs = Num v ∧ is_max_of v qs.
Proof.
  destruct qs as [|q qs]; [done|]. intros _.
  exists (foldl Qmax2 q qs). split; [done|apply foldl_Qmax2_is_max].
Qed.

Lemma agg_mean_finite (qs : list Q) : qs ≠ [] → ∃ v, agg_mean qs = Num v.
Proof. destruct qs; [done|]. intros _. by eexists. Qed.

Lemma nonempty_of_length {A} (l : list A) n : length l = n → 1 ≤ n → l ≠ [].
Proof. intros <- Hn ->. cbn in Hn. lia. Qed.

(** The window boundary of a rolling aggregate over finite cells: NaN on
    rows [0 .. w-2], the aggregate of the last [w] cells from row [w-1]. *)
Lemma rolling_boundary w agg (qs : list Q) :
  (∀ i, i < length qs → S i < w → rolling w agg (Num <$> qs) !! i = Some NaN) ∧
  (∀ i, i < length qs → w ≤ S i →
     ∃ obs, length obs = w ∧ rolling w agg (Num <$> qs) !! i = Some (agg obs)).
Proof.
  split.
  - intros i Hi Hw. apply rolling_warm_up; [by rewrite length_fmap|done].
  - intros i Hi Hw. eexists. split; [|by apply rolling_full].
    by apply length_full_window.
Qed.

Lemma highs_finite s : highs s = Num <$> (bar_high <$> s).
Proof. unfold highs. by rewrite <-list_fmap_compose. Qed.

Lemma donchian_periods_positive w : w ∈ donchian_periods → 1 ≤ w.
Proof.
  unfold donchian_periods. rewrite !elem_of_cons, elem_of_nil.
  intros [->|[->|[->|[]]]]; lia.
Qed.

Lemma atr_periods_positive w : w ∈ atr_periods → 1 ≤ w.
Proof.
  unfold atr_periods. rewrite !elem_of_cons, elem_of_nil.
  intros [->|[->|[->|[]]]]; lia.
Qed.

(** C9.  For each Donchian window [w] the engine computes (10, 20, 55) and
    every price series: [donchian_high_w] is NaN on rows [0 .. w-2], a
    number on every row from [w-1] on, and on row [w-1] it is the greatest
    [high] of bars [0 .. w-1]. *)
Theorem donchian_high_window_boundary s w :
  w ∈ donchian_periods →
  ∃ df col,
    calculate_technical_indicators sqrt (to_frame s) = Ok df ∧
    columns df !! ("donchian_high_" +:+ pretty w) = Some col ∧
    length col = length s ∧
    (∀ i, i < length s → S i < w → col !! i = Some NaN) ∧
    (∀ i, i < length s → w ≤ S i → ∃ v, col !! i = Some (Num v)) ∧
    (w ≤ length s →
       ∃ v, col !! (w - 1) = Some (Num v) ∧
            is_max_of v (bar_high <$> take w s)).
Proof.
  intros Hw. pose proof (donchian_periods_positive w Hw) as Hpos.
  exists (indicator_frame sqrt s), (donchian_high w s).
  split; [apply calculate_on_series|].
  split; [by apply indicator_frame_donchian_high|].
  unfold donchian_high. rewrite highs_finite.
  split; [by rewrite length_rolling, !length_fmap|].
  split; [|split].
  - intros i Hi Hlt. apply rolling_warm_up; [by rewrite !length_fmap|done].
  - intros i Hi Hle.
    rewrite rolling_full by (by rewrite ?length_fmap).
    destruct (agg_max_is_max (drop (S i - w) (take (S i) (bar_high <$> s))))
      as (v & -> & _); [|by exists v].
    eapply nonempty_of_length; [|done].
    apply length_full_window; [by rewrite length_fmap|done].
  - intros Hlen.
    rewrite rolling_full by (rewrite ?length_fmap; lia).
    replace (S (w - 1)) with w by lia. rewrite Nat.sub_diag, drop_0, <-fmap_take.
    destruct (agg_max_is_max (bar_high <$> take w s)) as (v & -> & Hv);
      [|by exists v].
    eapply nonempty_of_length; [|done].
    rewrite length_fmap, length_take. lia.
Qed.

(** C2, as amended.  For each ATR window [w] the engine computes (10, 20,
    30) and every price series: [atr_w] is NaN on rows [0 .. w-2] and a
    number on every row from [w-1] on; the true range is defined on bar 0,
    so the first full window of true ranges ends on row [w-1]. *)
Theorem atr_window_boundary s w :
  w ∈ atr_periods →
  ∃ df col,
    calculate_technical_indicators sqrt (to_frame s) = Ok df ∧
    columns df !! ("atr_" +:+ pretty w) = Some col ∧
    length col = length s ∧
    (∀ i, i < length s → S i < w → col !! i = Some NaN) ∧
    (∀ i, i < length s → w ≤ S i → ∃ v, col !! i = Some (Num v)).
Proof.
  intros Hw. pose proof (atr_periods_positive w Hw) as Hpos.
  exists (indicator_frame sqrt s), (atr w s).
  split; [apply calculate_on_series|].
  split; [by apply indicator_frame_atr|].
  unfold atr.
  split; [by rewrite length_rolling, length_true_range|].
  destruct (all_finite_Num _ (true_range_finite s)) as [qs Hqs].
  assert (length qs = length s) as Hlen.
  { by rewrite <-(length_true_range s), Hqs, length_fmap. }
  rewrite Hqs. destruct (rolling_boundary w agg_mean qs) as [Hwarm Hfull].
  split.
  - intros i Hi Hlt. apply Hwarm; [by rewrite Hlen|done].
  - intros i Hi Hle.
    destruct (Hfull i) as (obs & Hobs & ->); [by rewrite Hlen|done|].
    destruct (agg_mean_finite obs) as [v ->]; [|by exists v].
    by eapply nonempty_of_length.
Qed.

(** C1, as amended.  The true range is defined on every bar of every
    price series: on bar 0, where [prev_close] is NaN, the row maximum
    skips the two NaN cells and the true range is [high - low]; on every
    later bar it is the greatest of [high - low], [|high - prev_close|]
    and [|low - prev_close|]. *)
Theorem true_range_defined_on_every_bar s :
  ∃ df tr,
    calculate_technical_indicators sqrt (to_frame s) = Ok df ∧
    columns df !! "true_range" = Some tr ∧
    length tr = length s ∧
    (∀ b, s !! 0 = Some b → tr !! 0 = Some (Num (bar_high b - bar_low b))) ∧
    (∀ i p b, s !! i = Some p → s !! S i = Some b →
       ∃ v, tr !! S i = Some (Num v) ∧
            is_max_of v [(bar_high b - bar_low b)%Q;
                         Qabs (bar_high b - bar_close p);
                         Qabs (bar_low b - bar_close p)]).
Proof.
  exists (indicator_frame sqrt s), (true_range_column s).
  split; [apply calculate_on_series|].
  split; [apply indicator_frame_true_range|].
  split; [apply length_true_range|]. split.
  - intros b Hb.
    rewrite (true_range_lookup s 0 b NaN Hb (prev_close_first s b Hb)).
    by rewrite true_range_cell_first.
  - intros i p b Hp Hb.
    rewrite (true_range_lookup s (S i) b _ Hb (prev_close_later s i p b Hp Hb)).
    destruct (true_range_cell_later (bar_high b) (bar_low b) (bar_close p))
      as (v & -> & Hv).
    by exists v.
Qed.

(** *** Causality *)

Lemma take_true_range_column s n :
  take n (true_range_column s) = true_range_column (take n s).
Proof.
  unfold true_range_column, col_abs, col_sub, highs, lows, closes.
  rewrite take_row_max3.
  by rewrite <-!fmap_take, !zip_with_take, take_shift1, <-!fmap_take.
Qed.

Lemma take_returns_column s n :
  take n (returns_column s) = returns_column (take n s).
Proof.
  unfold returns_column, closes. by rewrite take_pct_change, <-fmap_take.
Qed.

(** The indicator columns of a prefix of the series are the prefixes of
    the indicator columns of the series. *)
Lemma take_indicator_columns s n :
  prod_map id (take n) <$> indicator_columns sqrt s
  = indicator_columns sqrt (take n s).
Proof.
  unfold indicator_columns, donchian_high, donchian_low, atr, sma, volatility,
    col_scale.
  cbn [fmap list_fmap prod_map fst snd id].
  rewrite <-!fmap_take, !take_rolling, take_true_range_column, take_returns_column.
  unfold opens, highs, lows, closes, volumes.
  by rewrite <-!fmap_take.
Qed.

Lemma indicator_frame_prefix s n k :
  take n <$> (columns (indicator_frame sqrt s) !! k)
  = columns (indicator_frame sqrt (take n s)) !! k.
Proof.
  unfold indicator_frame. cbn [columns].
  by rewrite <-take_indicator_columns, list_to_map_fmap, lookup_fmap.
Qed.

Lemma lookup_of_take {A} (l1 l2 : list A) i :
  take (S i) l1 = take (S i) l2 → l1 !! i = l2 !! i.
Proof.
  intros H.
  rewrite <-(lookup_take_lt l1 (S i) i), <-(lookup_take_lt l2 (S i) i) by lia.
  by rewrite H.
Qed.

(** C7.  The indicator computation is causal: on two price series that
    agree on bars [0 .. i], both computations return, and row [i] of the two
    results is the same, label and every column. *)
Theorem indicators_causal (s1 s2 : PriceSeries) (i : nat) :
  take (S i) s1 = take (S i) s2 →
  ∃ df1 df2,
    calculate_technical_indicators sqrt (to_frame s1) = Ok df1 ∧
    calculate_technical_indicators sqrt (to_frame s2) = Ok df2 ∧
    index df1 !! i = index df2 !! i ∧
    ∀ k, cell df1 k i = cell df2 k i.
Proof.
  intros Hagree.
  exists (indicator_frame sqrt s1), (indicator_frame sqrt s2).
  split; [apply calculate_on_series|]. split; [apply calculate_on_series|].
  split.
  - cbn [index indicator_frame]. apply lookup_of_take.
    by rewrite <-!fmap_take, Hagree.
  - intros k. unfold cell.
    pose proof (indicator_frame_prefix s1 (S i) k) as H1.
    pose proof (indicator_frame_prefix s2 (S i) k) as H2.
    rewrite Hagree, <-H2 in H1.
    destruct (columns (indicator_frame sqrt s1) !! k) as [c1|],
             (columns (indicator_frame sqrt s2) !! k) as [c2|];
      cbn in H1 |- *; try done.
    apply lookup_of_take. by injection H1.
Qed.

(** *** No validation *)

Lemma length_ffill_from prev xs : length (ffill_from prev xs) = length xs.
Proof.
  revert prev. induction xs as [|x xs IH]; intros prev; [done|].
  cbn. by rewrite IH.
Qed.

Lemma length_pct_change xs : length (pct_change xs) = length xs.
Proof.
  unfold pct_change, col_div, ffill. cbn zeta.
  rewrite length_fmap, length_zip_with, length_shift1, length_ffill_from. lia.
Qed.

Lemma indicator_columns_rectangular s :
  Forall (λ kc, length kc.2 = length s) (indicator_columns sqrt s).
Proof.
  unfold indicator_columns, donchian_high, donchian_low, atr, sma, volatility,
    col_scale, returns_column, opens, highs, lows, closes, volumes.
  repeat constructor; cbn [snd];
    rewrite ?length_fmap, ?length_rolling, ?length_true_range,
      ?length_pct_change, ?length_fmap; done.
Qed.

Lemma indicator_frame_rectangular s : rectangular (indicator_frame sqrt s).
Proof.
  intros k col Hcol%elem_of_list_to_map_2.
  pose proof (indicator_columns_rectangular s) as Hall.
  rewrite Forall_forall in Hall. specialize (Hall _ Hcol). cbn [snd] in Hall.
  rewrite Hall. cbn [index indicator_frame]. by rewrite length_fmap.
Qed.

(** C4, as amended.  The indicator computation validates neither the
    series nor the windows: on every price series, empty or not, ordered
    or not, it returns a frame over the same dates, every column of the
    length of the series; its window lengths are constants, all positive. *)
Theorem calculate_accepts_every_series s :
  ∃ df,
    calculate_technical_indicators sqrt (to_frame s) = Ok df ∧
    index df = bar_timestamp <$> s ∧
    rectangular df ∧
    Forall (λ w, 1 ≤ w)
      (donchian_periods ++ atr_periods ++ sma_periods ++ volatility_periods).
Proof.
  exists (indicator_frame sqrt s).
  split; [apply calculate_on_series|]. split; [done|].
  split; [apply indicator_frame_rectangular|].
  repeat constructor; lia.
Qed.

End IndicatorEngine.

(** C1, as stated, fails on a series of one bar: its true range at bar 0
    is [12 - 9 = 3], not undefined. *)
Lemma true_range_defined_at_bar_0 :
  ∃ df,
    calculate_technical_indicators sqrt_e6 (to_frame [plain_bar]) = Ok df ∧
    cell df "true_range" 0 = Some (Num 3) ∧
    cell df "true_range" 0 ≠ Some NaN.
Proof. eexists. split; [reflexivity|]. split; [reflexivity|discriminate]. Qed.


Lemma returns_not_raises {A} (m : result A) : returns m → ¬ raises m.
Proof. intros [a ->] [e He]. discriminate. Qed.

(** C4, as stated, fails both ways: on the empty series the computation
    returns the empty frame, and on a bar whose high is below its low it
    returns a frame with a negative true range; neither raises. *)
Lemma calculate_returns_on_malformed_series :
  (∃ df, calculate_technical_indicators sqrt_e6 (to_frame []) = Ok df ∧
         index df = [] ∧
         ¬ raises (calculate_technical_indicators sqrt_e6 (to_frame []))) ∧
  (¬ ohlc_ordered inverted_bar ∧
   ∃ df, calculate_technical_indicators sqrt_e6 (to_frame [inverted_bar]) = Ok df ∧
         cell df "true_range" 0 = Some (Num (-4)) ∧
         ¬ raises (calculate_technical_indicators sqrt_e6 (to_frame [inverted_bar]))).
Proof.
  split.
  - eexists. split; [reflexivity|]. split; [reflexivity|].
    apply returns_not_raises. by eexists.
  - split.
    + intros (H & _). unfold Qle in H. cbn in H. lia.
    + eexists. split; [reflexivity|]. split; [vm_compute; reflexivity|].
      apply returns_not_raises. by eexists.
Qed.

(** C2, as stated, fails on ten equal bars: [atr_10] is defined on row
    [w - 1 = 9], where it is the mean [3] of the ten true ranges. *)
Lemma atr_defined_at_row_w_minus_1 :
  ∃ df v,
    calculate_technical_indicators sqrt_e6 (to_frame (replicate 10 plain_bar)) = Ok df ∧
    cell df "true_range" 0 = Some (Num 3) ∧
    cell df "atr_10" 9 = Some (Num v) ∧ (v == 3)%Q.
Proof.
  eexists _, _. split; [reflexivity|].
  split; [vm_compute; reflexivity|].
  split; [vm_compute; reflexivity|reflexivity].
Qed.

Lemma atr_window_boundary_witness :
  (10%nat ∈ atr_periods) ∧
  ∃ df col,
    calculate_technical_indicators sqrt_e6 (to_frame (replicate 12 plain_bar)) = Ok df ∧
    columns df !! "atr_10" = Some col ∧
    col !! 8%nat = Some NaN ∧ ∃ v, col !! 9%nat = Some (Num v).
Proof.
  assert (10%nat ∈ atr_periods) as Hw by (repeat constructor).
  split; [exact Hw|].
  destruct (atr_window_boundary sqrt_e6 (replicate 12 plain_bar) 10%nat Hw)
    as (df & col & Hdf & Hcol & Hlen & Hwarm & Hfull).
  exists df, col. split; [exact Hdf|]. split; [exact Hcol|].
  split; [apply Hwarm|apply Hfull]; cbn; lia.
Defined.

Lemma donchian_high_window_boundary_witness :
  (10%nat ∈ donchian_periods) ∧
  ∃ df col,
    calculate_technical_indicators sqrt_e6 (to_frame (replicate 12 plain_bar)) = Ok df ∧
    columns df !! "donchian_high_10" = Some col ∧
    col !! 8%nat = Some NaN ∧
    ∃ v, col !! 9%nat = Some (Num v) ∧ is_max_of v (replicate 10 12%Q).
Proof.
  assert (10%nat ∈ donchian_periods) as Hw by (repeat constructor).
  split; [exact Hw|].
  destruct (donchian_high_window_boundary sqrt_e6 (replicate 12 plain_bar) 10%nat Hw)
    as (df & col & Hdf & Hcol & Hlen & Hwarm & Hfull & Hmax).
  exists df, col. split; [exact Hdf|]. split; [exact Hcol|].
  split; [apply Hwarm; cbn; lia|].
  apply Hmax. cbn. lia.
Defined.

(** ** The signal engine *)

Section SignalEngineFacts.

Implicit Types (self : SignalEngine) (df : DataFrame) (row : Row)
  (symbol k : string).

Lemma iloc_last_cells df row k :
  iloc_last df = Ok row →
  cells row !! k = (λ col, default NaN (last col)) <$> columns df !! k.
Proof.
  unfold iloc_last. destruct (last (index df)); [|done].
  intros [= <-]. cbn [cells]. by rewrite lookup_fmap.
Qed.

Lemma iloc_last_has_column df row k :
  iloc_last df = Ok row → has_column df k = bool_decide (is_Some (cells row !! k)).
Proof.
  intros Hrow. rewrite (iloc_last_cells df row k Hrow). unfold has_column.
  apply bool_decide_ext. by rewrite fmap_is_Some.
Qed.

(** *** The loop of [generate_signals] *)

(** The signals of a symbol depend on the engine through its
    configuration only. *)
Lemma _generate_symbol_signals_config self symbol df :
  _generate_symbol_signals self symbol df
  = _generate_symbol_signals (__init__ (config self)) symbol df.
Proof. reflexivity. Qed.

Lemma generate_signals_body_eq all_signals self item :
  generate_signals_body (all_signals, self) item =
    if nonempty (produced (config self) item)
    then (<[item.1 := produced (config self) item]> all_signals,
          {| config := config self;
             last_signals := <[item.1 := produced (config self) item]> (last_signals self) |})
    else (all_signals, self).
Proof.
  destruct item as [symbol df]. unfold generate_signals_body, produced.
  cbn [fst snd]. rewrite <-_generate_symbol_signals_config.
  by destruct (_generate_symbol_signals self symbol df) as [[|]|].
Qed.

Lemma generate_signals_body_config acc item :
  config (generate_signals_body acc item).2 = config acc.2.
Proof.
  destruct acc as [all_signals self]. rewrite generate_signals_body_eq.
  by destruct (nonempty _).
Qed.

Lemma generate_signals_loop_config data acc :
  config (foldl generate_signals_body acc data).2 = config acc.2.
Proof.
  revert acc. induction data as [|item data IH]; intros acc; [done|].
  cbn [foldl]. by rewrite IH, generate_signals_body_config.
Qed.

Lemma generate_signals_body_lookup acc item symbol :
  last_signals (generate_signals_body acc item).2 !! symbol =
    if decide (item.1 = symbol ∧ nonempty (produced (config acc.2) item))
    then Some (produced (config acc.2) item)
    else last_signals acc.2 !! symbol.
Proof.
  destruct acc as [all_signals self]. rewrite generate_signals_body_eq.
  cbn [snd]. destruct (nonempty _) eqn:E; cbn [snd last_signals].
  - rewrite lookup_insert. case_decide as Hk.
    + rewrite decide_True; [done|by split].
    + rewrite decide_False; [done|]. intros [? _]. done.
  - rewrite decide_False; [done|]. intros [_ []].
Qed.

(** Symbols that are not keys of [data] keep their entry. *)
Lemma generate_signals_loop_other data acc symbol :
  symbol ∉ data.*1 →
  last_signals (foldl generate_signals_body acc data).2 !! symbol
  = last_signals acc.2 !! symbol.
Proof.
  revert acc. induction data as [|item data IH]; intros acc Hnot; [done|].
  cbn [foldl]. rewrite fmap_cons, not_elem_of_cons in Hnot.
  destruct Hnot as [Hne Hnot].
  rewrite IH by done. rewrite generate_signals_body_lookup.
  rewrite decide_False; [done|]. intros [? _]. done.
Qed.

(** A key of [data] ends with the list produced for it, or keeps its entry
    when none was produced. *)
Lemma generate_signals_loop_item data acc item :
  NoDup data.*1 → item ∈ data →
  last_signals (foldl generate_signals_body acc data).2 !! item.1 =
    if nonempty (produced (config acc.2) item)
    then Some (produced (config acc.2) item)
    else last_signals acc.2 !! item.1.
Proof.
  revert acc. induction data as [|item' data IH]; intros acc Hnd Hin.
  { by apply elem_of_nil in Hin. }
  rewrite fmap_cons in Hnd. apply NoDup_cons in Hnd as [Hfresh Hnd].
  cbn [foldl]. apply elem_of_cons in Hin as [->|Hin].
  - rewrite generate_signals_loop_other by done.
    rewrite generate_signals_body_lookup.
    destruct (nonempty _) eqn:E.
    + rewrite decide_True; [done|by split].
    + rewrite decide_False; [done|]. intros [_ []].
  - rewrite IH by done. rewrite generate_signals_body_config.
    destruct (nonempty _); [done|].
    rewrite generate_signals_body_lookup.
    rewrite decide_False; [done|]. intros [Heq _].
    apply Hfresh. rewrite Heq. by apply list_elem_of_fmap_2.
Qed.

Lemma generate_signals_unfold data self :
  generate_signals data self
  = (Ok (foldl generate_signals_body (∅, self) data).1,
     (foldl generate_signals_body (∅, self) data).2).
Proof. unfold generate_signals. by destruct (foldl _ _ _). Qed.

(** C8.  After a call of [generate_signals] on a dict [data]: a processed
    symbol whose list came out non-empty maps to exactly that list; a
    processed symbol whose list came out empty keeps the entry it had, as
    does one whose processing raised; symbols that were not processed keep
    their entry. *)
Theorem generate_signals_frame self data :
  NoDup data.*1 →
  ∃ all_signals self',
    generate_signals data self = (Ok all_signals, self') ∧
    config self' = config self ∧
    (∀ symbol df signals,
       (symbol, df) ∈ data →
       _generate_symbol_signals self symbol df = Ok signals →
       signals ≠ [] →
       last_signals self' !! symbol = Some signals) ∧
    (∀ symbol df,
       (symbol, df) ∈ data →
       _generate_symbol_signals self symbol df = Ok [] →
       last_signals self' !! symbol = last_signals self !! symbol) ∧
    (∀ symbol df e,
       (symbol, df) ∈ data →
       _generate_symbol_signals self symbol df = Raise e →
       last_signals self' !! symbol = last_signals self !! symbol) ∧
    (∀ symbol,
       symbol ∉ data.*1 →
       last_signals self' !! symbol = last_signals self !! symbol).
Proof.
  intros Hnd. eexists _, _. split; [apply generate_signals_unfold|].
  split; [apply generate_signals_loop_config|].
  assert (∀ symbol df, (symbol, df) ∈ data →
    last_signals (foldl generate_signals_body (∅, self) data).2 !! symbol =
      match _generate_symbol_signals self symbol df with
      | Ok [] | Raise _ => last_signals self !! symbol
      | Ok signals => Some signals
      end) as Hitem.
  { intros symbol df Hin.
    rewrite (generate_signals_loop_item data (∅, self) (symbol, df) Hnd Hin).
    unfold produced. cbn [fst snd]. rewrite <-_generate_symbol_signals_config.
    by destruct (_generate_symbol_signals self symbol df) as [[|]|]. }
  repeat split.
  - intros symbol df signals Hin Hsig Hne. rewrite (Hitem _ _ Hin), Hsig.
    by destruct signals.
  - intros symbol df Hin Hsig. by rewrite (Hitem _ _ Hin), Hsig.
  - intros symbol df e Hin Hsig. by rewrite (Hitem _ _ Hin), Hsig.
  - intros symbol Hnot. by apply generate_signals_loop_other.
Qed.

(** *** The invariant of [last_signals] *)

Lemma init_no_empty_list cfg : no_empty_list (__init__ cfg).
Proof. intros symbol signals. cbn. by rewrite lookup_empty. Qed.

Lemma generate_signals_body_no_empty_list acc item :
  no_empty_list acc.2 → no_empty_list (generate_signals_body acc item).2.
Proof.
  intros Hinv symbol signals. rewrite generate_signals_body_lookup.
  case_decide as Hk; [|apply Hinv].
  destruct Hk as [_ Hne]. intros [= <-]. by destruct (produced _ _).
Qed.

Lemma generate_signals_loop_no_empty_list data acc :
  no_empty_list acc.2 → no_empty_list (foldl generate_signals_body acc data).2.
Proof.
  revert acc. induction data as [|item data IH]; intros acc Hinv; [done|].
  cbn [foldl]. by apply IH, generate_signals_body_no_empty_list.
Qed.

Lemma exec_generate_signals data self :
  exec (Call_generate_signals data) self
  = (foldl generate_signals_body (∅, self) data).2.
Proof. cbn [exec]. by rewrite generate_signals_unfold. Qed.

Lemma exec_no_empty_list c self : no_empty_list self → no_empty_list (exec c self).
Proof.
  intros Hinv. destruct c; try done.
  rewrite exec_generate_signals. by apply generate_signals_loop_no_empty_list.
Qed.

Lemma exec_config c self : config (exec c self) = config self.
Proof.
  destruct c; try done.
  rewrite exec_generate_signals. apply generate_signals_loop_config.
Qed.

Lemma generate_signals_body_dom acc item :
  dom (last_signals (generate_signals_body acc item).2) =
    dom (last_signals acc.2)
    ∪ (if nonempty (produced (config acc.2) item) then {[ item.1 ]} else ∅).
Proof.
  destruct acc as [all_signals self]. rewrite generate_signals_body_eq.
  cbn [snd]. destruct (nonempty _); cbn [snd last_signals].
  - rewrite dom_insert_L. apply (comm_L (∪)).
  - by rewrite union_empty_r_L.
Qed.

Lemma generate_signals_loop_dom data acc :
  dom (last_signals (foldl generate_signals_body acc data).2) =
    dom (last_signals acc.2)
    ∪ list_to_set (fst <$> filter (λ item, nonempty (produced (config acc.2) item)) data).
Proof.
  revert acc. induction data as [|item data IH]; intros acc.
  { cbn. by rewrite union_empty_r_L. }
  cbn [foldl]. rewrite IH, generate_signals_body_config, generate_signals_body_dom.
  rewrite filter_cons. destruct (nonempty (produced (config acc.2) item)) eqn:E.
  - rewrite decide_True by done.
    by rewrite fmap_cons, list_to_set_cons, (assoc_L (∪)).
  - rewrite decide_False by (by intros []). by rewrite union_empty_r_L.
Qed.

Lemma exec_dom c self :
  dom (last_signals (exec c self))
  = dom (last_signals self) ∪ signalled_by (config self) c.
Proof.
  destruct c; cbn [signalled_by]; try (by rewrite union_empty_r_L).
  rewrite exec_generate_signals. apply generate_signals_loop_dom.
Qed.

Lemma run_snoc cfg calls c : run cfg (calls ++ [c]) = exec c (run cfg calls).
Proof. unfold run. by rewrite foldl_app. Qed.

Lemma run_config cfg calls : config (run cfg calls) = cfg.
Proof.
  induction calls as [|c calls IH] using rev_ind; [done|].
  by rewrite run_snoc, exec_config.
Qed.

Lemma run_no_empty_list cfg calls : no_empty_list (run cfg calls).
Proof.
  induction calls as [|c calls IH] using rev_ind; [apply init_no_empty_list|].
  rewrite run_snoc. by apply exec_no_empty_list.
Qed.

Lemma run_dom cfg calls : dom (last_signals (run cfg calls)) = signalled cfg calls.
Proof.
  unfold signalled.
  induction calls as [|c calls IH] using rev_ind.
  { cbn. by rewrite dom_empty_L. }
  rewrite run_snoc, exec_dom, run_config, IH, fmap_app, union_list_app_L.
  cbn. by rewrite union_empty_r_L.
Qed.

(** C10.  The constructor establishes, and every call keeps, that no list
    stored in [last_signals] is empty; so after any sequence of calls the
    recorded symbols are exactly those for which some [generate_signals]
    call produced at least one signal, and [total_symbols] of the summary
    is their number. *)
Theorem last_signals_never_holds_an_empty_list cfg calls :
  no_empty_list (__init__ cfg) ∧
  (∀ self c, no_empty_list self → no_empty_list (exec c self)) ∧
  no_empty_list (run cfg calls) ∧
  (∀ symbol, is_Some (last_signals (run cfg calls) !! symbol)
             ↔ symbol ∈ signalled cfg calls) ∧
  ∃ summary,
    (get_signal_summary (run cfg calls)).1 = Ok summary ∧
    total_symbols summary = size (signalled cfg calls).
Proof.
  split; [apply init_no_empty_list|].
  split; [intros self c; apply exec_no_empty_list|].
  split; [apply run_no_empty_list|].
  split.
  - intros symbol. by rewrite <-run_dom, elem_of_dom.
  - eexists. split; [reflexivity|]. cbn [total_symbols].
    by rewrite <-run_dom, size_dom.
Qed.

(** *** Entries and exits of the two systems *)

Lemma filter_none {A} (P : A → Prop) `{!∀ x, Decision (P x)} (l : list A) :
  Forall (λ x, ¬ P x) l → filter P l = [].
Proof.
  induction 1 as [|x l Hx _ IH]; [done|].
  by rewrite filter_cons, decide_False, IH.
Qed.

Lemma ltb_defined (x y : float64) : ltb x y = true → isna x = false ∧ isna y = false.
Proof. by destruct x as [|[]|], y as [|[]|]. Qed.

Lemma eqb_not_gtb (x y : float64) : eqb x y = true → gtb x y = false.
Proof.
  unfold gtb. destruct x as [|[]|a], y as [|[]|b]; cbn; try done.
  intros H%Qeq_bool_iff. apply negb_false_iff, Qle_bool_iff.
  rewrite H. apply Qle_refl.
Qed.

Lemma row_present df row k :
  iloc_last df = Ok row → has_column df k = true → is_Some (cells row !! k).
Proof.
  intros Hrow. rewrite (iloc_last_has_column df row k Hrow).
  apply bool_decide_eq_true_1.
Qed.

Lemma _check_system1_signals_shape self symbol df row date close high :
  iloc_last df = Ok row →
  paired_channels df →
  cells row !! "close" = Some close →
  cells row !! ("donchian_high_" +:+ pretty (system1_length (config self))) = Some high →
  ∃ exits,
    _check_system1_signals self symbol df row date =
      Ok ((if gtb close high then
             [ {| symbol := symbol; signal_type := BUY; timestamp := date;
                  price := close; system := 1; confidence := Num 1;
                  stop_price := Some (sub close
                    (mul (Num (stop_atr_multiple (config self)))
                       (row_get row ("atr_" +:+ pretty (atr_period (config self))) (of_Z 0))));
                  target_price := None; units := 1 |} ]
           else []) ++ exits) ∧
    Forall (λ sig, signal_type sig = EXIT) exits.
Proof.
  intros Hrow Hpair Hclose Hhigh.
  assert (has_column df ("donchian_high_" +:+ pretty (system1_length (config self))) = true)
    as Hcol.
  { rewrite (iloc_last_has_column _ _ _ Hrow), Hhigh. by apply bool_decide_eq_true_2. }
  destruct (row_present _ _ _ Hrow (Is_true_true_1 _ (Hpair _ (Is_true_true_2 _ Hcol))))
    as [low Hlow].
  unfold _check_system1_signals. rewrite Hcol. cbn [negb].
  unfold row_getitem. rewrite Hclose, Hhigh, Hlow. cbn [mbind result_bind].
  assert (gtb close high && negb (isna high) = gtb close high) as ->.
  { destruct (gtb close high) eqn:E; [|done].
    by destruct (ltb_defined _ _ E) as [-> _]. }
  destruct (has_column df ("donchian_low_" +:+ pretty (exit_length_s1 (config self))))
    eqn:Hexit.
  - destruct (row_present _ _ _ Hrow Hexit) as [exit_low ->].
    cbn [mbind result_bind].
    destruct (ltb close exit_low && negb (isna exit_low)).
    + eexists [_]. split; [by destruct (gtb close high)|]. by repeat constructor.
    + exists []. split; [by destruct (gtb close high)|]. constructor.
  - exists []. split; [by destruct (gtb close high)|]. constructor.
Qed.

(** What both system checks guarantee about any list they return. *)
Ltac check_outputs :=
  repeat match goal with
  | |- context [negb (has_column ?df ?k)] => destruct (has_column df k); cbn [negb]
  | |- context [if has_column ?df ?k then _ else _] => destruct (has_column df k)
  | |- context [row_getitem ?r ?k] =>
      unfold row_getitem at 1; destruct (cells r !! k); cbn [mbind result_bind]
  | |- context [if ?b && ?c then _ else _] => destruct (b && c)
  | |- Raise _ = Ok _ → _ => discriminate
  | |- Ok _ = Ok _ → _ => intros [= <-]
  end.

Lemma _check_system1_signals_outputs self symbol df row date signals :
  _check_system1_signals self symbol df row date = Ok signals →
  Forall (λ sig,
    system sig = 1%Z ∧
    (signal_type sig = BUY →
     stop_price sig = Some (sub (price sig)
       (mul (Num (stop_atr_multiple (config self)))
          (row_get row ("atr_" +:+ pretty (atr_period (config self))) (of_Z 0)))))) signals.
Proof.
  unfold _check_system1_signals. cbn zeta. check_outputs; repeat constructor; done.
Qed.

Lemma _check_system2_signals_outputs self symbol df row date signals :
  _check_system2_signals self symbol df row date = Ok signals →
  Forall (λ sig,
    system sig = 2%Z ∧
    (signal_type sig = BUY →
     stop_price sig = Some (sub (price sig)
       (mul (Num (stop_atr_multiple (config self)))
          (row_get row ("atr_" +:+ pretty (atr_period (config self))) (of_Z 0)))))) signals.
Proof.
  unfold _check_system2_signals. cbn zeta. check_outputs; repeat constructor; done.
Qed.

Lemma _check_system2_signals_returns self symbol df row date close :
  iloc_last df = Ok row →
  paired_channels df →
  cells row !! "close" = Some close →
  returns (_check_system2_signals self symbol df row date).
Proof.
  intros Hrow Hpair Hclose. unfold _check_system2_signals.
  destruct (has_column df ("donchian_high_" +:+ pretty (system2_length (config self))))
    eqn:Hcol; cbn [negb]; [|by eexists].
  destruct (row_present _ _ _ Hrow Hcol) as [high Hhigh].
  destruct (row_present _ _ _ Hrow (Is_true_true_1 _ (Hpair _ (Is_true_true_2 _ Hcol))))
    as [low Hlow].
  unfold row_getitem. rewrite Hclose, Hhigh, Hlow. cbn [mbind result_bind].
  destruct (has_column df ("donchian_low_" +:+ pretty (exit_length_s2 (config self))))
    eqn:Hexit; [|by eexists].
  destruct (row_present _ _ _ Hrow Hexit) as [exit_low ->].
  cbn [mbind result_bind].
  destruct (ltb close exit_low && negb (isna exit_low)); by eexists.
Qed.


Lemma is_entry_spec n sig :
  is_entry n sig ↔ signal_type sig = BUY ∧ system sig = n.
Proof. unfold is_entry. apply bool_decide_spec. Qed.

Lemma exits_are_no_entries n (signals : list Signal) :
  Forall (λ sig, signal_type sig = EXIT) signals →
  filter (is_entry n) signals = [].
Proof.
  intros H. apply filter_none. eapply Forall_impl; [exact H|].
  intros sig Hexit [Hbuy _]%is_entry_spec. congruence.
Qed.

Lemma other_system_no_entries n m (signals : list Signal) :
  n ≠ m →
  Forall (λ sig, system sig = m) signals →
  filter (is_entry n) signals = [].
Proof.
  intros Hne H. apply filter_none. eapply Forall_impl; [exact H|].
  intros sig Hsys [_ Hn]%is_entry_spec. congruence.
Qed.

(** The frames of the indicator engine carry their channels in pairs,
    and moving a cell keeps them so. *)
Ltac channel_window Hk n w :=
  assert (n = w) as ->
    by (apply (inj pretty), (inj (String.app "donchian_high_"));
        rewrite Hk; vm_compute; reflexivity);
  apply bool_decide_pack; eexists; vm_compute; reflexivity.

Ltac channel_case Hk n :=
  lazymatch type of Hk with
  | _ = "donchian_high_10" => channel_window Hk n 10%Z
  | _ = "donchian_high_20" => channel_window Hk n 20%Z
  | _ = "donchian_high_55" => channel_window Hk n 55%Z
  | _ => cbn [String.app String.append] in Hk; discriminate Hk
  end.

Lemma indicator_frame_paired sqrt s : paired_channels (indicator_frame sqrt s).
Proof.
  intros n [col Hcol]%bool_decide_unpack.
  cbn [columns indicator_frame] in Hcol.
  apply elem_of_list_to_map_2 in Hcol. unfold indicator_columns in Hcol.
  do 23 (apply elem_of_cons in Hcol as [Hk%(f_equal fst)|Hcol];
         [cbn [fst] in Hk; channel_case Hk n|]).
  apply elem_of_nil in Hcol as [].
Qed.

Lemma set_last_has_column k v df k' :
  has_column (set_last k v df) k' = has_column df k'.
Proof.
  unfold set_last, has_column.
  destruct (columns df !! k) as [col|] eqn:Hk; [|done].
  apply bool_decide_ext. cbn [columns set_column].
  rewrite lookup_insert. case_decide as Heq; [|done].
  subst k'. rewrite Hk. split; intros _; by eexists.
Qed.

Lemma breakout_frame_paired s c : paired_channels (breakout_frame s c).
Proof.
  unfold breakout_frame. rewrite calculate_on_series.
  intros n. rewrite !set_last_has_column. apply indicator_frame_paired.
Qed.

(** C5.  On an indicator series with enough history whose latest row has a
    close and a System 1 channel high: when the close is strictly above
    the high, the signals of the symbol hold exactly one entry of System 1,
    priced at the close; when the close equals the high they hold none. *)
Theorem system1_entry_on_strict_breakout self symbol df row close high :
  paired_channels df →
  ¬ (len df < Z.max (system1_length (config self)) (system2_length (config self)))%Z →
  iloc_last df = Ok row →
  cells row !! "close" = Some close →
  cells row !! ("donchian_high_" +:+ pretty (system1_length (config self))) = Some high →
  ∃ signals,
    _generate_symbol_signals self symbol df = Ok signals ∧
    (gtb close high = true →
       ∃ sig, filter (is_entry 1) signals = [sig] ∧
              price sig = close ∧ signal_type sig = BUY ∧ system sig = 1%Z) ∧
    (eqb close high = true → filter (is_entry 1) signals = []).
Proof.
  intros Hpair Hlen Hrow Hclose Hhigh.
  destruct (_check_system1_signals_shape self symbol df row (name row) close high
              Hrow Hpair Hclose Hhigh) as (exits & H1 & Hexits).
  assert (∃ signals2,
    (if use_system2 (config self)
     then _check_system2_signals self symbol df row (name row)
     else Ok []) = Ok signals2 ∧
    Forall (λ sig, system sig = 2%Z) signals2) as (signals2 & H2 & Hsys2).
  { destruct (use_system2 (config self)); [|by exists []].
    destruct (_check_system2_signals_returns self symbol df row (name row) close
                Hrow Hpair Hclose) as [signals2 H2].
    exists signals2. split; [done|].
    eapply Forall_impl; [by eapply _check_system2_signals_outputs|].
    by intros sig [? _]. }
  match type of H1 with _ = Ok ?l => exists (l ++ signals2) end. split.
  { unfold _generate_symbol_signals. rewrite bool_decide_eq_false_2 by done.
    rewrite Hrow. cbn [mbind result_bind]. rewrite H1. cbn [mbind result_bind].
    destruct (use_system2 (config self)).
    - rewrite H2. reflexivity.
    - injection H2 as <-. by rewrite app_nil_r. }
  rewrite !filter_app, (exits_are_no_entries 1 exits Hexits),
    (other_system_no_entries 1 2 signals2) by done.
  split.
  - intros ->. eexists. rewrite filter_cons, decide_True by (by apply is_entry_spec).
    split; [reflexivity|done].
  - intros Heq. by rewrite (eqb_not_gtb _ _ Heq).
Qed.

End SignalEngineFacts.

(** C3.  [get_stop_loss_price] where the ATR is missing, for an entry at
    100 under the default configuration: on the bare frame of a price
    series, whose indicators were never computed, it returns the entry
    price itself; on the indicators of twelve bars, where [atr_20] is
    still NaN, it returns NaN.  Neither call raises, and neither stop is
    below the entry. *)
Theorem get_stop_loss_price_without_atr :
  (get_stop_loss_price "X" (to_frame [plain_bar]) (Num 100) (__init__ default_config)).1
    = Ok (Num 100) ∧
  ∃ df,
    calculate_technical_indicators sqrt_e6 (to_frame (replicate 12 plain_bar)) = Ok df ∧
    cell df "atr_20" 11 = Some NaN ∧
    (get_stop_loss_price "X" df (Num 100) (__init__ default_config)).1 = Ok NaN ∧
    ltb (Num 100) (Num 100) = false ∧ ltb NaN (Num 100) = false.
Proof.
  split; [vm_compute; reflexivity|].
  eexists. split; [reflexivity|]. split; [vm_compute; reflexivity|].
  split; [vm_compute; reflexivity|]. split; reflexivity.
Qed.

(** C6.  A flat market, through the whole pipeline: on the indicators of
    54 flat days and a day whose close gaps one above its high, the
    20-day ATR of the latest row is 0, and [generate_signals] under the
    default configuration emits the entries of both systems at the price
    101 with their stop at 101: at the price, not below it. *)
Theorem entry_stop_at_price_in_flat_market :
  ∃ df atr all_signals sig1 sig2 stop,
    calculate_technical_indicators sqrt_e6 (to_frame flat_then_gap) = Ok df ∧
    cell df "atr_20" 54 = Some (Num atr) ∧ (atr == 0)%Q ∧
    (generate_signals [("X", df)] (__init__ default_config)).1 = Ok all_signals ∧
    all_signals !! "X" = Some [sig1; sig2] ∧
    signal_type sig1 = BUY ∧ system sig1 = 1%Z ∧ price sig1 = Num 101 ∧
    signal_type sig2 = BUY ∧ system sig2 = 2%Z ∧ price sig2 = Num 101 ∧
    stop_price sig1 = Some (Num stop) ∧ stop_price sig2 = Some (Num stop) ∧
    (stop == 101)%Q ∧ ¬ (stop < 101)%Q.
Proof.
  exists (indicator_frame sqrt_e6 flat_then_gap).
  eexists _, _, _, _, _. split; [reflexivity|].
  split.
  { unfold cell.
    change (columns (indicator_frame sqrt_e6 flat_then_gap) !! "atr_20")
      with (Some (atr 20 flat_then_gap)).
    vm_compute. reflexivity. }
  split; [reflexivity|].
  split; [vm_compute; reflexivity|].
  split; [vm_compute; reflexivity|].
  do 8 (split; [reflexivity|]).
  split; [reflexivity|]. vm_compute. discriminate.
Qed.

(** ** Instances of the conditional theorems *)

Lemma indicators_causal_witness :
  take 2 [plain_bar; plain_bar; inverted_bar] = take 2 [plain_bar; plain_bar] ∧
  ∃ df1 df2,
    calculate_technical_indicators sqrt_e6
      (to_frame [plain_bar; plain_bar; inverted_bar]) = Ok df1 ∧
    calculate_technical_indicators sqrt_e6 (to_frame [plain_bar; plain_bar]) = Ok df2 ∧
    index df1 !! 1%nat = index df2 !! 1%nat ∧
    ∀ k, cell df1 k 1 = cell df2 k 1.
Proof.
  split; [reflexivity|].
  apply (indicators_causal sqrt_e6 [plain_bar; plain_bar; inverted_bar]
           [plain_bar; plain_bar] 1).
  reflexivity.
Defined.

Lemma system1_entry_on_strict_breakout_witness :
  gtb (Num 13) (Num 12) = true ∧
  ∃ signals sig,
    _generate_symbol_signals (__init__ short_config) "X" plain_breakout_frame
      = Ok signals ∧
    filter (is_entry 1) signals = [sig] ∧ price sig = Num 13.
Proof.
  split; [reflexivity|].
  destruct (system1_entry_on_strict_breakout (__init__ short_config) "X"
              plain_breakout_frame (latest_row plain_breakout_frame)
              (Num 13) (Num 12)) as (signals & Hsignals & Hentry & _).
  - apply breakout_frame_paired.
  - vm_compute. discriminate.
  - vm_compute. reflexivity.
  - vm_compute. reflexivity.
  - vm_compute. reflexivity.
  - destruct (Hentry eq_refl) as (sig & Hfilter & Hprice & _).
    exists signals, sig. split; [exact Hsignals|]. split; [exact Hfilter|exact Hprice].
Defined.

Lemma generate_signals_frame_witness :
  NoDup ["X"; "Y"] ∧
  ∃ all_signals self',
    generate_signals [("X", plain_breakout_frame); ("Y", to_frame [plain_bar])]
      (__init__ short_config) = (Ok all_signals, self') ∧
    config self' = short_config ∧
    last_signals self' !! "Z" = None.
Proof.
  assert (NoDup ["X"; "Y"]) as Hnd.
  { apply NoDup_cons. split; [|apply NoDup_singleton].
    intros H%list_elem_of_singleton. discriminate H. }
  split; [exact Hnd|].
  destruct (generate_signals_frame (__init__ short_config)
              [("X", plain_breakout_frame); ("Y", to_frame [plain_bar])] Hnd)
    as (all_signals & self' & Hcall & Hcfg & _ & _ & _ & Hother).
  exists all_signals, self'. split; [exact Hcall|]. split; [exact Hcfg|].
  rewrite (Hother "Z"); [reflexivity|].
  intros [H|H%list_elem_of_singleton]%elem_of_cons; discriminate H.
Defined.

(** ** Two runs of the engine *)

(** Twelve flat days: no signal, and the engine records nothing. *)
Example flat_market_no_signal :
  generate_signals [("X", breakout_frame (flat_series 12) 100)] (__init__ short_config)
  = (Ok ∅, __init__ short_config).
Proof. vm_compute. reflexivity. Qed.

(** A breakout of both 10-day systems: one symbol recorded, two entries. *)
Example breakout_summary :
  ∃ self summary,
    (generate_signals [("X", plain_breakout_frame)] (__init__ short_config)).2 = self ∧
    (get_signal_summary self).1 = Ok summary ∧
    total_symbols summary = 1%nat ∧
    signals_by_type summary !! "BUY" = Some 2%nat ∧
    signals_by_type summary !! "EXIT" = None ∧
    signals_by_system summary !! "system_1" = Some 1%nat ∧
    signals_by_system summary !! "system_2" = Some 1%nat.
Proof.
  eexists _, _. split; [reflexivity|]. split; [reflexivity|].
  repeat split; vm_compute; reflexivity.
Qed.

(** * Further properties *)

(** ** The indicator computation on any frame *)

Section CalculateOnFrames.

Local Open Scope nat_scope.

Variable sqrt : Q → Q.

Implicit Types (df : DataFrame) (h l c : column) (k : string).

Lemma period_names :
  pretty 10 = "10" ∧ pretty 20 = "20" ∧ pretty 30 = "30" ∧
  pretty 50 = "50" ∧ pretty 55 = "55" ∧ pretty 200 = "200".
Proof. vm_compute. repeat split. Qed.

Lemma getitem_set_column_ne k k' col df :
  k ≠ k' → getitem (set_column k col df) k' = getitem df k'.
Proof.
  intros Hne. unfold getitem, set_column. cbn [columns].
  by rewrite lookup_insert_ne.
Qed.

Lemma getitem_set_column_eq k col df :
  getitem (set_column k col df) k = Ok col.
Proof. unfold getitem, set_column. cbn [columns]. by rewrite lookup_insert_eq. Qed.

Lemma getitem_Some df k col : columns df !! k = Some col → getitem df k = Ok col.
Proof. unfold getitem. by intros ->. Qed.

Lemma getitem_None df k : columns df !! k = None → getitem df k = Raise (KeyError k).
Proof. unfold getitem. by intros ->. Qed.

(** Reads a column back through the assignments made so far. *)
Ltac read_column :=
  first
  [ rewrite getitem_set_column_eq
  | rewrite getitem_set_column_ne by (intros ?; discriminate) ].

Lemma foldl_insert_union {A} (l : list (string * A)) (m : gmap string A) :
  foldl (λ m kv, <[kv.1 := kv.2]> m) m l = list_to_map (rev l) ∪ m.
Proof.
  revert m. induction l as [|[k v] l IH]; intros m.
  { cbn. by rewrite (left_id_L ∅ (∪)). }
  cbn [foldl rev fst snd]. rewrite IH, list_to_map_app. cbn [list_to_map foldr fst snd].
  rewrite <-(assoc_L (∪)). f_equal.
  by rewrite insert_union_singleton_l.
Qed.

Lemma foldr_delete_union {A} (ks : list string) (m1 m2 : gmap string A) :
  foldr delete (m1 ∪ m2) ks = foldr delete m1 ks ∪ foldr delete m2 ks.
Proof.
  induction ks as [|k ks IH]; [done|]. cbn [foldr]. by rewrite IH, delete_union.
Qed.

Lemma lookup_foldr_delete {A} (ks : list string) (m : gmap string A) k :
  foldr delete m ks !! k = if decide (k ∈ ks) then None else m !! k.
Proof.
  induction ks as [|k' ks IH].
  { rewrite decide_False; [done|]. apply not_elem_of_nil. }
  cbn [foldr]. rewrite lookup_delete, IH.
  destruct (decide (k' = k)) as [->|Hne].
  { rewrite decide_True; [done|]. constructor. }
  destruct (decide (k ∈ ks)) as [Hin|Hnot].
  - rewrite decide_True; [done|]. by constructor.
  - rewrite decide_False; [done|]. intros [?|?]%elem_of_cons; congruence.
Qed.

Lemma foldr_delete_idemp {A} (ks : list string) (m : gmap string A) :
  foldr delete (foldr delete m ks) ks = foldr delete m ks.
Proof.
  apply map_eq. intros k. rewrite !lookup_foldr_delete.
  by destruct (decide (k ∈ ks)).
Qed.

(** The closed form of a successful run. *)
Lemma calculate_enriched df h l c :
  columns df !! "high" = Some h → columns df !! "low" = Some l →
  columns df !! "close" = Some c →
  calculate_technical_indicators sqrt df = Ok (enriched sqrt h l c df).
Proof.
  intros Hh%getitem_Some Hl%getitem_Some Hc%getitem_Some.
  destruct period_names as (P10 & P20 & P30 & P50 & P55 & P200).
  unfold calculate_technical_indicators, donchian_periods, atr_periods,
    sma_periods, volatility_periods.
  cbn [for_each]. rewrite P10, P20, P30, P50, P55, P200.
  repeat (repeat read_column; rewrite ?Hh, ?Hl, ?Hc; cbn [mbind result_bind]).
  f_equal. unfold enriched, drop_columns. f_equal.
  transitivity (foldr delete
    (foldl (λ m kv, <[kv.1 := kv.2]> m) (columns df) (assigned_columns sqrt h l c))
    temp_cols); [reflexivity|].
  rewrite foldl_insert_union, foldr_delete_union. f_equal.
Qed.

(** The three ways a run can fail, and the one way it succeeds. *)
Lemma calculate_cases df :
  match columns df !! "high", columns df !! "low", columns df !! "close" with
  | None, _, _ =>
      calculate_technical_indicators sqrt df = Raise (KeyError "high")
  | Some _, None, _ =>
      calculate_technical_indicators sqrt df = Raise (KeyError "low")
  | Some _, Some _, None =>
      calculate_technical_indicators sqrt df = Raise (KeyError "close")
  | Some h, Some l, Some c =>
      calculate_technical_indicators sqrt df = Ok (enriched sqrt h l c df)
  end.
Proof.
  destruct (columns df !! "high") as [h|] eqn:Hh.
  2: { unfold calculate_technical_indicators, donchian_periods. cbn [for_each].
       by rewrite (getitem_None _ _ Hh). }
  destruct (columns df !! "low") as [l|] eqn:Hl.
  2: { unfold calculate_technical_indicators, donchian_periods. cbn [for_each].
       rewrite (getitem_Some _ _ _ Hh). cbn [mbind result_bind].
       rewrite getitem_set_column_ne, (getitem_None _ _ Hl); [done|].
       destruct period_names as (-> & _). intros ?; discriminate. }
  destruct (columns df !! "close") as [c|] eqn:Hc.
  { by apply calculate_enriched. }
  apply getitem_Some in Hh, Hl. apply getitem_None in Hc.
  destruct period_names as (P10 & P20 & P30 & P50 & P55 & P200).
  unfold calculate_technical_indicators, donchian_periods.
  cbn [for_each]. rewrite P10, P20, P55.
  repeat (repeat read_column; rewrite ?Hh, ?Hl, ?Hc; cbn [mbind result_bind]).
  reflexivity.
Qed.

Lemma calculate_Ok_inv df df' :
  calculate_technical_indicators sqrt df = Ok df' →
  ∃ h l c,
    columns df !! "high" = Some h ∧ columns df !! "low" = Some l ∧
    columns df !! "close" = Some c ∧ df' = enriched sqrt h l c df.
Proof.
  intros Hrun. pose proof (calculate_cases df) as Hcases.
  destruct (columns df !! "high") as [h|]; [|congruence].
  destruct (columns df !! "low") as [l|]; [|congruence].
  destruct (columns df !! "close") as [c|]; [|congruence].
  exists h, l, c. repeat split. congruence.
Qed.

(** X1.  [calculate_technical_indicators] returns exactly on the frames
    that have a [high], a [low] and a [close] column; on any other frame
    it raises [KeyError] for the first of the three, in that order, that
    is missing.  It rejects nothing else. *)
Theorem calculate_needs_high_low_close df :
  match columns df !! "high", columns df !! "low", columns df !! "close" with
  | None, _, _ =>
      calculate_technical_indicators sqrt df = Raise (KeyError "high")
  | Some _, None, _ =>
      calculate_technical_indicators sqrt df = Raise (KeyError "low")
  | Some _, Some _, None =>
      calculate_technical_indicators sqrt df = Raise (KeyError "close")
  | Some h, Some l, Some c =>
      returns (calculate_technical_indicators sqrt df)
  end.
Proof.
  pose proof (calculate_cases df) as Hcases.
  destruct (columns df !! "high"), (columns df !! "low"), (columns df !! "close");
    try exact Hcases.
  by eexists.
Qed.

Lemma computed_columns_names h l c :
  (computed_columns sqrt h l c).*1 = computed_names.
Proof. reflexivity. Qed.

Lemma temp_cols_not_computed k : k ∈ temp_cols → k ∉ computed_names.
Proof.
  unfold temp_cols. rewrite !elem_of_cons, elem_of_nil.
  intros [->|[->|[->|[->|[]]]]];
    (apply (bool_decide_unpack _); vm_compute; exact I).
Qed.

Lemma enriched_lookup h l c df k :
  columns (enriched sqrt h l c df) !! k =
    match computed_map sqrt h l c !! k with
    | Some col => Some col
    | None => if decide (k ∈ temp_cols) then None else columns df !! k
    end.
Proof.
  unfold enriched. cbn [columns]. rewrite lookup_union, lookup_foldr_delete.
  destruct (computed_map sqrt h l c !! k) as [col|];
    [|by rewrite (left_id None _)].
  by destruct (if decide (k ∈ temp_cols) then None else columns df !! k).
Qed.

Lemma enriched_lookup_other h l c df k :
  k ∉ computed_names → k ∉ temp_cols →
  columns (enriched sqrt h l c df) !! k = columns df !! k.
Proof.
  intros Hc Ht. rewrite enriched_lookup.
  unfold computed_map.
  rewrite (not_elem_of_list_to_map_1 _ k) by (by rewrite computed_columns_names).
  by rewrite decide_False.
Qed.

Lemma enriched_lookup_temp h l c df k :
  k ∈ temp_cols → columns (enriched sqrt h l c df) !! k = None.
Proof.
  intros Ht. rewrite enriched_lookup. unfold computed_map.
  rewrite (not_elem_of_list_to_map_1 _ k)
    by (rewrite computed_columns_names; by apply temp_cols_not_computed).
  by rewrite decide_True.
Qed.

Lemma enriched_lookup_computed h l c df k :
  k ∈ computed_names →
  columns (enriched sqrt h l c df) !! k
  = computed_map sqrt h l c !! k ∧
  is_Some (columns (enriched sqrt h l c df) !! k).
Proof.
  intros Hk. rewrite enriched_lookup.
  destruct (computed_map sqrt h l c !! k) as [col|] eqn:E.
  { split; [done|by eexists]. }
  apply not_elem_of_list_to_map in E. by rewrite computed_columns_names in E.
Qed.

Lemma price_names_kept :
  Forall (λ k, (k ∉ computed_names) ∧ (k ∉ temp_cols)) ["high"; "low"; "close"].
Proof. apply (bool_decide_unpack _). vm_compute. exact I. Qed.

(** X2.  A successful run keeps the dates and every input column under a
    name it does not assign; it has assigned all eighteen indicator
    columns; and it leaves no [prev_close], [tr1], [tr2] or [tr3] column,
    not even one the input had. *)
Theorem calculate_keeps_the_input df df' :
  calculate_technical_indicators sqrt df = Ok df' →
  index df' = index df ∧
  (∀ k, k ∉ computed_names → k ∉ temp_cols → columns df' !! k = columns df !! k) ∧
  (∀ k, k ∈ computed_names → is_Some (columns df' !! k)) ∧
  (∀ k, k ∈ temp_cols → columns df' !! k = None).
Proof.
  intros (h & l & c & _ & _ & _ & ->)%calculate_Ok_inv.
  split; [done|]. split; [apply enriched_lookup_other|].
  split; [intros k Hk; by apply enriched_lookup_computed|].
  apply enriched_lookup_temp.
Qed.

(** X3.  Running the computation on its own result changes nothing: the
    second run returns the frame it was given. *)
Theorem calculate_idempotent df df' :
  calculate_technical_indicators sqrt df = Ok df' →
  calculate_technical_indicators sqrt df' = Ok df'.
Proof.
  intros (h & l & c & Hh & Hl & Hc & ->)%calculate_Ok_inv.
  pose proof price_names_kept as Hkept.
  rewrite !Forall_cons in Hkept. destruct Hkept as ([? ?] & [? ?] & [? ?] & _).
  rewrite (calculate_enriched (enriched sqrt h l c df) h l c)
    by (by rewrite enriched_lookup_other).
  f_equal. unfold enriched. cbn [index columns]. f_equal.
  rewrite foldr_delete_union, foldr_delete_idemp.
  assert (foldr delete (computed_map sqrt h l c) temp_cols
          = computed_map sqrt h l c) as ->.
  { apply map_eq. intros k. rewrite lookup_foldr_delete.
    destruct (decide (k ∈ temp_cols)) as [Ht|]; [|done].
    symmetry. apply not_elem_of_list_to_map_1.
    rewrite computed_columns_names. by apply temp_cols_not_computed. }
  by rewrite (assoc_L (∪)), (idemp_L (∪)).
Qed.

Lemma length_row_max3 xs ys zs n :
  length xs = n → length ys = n → length zs = n → length (row_max3 xs ys zs) = n.
Proof.
  intros Hx Hy Hz. unfold row_max3.
  rewrite length_zip_with, length_zip_with. lia.
Qed.

Lemma computed_columns_lengths h l c n :
  length h = n → length l = n → length c = n →
  Forall (λ kc, length kc.2 = n) (computed_columns sqrt h l c).
Proof.
  intros Hh Hl Hc.
  assert (length (true_range_of h l c) = n) as Htr.
  { unfold true_range_of, col_abs, col_sub.
    apply length_row_max3;
      rewrite ?length_fmap, !length_zip_with, ?length_shift1; lia. }
  unfold computed_columns, col_scale.
  repeat constructor; cbn [snd];
    rewrite ?length_fmap, ?length_rolling, ?length_pct_change; done.
Qed.

(** X4.  A successful run on a rectangular frame, one whose columns all
    have the length of its index, returns a rectangular frame. *)
Theorem calculate_keeps_frames_rectangular df df' :
  rectangular df →
  calculate_technical_indicators sqrt df = Ok df' →
  rectangular df'.
Proof.
  intros Hrect (h & l & c & Hh & Hl & Hc & ->)%calculate_Ok_inv k col.
  rewrite enriched_lookup. cbn [index enriched].
  destruct (computed_map sqrt h l c !! k) as [col'|] eqn:E.
  - intros [= ->]. apply elem_of_list_to_map_2 in E.
    pose proof (computed_columns_lengths h l c (length (index df))
                  (Hrect _ _ Hh) (Hrect _ _ Hl) (Hrect _ _ Hc)) as Hall.
    rewrite Forall_forall in Hall. exact (Hall _ E).
  - case_decide; [done|]. apply Hrect.
Qed.

End CalculateOnFrames.

(** ** The channels around the latest bar *)

Section ChannelsAroundTheBar.

Local Open Scope nat_scope.

Variable sqrt : Q → Q.

Implicit Types (s : PriceSeries) (b : PriceBar) (w i : nat) (n : Z).

(** Finds the column of the indicator frame that a name built from a
    prefix and a number denotes, if any. *)
Ltac named_column Hcol :=
  unfold indicator_frame, indicator_columns in Hcol; cbn [columns] in Hcol;
  apply elem_of_list_to_map_2 in Hcol;
  repeat (apply elem_of_cons in Hcol as [Hcol|Hcol];
          [ first
            [ exfalso; apply (f_equal fst) in Hcol; cbn [fst] in Hcol;
              cbn [String.append] in Hcol; discriminate Hcol
            | apply (f_equal snd) in Hcol; cbn [snd] in Hcol; subst;
              eexists; reflexivity ]
          | ]);
  try (apply elem_of_nil in Hcol as []).

Lemma channel_high_column s n col :
  columns (indicator_frame sqrt s) !! ("donchian_high_" +:+ pretty n) = Some col →
  ∃ w, col = donchian_high w s.
Proof. intros Hcol. named_column Hcol. Qed.

Lemma channel_low_column s n col :
  columns (indicator_frame sqrt s) !! ("donchian_low_" +:+ pretty n) = Some col →
  ∃ w, col = donchian_low w s.
Proof. intros Hcol. named_column Hcol. Qed.

Lemma atr_column s n col :
  columns (indicator_frame sqrt s) !! ("atr_" +:+ pretty n) = Some col →
  ∃ w, col = atr w s.
Proof. intros Hcol. named_column Hcol. Qed.

Lemma Qmin2_cases (a b : Q) :
  (Qmin2 a b = a ∨ Qmin2 a b = b) ∧ (Qmin2 a b <= a)%Q ∧ (Qmin2 a b <= b)%Q.
Proof.
  unfold Qmin2. destruct (Qle_bool a b) eqn:E.
  - split; [by left|]. split; [apply Qle_refl|by apply Qle_bool_iff].
  - split; [by right|]. split; [by apply Qle_bool_false|apply Qle_refl].
Qed.

Lemma foldl_Qmin2_lower (qs : list Q) (q x : Q) :
  x ∈ q :: qs → (foldl Qmin2 q qs <= x)%Q.
Proof.
  revert q x. induction qs as [|y qs IH]; intros q x Hx.
  - apply list_elem_of_singleton in Hx as ->. apply Qle_refl.
  - cbn [foldl]. destruct (Qmin2_cases q y) as (_ & Hq & Hy).
    assert (foldl Qmin2 (Qmin2 q y) qs <= Qmin2 q y)%Q as Hm
      by (apply IH; constructor).
    apply elem_of_cons in Hx as [->|[->|Hx]%elem_of_cons].
    + by eapply Qle_trans.
    + by eapply Qle_trans.
    + apply IH. by constructor.
Qed.

Lemma agg_max_upper (qs : list Q) (x : Q) :
  x ∈ qs → ∃ v, agg_max qs = Num v ∧ (x <= v)%Q.
Proof.
  intros Hx. destruct (agg_max_is_max qs) as (v & Hv & _ & Hub).
  { intros ->. by apply elem_of_nil in Hx. }
  exists v. split; [done|by apply Hub].
Qed.

Lemma agg_min_lower (qs : list Q) (x : Q) :
  x ∈ qs → ∃ v, agg_min qs = Num v ∧ (v <= x)%Q.
Proof.
  destruct qs as [|q qs]; [by intros ?%elem_of_nil|]. intros Hx.
  exists (foldl Qmin2 q qs). split; [done|by apply foldl_Qmin2_lower].
Qed.

(** The latest cell of a rolling aggregate over finite cells: NaN, or the
    aggregate of a window that holds the latest cell (of no cell at all
    for a window of length 0). *)
Lemma last_rolling_finite w agg (qs : list Q) (q : Q) :
  last qs = Some q →
  last (rolling w agg (Num <$> qs)) = Some NaN ∨
  last (rolling w agg (Num <$> qs)) = Some (agg []) ∨
  ∃ obs, q ∈ obs ∧ last (rolling w agg (Num <$> qs)) = Some (agg obs).
Proof.
  intros Hlast. rewrite last_lookup in Hlast.
  assert (pred (length qs) < length qs) as Hi by (by eapply lookup_lt_Some).
  rewrite last_lookup, length_rolling, length_fmap.
  destruct (decide (w ≤ S (pred (length qs)))) as [Hw|Hw].
  - right. rewrite rolling_full by done.
    replace (S (pred (length qs))) with (length qs) by lia.
    rewrite firstn_all.
    destruct w as [|w].
    { left. by rewrite Nat.sub_0_r, drop_all. }
    right. eexists. split; [|reflexivity].
    apply list_elem_of_lookup.
    exists (pred (length qs) - (length qs - S w)). rewrite lookup_drop.
    rewrite <-Hlast. f_equal. lia.
  - left. apply rolling_warm_up; [by rewrite length_fmap|lia].
Qed.

Lemma lows_finite s : lows s = Num <$> (bar_low <$> s).
Proof. unfold lows. by rewrite <-list_fmap_compose. Qed.

Lemma closes_finite s : closes s = Num <$> (bar_close <$> s).
Proof. unfold closes. by rewrite <-list_fmap_compose. Qed.

(** The latest cell of a Donchian high is NaN or at least the latest high;
    that of a Donchian low is NaN or at most the latest low. *)
Lemma last_donchian_high s b w :
  last s = Some b →
  ∃ x, last (donchian_high w s) = Some x ∧
       (x = NaN ∨ ∃ v, x = Num v ∧ (bar_high b <= v)%Q).
Proof.
  intros Hb. unfold donchian_high. rewrite highs_finite.
  destruct (last_rolling_finite w agg_max (bar_high <$> s) (bar_high b))
    as [->|[->|(obs & Hin & ->)]].
  - by rewrite fmap_last, Hb.
  - exists NaN. split; [done|by left].
  - exists NaN. split; [done|by left].
  - destruct (agg_max_upper obs _ Hin) as (v & -> & Hv).
    eexists. split; [done|]. right. by exists v.
Qed.

Lemma last_donchian_low s b w :
  last s = Some b →
  ∃ x, last (donchian_low w s) = Some x ∧
       (x = NaN ∨ ∃ v, x = Num v ∧ (v <= bar_low b)%Q).
Proof.
  intros Hb. unfold donchian_low. rewrite lows_finite.
  destruct (last_rolling_finite w agg_min (bar_low <$> s) (bar_low b))
    as [->|[->|(obs & Hin & ->)]].
  - by rewrite fmap_last, Hb.
  - exists NaN. split; [done|by left].
  - exists NaN. split; [done|by left].
  - destruct (agg_min_lower obs _ Hin) as (v & -> & Hv).
    eexists. split; [done|]. right. by exists v.
Qed.

Lemma indicator_frame_latest s b :
  last s = Some b →
  ∃ row, iloc_last (indicator_frame sqrt s) = Ok row ∧
         name row = bar_timestamp b ∧
         cells row !! "close" = Some (Num (bar_close b)).
Proof.
  intros Hb. unfold iloc_last. cbn [index indicator_frame].
  rewrite fmap_last, Hb. cbn [fmap option_fmap option_map].
  eexists. split; [reflexivity|]. split; [done|].
  cbn [cells]. rewrite lookup_fmap.
  change (columns (indicator_frame sqrt s) !! "close") with (Some (closes s)).
  cbn [fmap option_fmap option_map]. unfold closes.
  by rewrite fmap_last, Hb.
Qed.

Lemma _check_system1_signals_quiet self symbol df row date close :
  iloc_last df = Ok row → paired_channels df →
  cells row !! "close" = Some close →
  (∀ n x, cells row !! ("donchian_high_" +:+ pretty n) = Some x → gtb close x = false) →
  (∀ n x, cells row !! ("donchian_low_" +:+ pretty n) = Some x → ltb close x = false) →
  _check_system1_signals self symbol df row date = Ok [].
Proof.
  intros Hrow Hpair Hclose Hentry Hexit. unfold _check_system1_signals.
  destruct (has_column df ("donchian_high_" +:+ pretty (system1_length (config self))))
    eqn:Hcol; cbn [negb]; [|reflexivity].
  destruct (row_present _ _ _ Hrow Hcol) as [high Hhigh].
  destruct (row_present _ _ _ Hrow (Is_true_true_1 _ (Hpair _ (Is_true_true_2 _ Hcol))))
    as [low Hlow].
  unfold row_getitem. rewrite Hclose, Hhigh, Hlow. cbn [mbind result_bind].
  rewrite (Hentry _ _ Hhigh). cbn [andb].
  destruct (has_column df ("donchian_low_" +:+ pretty (exit_length_s1 (config self))))
    eqn:Hcol'; [|reflexivity].
  destruct (row_present _ _ _ Hrow Hcol') as [exit_low Hlow'].
  rewrite Hlow'. cbn [mbind result_bind].
  by rewrite (Hexit _ _ Hlow').
Qed.

Lemma _check_system2_signals_quiet self symbol df row date close :
  iloc_last df = Ok row → paired_channels df →
  cells row !! "close" = Some close →
  (∀ n x, cells row !! ("donchian_high_" +:+ pretty n) = Some x → gtb close x = false) →
  (∀ n x, cells row !! ("donchian_low_" +:+ pretty n) = Some x → ltb close x = false) →
  _check_system2_signals self symbol df row date = Ok [].
Proof.
  intros Hrow Hpair Hclose Hentry Hexit. unfold _check_system2_signals.
  destruct (has_column df ("donchian_high_" +:+ pretty (system2_length (config self))))
    eqn:Hcol; cbn [negb]; [|reflexivity].
  destruct (row_present _ _ _ Hrow Hcol) as [high Hhigh].
  destruct (row_present _ _ _ Hrow (Is_true_true_1 _ (Hpair _ (Is_true_true_2 _ Hcol))))
    as [low Hlow].
  unfold row_getitem. rewrite Hclose, Hhigh, Hlow. cbn [mbind result_bind].
  rewrite (Hentry _ _ Hhigh). cbn [andb].
  destruct (has_column df ("donchian_low_" +:+ pretty (exit_length_s2 (config self))))
    eqn:Hcol'; [|reflexivity].
  destruct (row_present _ _ _ Hrow Hcol') as [exit_low Hlow'].
  rewrite Hlow'. cbn [mbind result_bind].
  by rewrite (Hexit _ _ Hlow').
Qed.

Lemma Qle_bool_true (a b : Q) : (a <= b)%Q → Qle_bool a b = true.
Proof. apply Qle_bool_iff. Qed.

(** On the frame of the indicator engine, a close that is not above the
    high of its bar is not above any Donchian high of the latest row, and
    one not below the low of its bar is not below any Donchian low. *)
Lemma no_breakout_up s b row n x :
  last s = Some b → (bar_close b <= bar_high b)%Q →
  iloc_last (indicator_frame sqrt s) = Ok row →
  cells row !! ("donchian_high_" +:+ pretty n) = Some x →
  gtb (Num (bar_close b)) x = false.
Proof.
  intros Hb Hle Hrow Hx.
  rewrite (iloc_last_cells _ _ _ Hrow) in Hx.
  destruct (columns (indicator_frame sqrt s) !! ("donchian_high_" +:+ pretty n))
    as [col|] eqn:Hcol; [|done].
  destruct (channel_high_column s n col Hcol) as [w ->].
  destruct (last_donchian_high s b w Hb) as (y & Hy & Hcases).
  cbn in Hx. rewrite Hy in Hx. injection Hx as <-.
  destruct Hcases as [->|(v & -> & Hv)]; [done|].
  cbn. apply negb_false_iff, Qle_bool_true. by eapply Qle_trans.
Qed.

Lemma no_breakout_down s b row n x :
  last s = Some b → (bar_low b <= bar_close b)%Q →
  iloc_last (indicator_frame sqrt s) = Ok row →
  cells row !! ("donchian_low_" +:+ pretty n) = Some x →
  ltb (Num (bar_close b)) x = false.
Proof.
  intros Hb Hle Hrow Hx.
  rewrite (iloc_last_cells _ _ _ Hrow) in Hx.
  destruct (columns (indicator_frame sqrt s) !! ("donchian_low_" +:+ pretty n))
    as [col|] eqn:Hcol; [|done].
  destruct (channel_low_column s n col Hcol) as [w ->].
  destruct (last_donchian_low s b w Hb) as (y & Hy & Hcases).
  cbn in Hx. rewrite Hy in Hx. injection Hx as <-.
  destruct Hcases as [->|(v & -> & Hv)]; [done|].
  cbn. apply negb_false_iff, Qle_bool_true. by eapply Qle_trans.
Qed.

Lemma quiet_on_ordered_bar self symbol s b :
  last s = Some b →
  (bar_low b <= bar_close b)%Q → (bar_close b <= bar_high b)%Q →
  _generate_symbol_signals self symbol (indicator_frame sqrt s) = Ok [].
Proof.
  intros Hb Hlow Hhigh.
  destruct (indicator_frame_latest s b Hb) as (row & Hrow & _ & Hclose).
  pose proof (indicator_frame_paired sqrt s) as Hpair.
  unfold _generate_symbol_signals. case_bool_decide; [reflexivity|].
  rewrite Hrow. cbn [mbind result_bind].
  rewrite (_check_system1_signals_quiet self symbol _ row (name row) _ Hrow Hpair Hclose)
    by (intros n x Hx; first [by eapply no_breakout_up|by eapply no_breakout_down]).
  cbn [mbind result_bind].
  destruct (use_system2 (config self)); [|reflexivity].
  rewrite (_check_system2_signals_quiet self symbol _ row (name row) _ Hrow Hpair Hclose)
    by (intros n x Hx; first [by eapply no_breakout_up|by eapply no_breakout_down]).
  reflexivity.
Qed.

(** X5.  On the frame the indicator engine returns for a price series
    whose latest bar has its close between its low and its high, no rule
    of either system fires, whatever the configuration: the symbol gets
    the empty list.  (Each Donchian window includes the latest bar.) *)
Theorem no_signal_on_an_ordered_bar self symbol s b :
  last s = Some b →
  (bar_low b <= bar_close b)%Q → (bar_close b <= bar_high b)%Q →
  ∃ df,
    calculate_technical_indicators sqrt (to_frame s) = Ok df ∧
    _generate_symbol_signals self symbol df = Ok [].
Proof.
  intros Hb Hlow Hhigh. exists (indicator_frame sqrt s).
  split; [apply calculate_on_series|by eapply quiet_on_ordered_bar].
Qed.

(** X6.  A whole universe of price series whose latest bars have their
    close between their low and their high, run through the indicator
    engine by [get_universe_data] and handed to [generate_signals], yields
    the empty dict and leaves the engine as it was. *)
Theorem no_signal_on_an_ordered_universe self universe :
  Forall (λ item, latest_bar_ordered item.2) universe →
  ∃ data,
    get_universe_data sqrt (frames_of universe) = Ok data ∧
    data.*1 = universe.*1 ∧
    generate_signals data self = (Ok ∅, self).
Proof.
  induction 1 as [|[symbol s] universe (b & Hb & Hlow & Hhigh) _
                   (data & Hdata & Hkeys & Hquiet)].
  { by exists []. }
  exists ((symbol, indicator_frame sqrt s) :: data). split; [|split].
  - unfold frames_of. rewrite fmap_cons. cbn [get_universe_data fst snd].
    rewrite calculate_on_series. cbn [mbind result_bind].
    unfold frames_of in Hdata. by rewrite Hdata.
  - cbn [fmap list_fmap fst]. by rewrite Hkeys.
  - rewrite generate_signals_unfold in Hquiet. rewrite generate_signals_unfold.
    cbn [foldl]. rewrite generate_signals_body_eq. unfold produced. cbn [fst snd].
    rewrite <-_generate_symbol_signals_config.
    by rewrite (quiet_on_ordered_bar self symbol s b Hb Hlow Hhigh).
Qed.

(** *** The sign of the average true range *)

Lemma true_range_nonneg s b0 :
  head s = Some b0 → (bar_low b0 <= bar_high b0)%Q →
  Forall (λ x, ∃ q, x = Num q ∧ (0 <= q)%Q) (true_range_column s).
Proof.
  intros Hb0 Hle. rewrite head_lookup in Hb0.
  apply Forall_lookup. intros i x Hx.
  assert (i < length s) as Hi.
  { rewrite <-length_true_range. by eapply lookup_lt_Some. }
  destruct (lookup_lt_is_Some_2 s i Hi) as [b Hb].
  destruct i as [|i].
  - rewrite (true_range_lookup s 0 b NaN Hb (prev_close_first s b Hb)) in Hx.
    injection Hx as <-. rewrite true_range_cell_first.
    eexists. split; [done|]. assert (b = b0) as -> by congruence. lra.
  - destruct (lookup_lt_is_Some_2 s i) as [p Hp]; [lia|].
    rewrite (true_range_lookup s (S i) b _ Hb (prev_close_later s i p b Hp Hb)) in Hx.
    injection Hx as <-.
    destruct (true_range_cell_later (bar_high b) (bar_low b) (bar_close p))
      as (v & -> & _ & Hub).
    exists v. split; [done|].
    eapply Qle_trans; [apply (Qabs_nonneg (bar_high b - bar_close p))|].
    apply Hub. repeat constructor.
Qed.

Lemma Qsum_nonneg (qs : list Q) : Forall (λ q, (0 <= q)%Q) qs → (0 <= Qsum qs)%Q.
Proof.
  induction 1 as [|q qs Hq _ IH]; [apply Qle_refl|].
  cbn [Qsum foldr]. change (foldr Qplus 0%Q qs) with (Qsum qs). lra.
Qed.

Lemma agg_mean_nonneg (qs : list Q) :
  Forall (λ q, (0 <= q)%Q) qs →
  agg_mean qs = NaN ∨ ∃ a, agg_mean qs = Num a ∧ (0 <= a)%Q.
Proof.
  intros Hall. destruct qs as [|q qs]; [by left|]. right.
  eexists. split; [reflexivity|].
  apply Qle_shift_div_l.
  - change 0%Q with (inject_Z 0). rewrite <-Zlt_Qlt. cbn [length]. lia.
  - rewrite Qmult_0_l. by apply Qsum_nonneg.
Qed.

Lemma nonneg_values (xs : column) :
  Forall (λ x, ∃ q, x = Num q ∧ (0 <= q)%Q) xs →
  ∃ qs, xs = Num <$> qs ∧ Forall (λ q, (0 <= q)%Q) qs.
Proof.
  induction 1 as [|x xs (q & -> & Hq) _ (qs & -> & Hqs)]; [by exists []|].
  exists (q :: qs). split; [done|by constructor].
Qed.

(** Every cell of an ATR column is NaN or a number that is not negative,
    when the first bar has its low at or under its high. *)
Lemma atr_nonneg s b0 w :
  head s = Some b0 → (bar_low b0 <= bar_high b0)%Q →
  Forall (λ x, x = NaN ∨ ∃ a, x = Num a ∧ (0 <= a)%Q) (atr w s).
Proof.
  intros Hb0 Hle.
  destruct (nonneg_values _ (true_range_nonneg s b0 Hb0 Hle)) as (qs & Hqs & Hpos).
  unfold atr. rewrite Hqs. apply Forall_lookup. intros i x Hx.
  assert (i < length (Num <$> qs)) as Hi.
  { rewrite <-(length_rolling w agg_mean). by eapply lookup_lt_Some. }
  rewrite rolling_lookup in Hx by done. injection Hx as <-.
  case_decide; [|by left]. rewrite observations_Num.
  apply agg_mean_nonneg. by apply Forall_drop, Forall_take.
Qed.

Lemma last_of_nonempty {A} (l : list A) x : head l = Some x → is_Some (last l).
Proof.
  destruct l as [|y l]; [done|]. intros _.
  rewrite last_lookup. apply lookup_lt_is_Some_2. cbn. lia.
Qed.

(** The ATR the engine reads on the latest row of an indicator frame,
    0 standing for a missing column: NaN or a number that is not
    negative. *)
Lemma latest_atr_nonneg s b0 row n :
  head s = Some b0 → (bar_low b0 <= bar_high b0)%Q →
  iloc_last (indicator_frame sqrt s) = Ok row →
  let atr := row_get row ("atr_" +:+ pretty n) (of_Z 0) in
  atr = NaN ∨ ∃ a, atr = Num a ∧ (0 <= a)%Q.
Proof.
  intros Hb0 Hle Hrow. cbn zeta.
  unfold row_get. rewrite (iloc_last_cells _ _ _ Hrow).
  destruct (columns (indicator_frame sqrt s) !! ("atr_" +:+ pretty n))
    as [col|] eqn:Hcol.
  - destruct (atr_column s _ col Hcol) as [w ->].
    cbn [fmap option_fmap option_map default].
    destruct (last (atr w s)) as [y|] eqn:Hy; [|by left].
    pose proof (atr_nonneg s b0 w Hb0 Hle) as Hall.
    rewrite Forall_forall in Hall.
    rewrite last_lookup in Hy. apply list_elem_of_lookup_2 in Hy.
    destruct (Hall _ Hy) as [->|(a & -> & Ha)]; [by left|]. right. by exists a.
  - right. exists 0%Q. split; [done|apply Qle_refl].
Qed.

(** X7.  On the frame the indicator engine returns for a non-empty price
    series whose first bar has its low at or under its high, and for a
    multiple that is not negative, [get_stop_loss_price] returns: either
    NaN, or a number that is not above the entry price. *)
Theorem stop_loss_not_above_entry self symbol s b0 (e : Q) :
  head s = Some b0 → (bar_low b0 <= bar_high b0)%Q →
  (0 <= stop_atr_multiple (config self))%Q →
  ∃ df x,
    calculate_technical_indicators sqrt (to_frame s) = Ok df ∧
    (get_stop_loss_price symbol df (Num e) self).1 = Ok x ∧
    (x = NaN ∨ ∃ q, x = Num q ∧ (q <= e)%Q).
Proof.
  intros Hb0 Hle Hm. destruct (last_of_nonempty s b0 Hb0) as [b Hb].
  destruct (indicator_frame_latest s b Hb) as (row & Hrow & _ & _).
  exists (indicator_frame sqrt s). eexists.
  split; [apply calculate_on_series|].
  unfold get_stop_loss_price, reading. cbn [fst]. rewrite Hrow.
  cbn [mbind result_bind]. split; [reflexivity|].
  unfold row_get. rewrite (iloc_last_cells _ _ _ Hrow).
  destruct (columns (indicator_frame sqrt s)
              !! ("atr_" +:+ pretty (atr_period (config self)))) as [col|] eqn:Hcol.
  - destruct (atr_column s _ col Hcol) as [w ->].
    cbn [fmap option_fmap option_map default].
    destruct (last (atr w s)) as [y|] eqn:Hy; [|by left].
    pose proof (atr_nonneg s b0 w Hb0 Hle) as Hall.
    rewrite Forall_forall in Hall.
    rewrite last_lookup in Hy. apply list_elem_of_lookup_2 in Hy.
    destruct (Hall _ Hy) as [->|(a & -> & Ha)]; [by left|].
    right. eexists. split; [reflexivity|].
    pose proof (Qmult_le_0_compat _ _ Hm Ha) as Hma.
    set (t := (stop_atr_multiple (config self) * a)%Q) in *. clearbody t. lra.
  - right. eexists. split; [reflexivity|].
    change (inject_Z 0) with 0%Q. rewrite Qmult_0_r. lra.
Qed.

(** *** Adding to a position *)

Lemma gtb_Num (c t : Q) : gtb (Num c) (Num t) = true → (t < c)%Q.
Proof.
  unfold gtb, ltb. intros H%negb_true_iff. apply Qnot_le_lt.
  intros Hle%Qle_bool_iff. congruence.
Qed.

(** X9.  On the frame the indicator engine returns for a price series
    whose first bar has its low at or under its high, with an increment,
    a multiple and a number of units held that are not negative: a
    pyramid signal is priced strictly above the position price, and its
    stop is a number that is not above the price. *)
Theorem pyramid_adds_above_the_position self symbol s b0 df (p : Q) current_units
    sig :
  head s = Some b0 → (bar_low b0 <= bar_high b0)%Q →
  (0 <= pyramid_increment (config self))%Q →
  (0 <= stop_atr_multiple (config self))%Q →
  (0 <= current_units)%Z →
  calculate_technical_indicators sqrt (to_frame s) = Ok df →
  (check_pyramid_signals symbol df (Num p) current_units self).1 = Ok (Some sig) →
  ∃ c stop, price sig = Num c ∧ (p < c)%Q ∧
            stop_price sig = Some (Num stop) ∧ (stop <= c)%Q.
Proof.
  intros Hb0 Hle Hinc Hm Hu. rewrite calculate_on_series. intros [= <-].
  destruct (last_of_nonempty s b0 Hb0) as [b Hb].
  destruct (indicator_frame_latest s b Hb) as (row & Hrow & _ & Hclose).
  pose proof (latest_atr_nonneg s b0 row (atr_period (config self)) Hb0 Hle Hrow)
    as Hatr. cbn zeta in Hatr.
  unfold check_pyramid_signals, reading. cbn [fst].
  case_bool_decide as Hcap; [done|].
  rewrite Hrow. cbn [mbind result_bind].
  unfold row_getitem. rewrite Hclose. cbn [mbind result_bind].
  destruct Hatr as [->|(a & -> & Ha)]; [done|].
  cbn [mul add sub neg of_Z].
  destruct (gtb _ _) eqn:Hgt; [|done]. apply gtb_Num in Hgt.
  intros [= <-]. cbn [price stop_price].
  eexists _, _. split; [reflexivity|]. split; [|split; [reflexivity|]].
  - assert (0 <= inject_Z current_units)%Q as Hq.
    { change 0%Q with (inject_Z 0). by rewrite <-Zle_Qle. }
    pose proof (Qmult_le_0_compat _ _ (Qmult_le_0_compat _ _ Hinc Ha) Hq) as Hpos.
    set (t := (pyramid_increment (config self) * a * inject_Z current_units)%Q) in *.
    clearbody t. lra.
  - pose proof (Qmult_le_0_compat _ _ Hm Ha) as Hma.
    set (t := (stop_atr_multiple (config self) * a)%Q) in *. clearbody t. lra.
Qed.

(** *** Bounds that hold on every row *)

Lemma rolling_row_is_last w agg (xs : column) i :
  i < length xs → rolling w agg xs !! i = last (rolling w agg (take (S i) xs)).
Proof.
  intros Hi. rewrite <-take_rolling, last_lookup, length_take, length_rolling.
  replace (pred (min (S i) (length xs))) with i by lia.
  by rewrite lookup_take_lt by lia.
Qed.

Lemma last_take_S {A} (l : list A) i x : l !! i = Some x → last (take (S i) l) = Some x.
Proof.
  intros Hx. pose proof (lookup_lt_Some _ _ _ Hx).
  rewrite last_lookup, length_take.
  replace (pred (min (S i) (length l))) with i by lia.
  by rewrite lookup_take_lt by lia.
Qed.

Lemma donchian_high_row s w i b x :
  s !! i = Some b → donchian_high w s !! i = Some x →
  x = NaN ∨ ∃ v, x = Num v ∧ (bar_high b <= v)%Q.
Proof.
  intros Hb. pose proof (lookup_lt_Some _ _ _ Hb) as Hi.
  unfold donchian_high. rewrite rolling_row_is_last
    by (unfold highs; by rewrite length_fmap).
  unfold highs. rewrite <-fmap_take.
  destruct (last_donchian_high (take (S i) s) b w (last_take_S _ _ _ Hb))
    as (y & Hy & Hcases).
  unfold donchian_high, highs in Hy. rewrite Hy. by intros [= <-].
Qed.

Lemma donchian_low_row s w i b x :
  s !! i = Some b → donchian_low w s !! i = Some x →
  x = NaN ∨ ∃ v, x = Num v ∧ (v <= bar_low b)%Q.
Proof.
  intros Hb. pose proof (lookup_lt_Some _ _ _ Hb) as Hi.
  unfold donchian_low. rewrite rolling_row_is_last
    by (unfold lows; by rewrite length_fmap).
  unfold lows. rewrite <-fmap_take.
  destruct (last_donchian_low (take (S i) s) b w (last_take_S _ _ _ Hb))
    as (y & Hy & Hcases).
  unfold donchian_low, lows in Hy. rewrite Hy. by intros [= <-].
Qed.

(** X10.  On the frame the indicator engine returns for a price series,
    the Donchian channels contain every bar: on each row, a Donchian high
    is NaN or at least the high of the bar, and a Donchian low is NaN or
    at most its low. *)
Theorem channels_contain_the_bar s df i b n :
  calculate_technical_indicators sqrt (to_frame s) = Ok df →
  s !! i = Some b →
  (∀ x, cell df ("donchian_high_" +:+ pretty n) i = Some x →
        x = NaN ∨ ∃ v, x = Num v ∧ (bar_high b <= v)%Q) ∧
  (∀ x, cell df ("donchian_low_" +:+ pretty n) i = Some x →
        x = NaN ∨ ∃ v, x = Num v ∧ (v <= bar_low b)%Q).
Proof.
  rewrite calculate_on_series. intros [= <-] Hb. unfold cell. split; intros x.
  - destruct (columns (indicator_frame sqrt s) !! ("donchian_high_" +:+ pretty n))
      as [col|] eqn:Hcol; [|done].
    destruct (channel_high_column s n col Hcol) as [w ->].
    cbn [mbind option_bind]. by apply donchian_high_row.
  - destruct (columns (indicator_frame sqrt s) !! ("donchian_low_" +:+ pretty n))
      as [col|] eqn:Hcol; [|done].
    destruct (channel_low_column s n col Hcol) as [w ->].
    cbn [mbind option_bind]. by apply donchian_low_row.
Qed.

(** X11.  On the frame the indicator engine returns for a price series
    whose first bar has its low at or under its high, no true range is
    negative and no ATR is: on each row the true range is a number that is
    not negative, and an ATR is NaN or such a number. *)
Theorem average_true_range_not_negative s b0 df i n :
  head s = Some b0 → (bar_low b0 <= bar_high b0)%Q →
  calculate_technical_indicators sqrt (to_frame s) = Ok df →
  (∀ x, cell df "true_range" i = Some x → ∃ v, x = Num v ∧ (0 <= v)%Q) ∧
  (∀ x, cell df ("atr_" +:+ pretty n) i = Some x →
        x = NaN ∨ ∃ v, x = Num v ∧ (0 <= v)%Q).
Proof.
  intros Hb0 Hle. rewrite calculate_on_series. intros [= <-]. unfold cell.
  split; intros x.
  - rewrite indicator_frame_true_range. cbn [mbind option_bind]. intros Hx.
    pose proof (true_range_nonneg s b0 Hb0 Hle) as Hall.
    rewrite Forall_forall in Hall. by eapply Hall, list_elem_of_lookup_2.
  - destruct (columns (indicator_frame sqrt s) !! ("atr_" +:+ pretty n))
      as [col|] eqn:Hcol; [|done].
    destruct (atr_column s n col Hcol) as [w ->].
    cbn [mbind option_bind]. intros Hx.
    pose proof (atr_nonneg s b0 w Hb0 Hle) as Hall.
    rewrite Forall_forall in Hall. by eapply Hall, list_elem_of_lookup_2.
Qed.

(** *** Channels of two windows *)

Lemma foldl_Qmin2_in (qs : list Q) (q : Q) : foldl Qmin2 q qs ∈ q :: qs.
Proof.
  revert q. induction qs as [|y qs IH]; intros q; [constructor|].
  cbn [foldl]. destruct (Qmin2_cases q y) as ([-> | ->] & _).
  - pose proof (IH q) as [->|Hin]%elem_of_cons; rewrite !elem_of_cons; auto.
  - rewrite elem_of_cons. right. apply IH.
Qed.

Lemma agg_min_attained (qs : list Q) v : agg_min qs = Num v → v ∈ qs.
Proof. destruct qs as [|q qs]; [done|]. intros [= <-]. apply foldl_Qmin2_in. Qed.

Lemma agg_max_attained (qs : list Q) v : agg_max qs = Num v → v ∈ qs.
Proof.
  destruct qs as [|q qs]; [done|]. intros Hv.
  destruct (agg_max_is_max (q :: qs)) as (v' & Hv' & Hin & _); [done|].
  congruence.
Qed.

Lemma rolling_row_window w agg (qs : list Q) i v :
  rolling w agg (Num <$> qs) !! i = Some (Num v) →
  agg (drop (S i - w) (take (S i) qs)) = Num v.
Proof.
  intros Hv. pose proof (lookup_lt_Some _ _ _ Hv) as Hi.
  rewrite length_rolling in Hi.
  rewrite rolling_lookup, observations_Num in Hv by done.
  case_decide; congruence.
Qed.

Lemma window_widens {A} (l : list A) (k : nat) w1 w2 x :
  w1 ≤ w2 → x ∈ drop (k - w1) l → x ∈ drop (k - w2) l.
Proof.
  intros Hw Hx. replace (k - w1) with ((k - w2) + ((k - w1) - (k - w2))) in Hx by lia.
  rewrite <-drop_drop in Hx. eapply elem_of_sublist; [done|apply sublist_drop].
Qed.

Lemma indicator_frame_donchian_low s w :
  w ∈ donchian_periods →
  columns (indicator_frame sqrt s) !! ("donchian_low_" +:+ pretty w)
  = Some (donchian_low w s).
Proof.
  unfold donchian_periods. rewrite !elem_of_cons, elem_of_nil.
  intros [->|[->|[->|[]]]]; reflexivity.
Qed.

(** X12.  On the frame the indicator engine returns for a price series,
    the channel of a longer window contains that of a shorter one: on a
    row where both are defined, the Donchian high of the longer window is
    at least that of the shorter, and its Donchian low at most. *)
Theorem wider_channel_contains_narrower s df i w1 w2 :
  w1 ∈ donchian_periods → w2 ∈ donchian_periods → w1 ≤ w2 →
  calculate_technical_indicators sqrt (to_frame s) = Ok df →
  (∀ x y : Q,
     cell df ("donchian_high_" +:+ pretty w1) i = Some (Num x) →
     cell df ("donchian_high_" +:+ pretty w2) i = Some (Num y) → (x <= y)%Q) ∧
  (∀ x y : Q,
     cell df ("donchian_low_" +:+ pretty w1) i = Some (Num x) →
     cell df ("donchian_low_" +:+ pretty w2) i = Some (Num y) → (y <= x)%Q).
Proof.
  intros Hw1 Hw2 Hle. rewrite calculate_on_series. intros [= <-]. unfold cell.
  rewrite !indicator_frame_donchian_high, !indicator_frame_donchian_low by done.
  cbn [mbind option_bind]. unfold donchian_high, donchian_low.
  rewrite highs_finite, lows_finite. split; intros x y Ha Hb.
  - apply rolling_row_window in Ha, Hb.
    apply agg_max_attained, (window_widens _ _ w1 w2) in Ha; [|done].
    destruct (agg_max_upper _ _ Ha) as (v & Hv & Hav). congruence.
  - apply rolling_row_window in Ha, Hb.
    apply agg_min_attained, (window_widens _ _ w1 w2) in Ha; [|done].
    destruct (agg_min_lower _ _ Ha) as (v & Hv & Hav). congruence.
Qed.

End ChannelsAroundTheBar.

(** ** The signals of a symbol *)

Section SymbolSignals.

Implicit Types (self : SignalEngine) (df : DataFrame) (row : Row)
  (symbol k : string) (sig : Signal).

Lemma row_absent df row k :
  iloc_last df = Ok row → has_column df k = false → cells row !! k = None.
Proof.
  intros Hrow. rewrite (iloc_last_has_column df row k Hrow).
  intros H%bool_decide_eq_false_1. by apply eq_None_not_Some.
Qed.

Lemma ltb_not_nan_r (x y : float64) : ltb x y && negb (isna y) = ltb x y.
Proof.
  destruct y; cbn [isna negb]; rewrite ?andb_true_r, ?andb_false_r; try reflexivity.
  by destruct x as [|[]|].
Qed.

Lemma gtb_not_nan_r (x y : float64) : gtb x y && negb (isna y) = gtb x y.
Proof.
  destruct y; cbn [isna negb]; rewrite ?andb_true_r, ?andb_false_r; reflexivity.
Qed.

Lemma _check_system1_signals_eq self symbol df row close high :
  iloc_last df = Ok row → paired_channels df →
  cells row !! "close" = Some close →
  cells row !! ("donchian_high_" +:+ pretty (system1_length (config self))) = Some high →
  _check_system1_signals self symbol df row (name row)
  = Ok (system_signals self symbol row close high 1 (exit_length_s1 (config self))).
Proof.
  intros Hrow Hpair Hclose Hhigh.
  assert (has_column df ("donchian_high_" +:+ pretty (system1_length (config self))) = true)
    as Hcol.
  { rewrite (iloc_last_has_column _ _ _ Hrow), Hhigh. by apply bool_decide_eq_true_2. }
  destruct (row_present _ _ _ Hrow (Is_true_true_1 _ (Hpair _ (Is_true_true_2 _ Hcol))))
    as [low Hlow].
  unfold _check_system1_signals, system_signals. rewrite Hcol. cbn [negb].
  unfold row_getitem. rewrite Hclose, Hhigh, Hlow. cbn [mbind result_bind].
  rewrite gtb_not_nan_r.
  destruct (has_column df ("donchian_low_" +:+ pretty (exit_length_s1 (config self))))
    eqn:Hexit.
  - destruct (row_present _ _ _ Hrow Hexit) as [exit_low Hx]. rewrite Hx.
    cbn [mbind result_bind]. rewrite ltb_not_nan_r.
    by destruct (gtb close high), (ltb close exit_low).
  - rewrite (row_absent _ _ _ Hrow Hexit).
    destruct (gtb close high); by rewrite ?app_nil_r.
Qed.

Lemma _check_system2_signals_eq self symbol df row close high :
  iloc_last df = Ok row → paired_channels df →
  cells row !! "close" = Some close →
  cells row !! ("donchian_high_" +:+ pretty (system2_length (config self))) = Some high →
  _check_system2_signals self symbol df row (name row)
  = Ok (system_signals self symbol row close high 2 (exit_length_s2 (config self))).
Proof.
  intros Hrow Hpair Hclose Hhigh.
  assert (has_column df ("donchian_high_" +:+ pretty (system2_length (config self))) = true)
    as Hcol.
  { rewrite (iloc_last_has_column _ _ _ Hrow), Hhigh. by apply bool_decide_eq_true_2. }
  destruct (row_present _ _ _ Hrow (Is_true_true_1 _ (Hpair _ (Is_true_true_2 _ Hcol))))
    as [low Hlow].
  unfold _check_system2_signals, system_signals. rewrite Hcol. cbn [negb].
  unfold row_getitem. rewrite Hclose, Hhigh, Hlow. cbn [mbind result_bind].
  rewrite gtb_not_nan_r.
  destruct (has_column df ("donchian_low_" +:+ pretty (exit_length_s2 (config self))))
    eqn:Hexit.
  - destruct (row_present _ _ _ Hrow Hexit) as [exit_low Hx]. rewrite Hx.
    cbn [mbind result_bind]. rewrite ltb_not_nan_r.
    by destruct (gtb close high), (ltb close exit_low).
  - rewrite (row_absent _ _ _ Hrow Hexit).
    destruct (gtb close high); by rewrite ?app_nil_r.
Qed.

Lemma _check_system1_signals_absent self symbol df row date :
  has_column df ("donchian_high_" +:+ pretty (system1_length (config self))) = false →
  _check_system1_signals self symbol df row date = Ok [].
Proof. intros H. unfold _check_system1_signals. by rewrite H. Qed.

Lemma _check_system2_signals_absent self symbol df row date :
  has_column df ("donchian_high_" +:+ pretty (system2_length (config self))) = false →
  _check_system2_signals self symbol df row date = Ok [].
Proof. intros H. unfold _check_system2_signals. by rewrite H. Qed.

(** What a system check guarantees about any list it returns. *)
Ltac system_outputs :=
  repeat match goal with
  | |- context [negb (has_column ?df ?k)] => destruct (has_column df k); cbn [negb]
  | |- context [if has_column ?df ?k then _ else _] => destruct (has_column df k)
  | |- context [row_getitem ?r ?k] =>
      let E := fresh "Hcell" in
      unfold row_getitem at 1; destruct (cells r !! k) eqn:E;
      cbn [mbind result_bind]
  | |- context [if ?b && ?c then _ else _] => destruct (b && c)
  | |- Raise _ = Ok _ → _ => discriminate
  | |- Ok _ = Ok _ → _ => intros [= <-]
  end.

Lemma sublist_kinds_1 (l : list (SignalType * Z)) :
  l ∈ [ []; [(BUY, 1%Z)]; [(EXIT, 1%Z)]; [(BUY, 1%Z); (EXIT, 1%Z)] ] →
  l `sublist_of` [(BUY, 1%Z); (EXIT, 1%Z)].
Proof.
  rewrite !elem_of_cons, elem_of_nil. intros [->|[->|[->|[->|[]]]]];
    eauto using sublist_nil, sublist_skip, sublist_cons.
Qed.

Lemma sublist_kinds_2 (l : list (SignalType * Z)) :
  l ∈ [ []; [(BUY, 2%Z)]; [(EXIT, 2%Z)]; [(BUY, 2%Z); (EXIT, 2%Z)] ] →
  l `sublist_of` [(BUY, 2%Z); (EXIT, 2%Z)].
Proof.
  rewrite !elem_of_cons, elem_of_nil. intros [->|[->|[->|[->|[]]]]];
    eauto using sublist_nil, sublist_skip, sublist_cons.
Qed.

Lemma _check_system1_signals_kinds self symbol df row signals :
  _check_system1_signals self symbol df row (name row) = Ok signals →
  kind <$> signals `sublist_of` [(BUY, 1%Z); (EXIT, 1%Z)] ∧
  Forall (well_formed symbol row) signals.
Proof.
  unfold _check_system1_signals. cbn zeta. system_outputs;
    (split; [apply sublist_kinds_1; cbn; repeat constructor
            |repeat constructor; done]).
Qed.

Lemma _check_system2_signals_kinds self symbol df row signals :
  _check_system2_signals self symbol df row (name row) = Ok signals →
  kind <$> signals `sublist_of` [(BUY, 2%Z); (EXIT, 2%Z)] ∧
  Forall (well_formed symbol row) signals.
Proof.
  unfold _check_system2_signals. cbn zeta. system_outputs;
    (split; [apply sublist_kinds_2; cbn; repeat constructor
            |repeat constructor; done]).
Qed.

(** X13.  Whatever the frame, a list returned for a symbol holds at most
    the four signals entry 1, exit 1, entry 2, exit 2, each at most once
    and in that order, and only those of System 1 when System 2 is
    switched off; every signal carries the symbol, the date and the close
    of the latest row, confidence 1 and one unit, and an exit carries no
    stop. *)
Theorem signals_of_a_symbol_are_ordered self symbol df signals :
  _generate_symbol_signals self symbol df = Ok signals →
  kind <$> signals `sublist_of` [(BUY, 1%Z); (EXIT, 1%Z); (BUY, 2%Z); (EXIT, 2%Z)] ∧
  (use_system2 (config self) = false →
   kind <$> signals `sublist_of` [(BUY, 1%Z); (EXIT, 1%Z)]) ∧
  (signals ≠ [] →
   ∃ row, iloc_last df = Ok row ∧ Forall (well_formed symbol row) signals).
Proof.
  unfold _generate_symbol_signals. case_bool_decide.
  { intros [= <-]. split; [apply sublist_nil_l|]. split; [intros _; apply sublist_nil_l|done]. }
  destruct (iloc_last df) as [row|] eqn:Hrow; [|done]. cbn [mbind result_bind].
  destruct (_check_system1_signals self symbol df row (name row))
    as [signals1|] eqn:H1; [|done].
  destruct (_check_system1_signals_kinds _ _ _ _ _ H1) as [Hk1 Hwf1].
  cbn [mbind result_bind app].
  destruct (use_system2 (config self)).
  - destruct (_check_system2_signals self symbol df row (name row))
      as [signals2|] eqn:H2; [|done].
    destruct (_check_system2_signals_kinds _ _ _ _ _ H2) as [Hk2 Hwf2].
    cbn [mbind result_bind]. intros [= <-].
    split; [|split; [done|]].
    + rewrite fmap_app.
      by apply (sublist_app _ [(BUY, 1%Z); (EXIT, 1%Z)] _ [(BUY, 2%Z); (EXIT, 2%Z)]).
    + intros _. exists row. split; [done|]. by apply Forall_app.
  - intros [= <-]. split; [|split; [done|]].
    + by apply (sublist_inserts_r [(BUY, 2%Z); (EXIT, 2%Z)]) in Hk1.
    + intros _. by exists row.
Qed.

Lemma is_exit_spec n sig :
  is_exit n sig ↔ signal_type sig = EXIT ∧ system sig = n.
Proof. unfold is_exit. apply bool_decide_spec. Qed.

Lemma filter_exits_system_signals self symbol row close high n exit_length :
  filter (is_exit n) (system_signals self symbol row close high n exit_length) =
    match cells row !! ("donchian_low_" +:+ pretty exit_length) with
    | Some exit_low =>
        if ltb close exit_low then [exit_signal symbol row close n] else []
    | None => []
    end.
Proof.
  unfold system_signals. rewrite filter_app.
  assert (filter (is_exit n)
            (if gtb close high then [entry_signal self symbol row close n] else [])
          = []) as ->.
  { destruct (gtb close high); [|done].
    rewrite filter_cons, decide_False; [done|]. by intros [? _]%is_exit_spec. }
  cbn [app].
  destruct (cells row !! ("donchian_low_" +:+ pretty exit_length)) as [exit_low|];
    [|done].
  destruct (ltb close exit_low); [|done].
  rewrite filter_cons, decide_True; [done|]. by apply is_exit_spec.
Qed.

Lemma filter_exits_other_system self symbol row close high n m exit_length :
  n ≠ m →
  filter (is_exit n) (system_signals self symbol row close high m exit_length) = [].
Proof.
  intros Hne. apply filter_none. unfold system_signals.
  apply Forall_app. split.
  - destruct (gtb close high); repeat constructor.
    intros [_ ?]%is_exit_spec. by apply Hne.
  - destruct (cells row !! _) as [exit_low|]; [|constructor].
    destruct (ltb close exit_low); repeat constructor.
    intros [_ ?]%is_exit_spec. by apply Hne.
Qed.

(** X14.  On an indicator series with enough history whose latest row has a
    close, the entry channel of System 1 and its exit channel: when the
    close is strictly below the exit low, the signals of the symbol hold
    exactly one exit of System 1, priced at the close and without a stop;
    when it is not below (equal, above, or the low is NaN) they hold
    none. *)
Theorem system1_exit_on_strict_breakdown self symbol df row close high exit_low :
  paired_channels df →
  ¬ (len df < Z.max (system1_length (config self)) (system2_length (config self)))%Z →
  iloc_last df = Ok row →
  cells row !! "close" = Some close →
  cells row !! ("donchian_high_" +:+ pretty (system1_length (config self))) = Some high →
  cells row !! ("donchian_low_" +:+ pretty (exit_length_s1 (config self))) = Some exit_low →
  ∃ signals,
    _generate_symbol_signals self symbol df = Ok signals ∧
    filter (is_exit 1) signals
    = if ltb close exit_low then [exit_signal symbol row close 1] else [].
Proof.
  intros Hpair Hlen Hrow Hclose Hhigh Hlow.
  unfold _generate_symbol_signals. rewrite bool_decide_eq_false_2 by done.
  rewrite Hrow. cbn [mbind result_bind].
  rewrite (_check_system1_signals_eq _ _ _ _ _ _ Hrow Hpair Hclose Hhigh).
  cbn [mbind result_bind app].
  pose proof (filter_exits_system_signals self symbol row close high 1
                (exit_length_s1 (config self))) as Hf1.
  rewrite Hlow in Hf1.
  destruct (use_system2 (config self)); [|by eexists].
  destruct (has_column df ("donchian_high_" +:+ pretty (system2_length (config self))))
    eqn:Hcol2.
  - destruct (row_present _ _ _ Hrow Hcol2) as [high2 Hhigh2].
    rewrite (_check_system2_signals_eq _ _ _ _ _ _ Hrow Hpair Hclose Hhigh2).
    cbn [mbind result_bind]. eexists. split; [reflexivity|].
    by rewrite filter_app, Hf1, filter_exits_other_system, app_nil_r.
  - rewrite _check_system2_signals_absent by done.
    cbn [mbind result_bind]. eexists. split; [reflexivity|].
    by rewrite app_nil_r.
Qed.

Lemma system_signals_system self symbol row close high n exit_length :
  Forall (λ sig, system sig = n) (system_signals self symbol row close high n exit_length).
Proof.
  unfold system_signals. apply Forall_app. split.
  - destruct (gtb close high); repeat constructor.
  - destruct (cells row !! _) as [exit_low|]; [|constructor].
    destruct (ltb close exit_low); repeat constructor.
Qed.

Lemma filter_all {A} (P : A → Prop) `{!∀ x, Decision (P x)} (l : list A) :
  Forall P l → filter P l = l.
Proof.
  induction 1 as [|x l Hx _ IH]; [done|].
  by rewrite filter_cons, decide_True, IH.
Qed.

(** X15.  With System 2 switched on, on an indicator series with enough
    history whose latest row has a close and the entry channel of
    System 2: the signals of System 2 among the signals of the symbol are
    the entry, when the close is strictly above the channel high, followed
    by the exit, when the frame has the exit channel and the close is
    strictly below its low. *)
Theorem system2_on_strict_breaks self symbol df row close high :
  paired_channels df →
  ¬ (len df < Z.max (system1_length (config self)) (system2_length (config self)))%Z →
  iloc_last df = Ok row →
  cells row !! "close" = Some close →
  cells row !! ("donchian_high_" +:+ pretty (system2_length (config self))) = Some high →
  use_system2 (config self) = true →
  ∃ signals,
    _generate_symbol_signals self symbol df = Ok signals ∧
    filter (λ sig, system sig = 2%Z) signals
    = system_signals self symbol row close high 2 (exit_length_s2 (config self)).
Proof.
  intros Hpair Hlen Hrow Hclose Hhigh Hon.
  unfold _generate_symbol_signals. rewrite bool_decide_eq_false_2 by done.
  rewrite Hrow, Hon. cbn [mbind result_bind].
  rewrite (_check_system2_signals_eq _ _ _ _ _ _ Hrow Hpair Hclose Hhigh).
  pose proof (system_signals_system self symbol row close high 2
                (exit_length_s2 (config self))) as Hsys2.
  destruct (has_column df ("donchian_high_" +:+ pretty (system1_length (config self))))
    eqn:Hcol1.
  - destruct (row_present _ _ _ Hrow Hcol1) as [high1 Hhigh1].
    rewrite (_check_system1_signals_eq _ _ _ _ _ _ Hrow Hpair Hclose Hhigh1).
    cbn [mbind result_bind app]. eexists. split; [reflexivity|].
    rewrite filter_app, (filter_all _ _ Hsys2), filter_none; [done|].
    eapply Forall_impl; [apply system_signals_system|]. by intros sig ->.
  - rewrite _check_system1_signals_absent by done.
    cbn [mbind result_bind app]. eexists. split; [reflexivity|].
    by apply filter_all.
Qed.

(** X16.  [_generate_symbol_signals] returns, whatever the data, on a
    frame that carries its Donchian channels in pairs and has a close
    column, when one of the two system lengths is positive. *)
Theorem generate_symbol_signals_returns self symbol df :
  paired_channels df → has_column df "close" →
  (0 < Z.max (system1_length (config self)) (system2_length (config self)))%Z →
  returns (_generate_symbol_signals self symbol df).
Proof.
  intros Hpair Hclose%Is_true_true_1 Hpos. unfold _generate_symbol_signals.
  case_bool_decide as Hlen; [by eexists|].
  destruct (iloc_last df) as [row|] eqn:Hrow.
  2: { unfold iloc_last in Hrow. unfold len in Hlen.
       destruct (index df) as [|t idx]; [cbn in Hlen; lia|].
       by destruct (last (t :: idx)) eqn:E; [|apply last_None in E]. }
  destruct (row_present _ _ _ Hrow Hclose) as [close Hcell].
  cbn [mbind result_bind].
  assert (returns (_check_system1_signals self symbol df row (name row))) as [l1 ->].
  { destruct (has_column df
                ("donchian_high_" +:+ pretty (system1_length (config self)))) eqn:Hcol.
    - destruct (row_present _ _ _ Hrow Hcol) as [high Hhigh].
      rewrite (_check_system1_signals_eq _ _ _ _ _ _ Hrow Hpair Hcell Hhigh).
      by eexists.
    - rewrite _check_system1_signals_absent by done. by eexists. }
  cbn [mbind result_bind].
  destruct (use_system2 (config self)); [|by eexists].
  assert (returns (_check_system2_signals self symbol df row (name row))) as [l2 ->].
  { destruct (has_column df
                ("donchian_high_" +:+ pretty (system2_length (config self)))) eqn:Hcol.
    - destruct (row_present _ _ _ Hrow Hcol) as [high Hhigh].
      rewrite (_check_system2_signals_eq _ _ _ _ _ _ Hrow Hpair Hcell Hhigh).
      by eexists.
    - rewrite _check_system2_signals_absent by done. by eexists. }
  by eexists.
Qed.

End SymbolSignals.

(** ** A batch of symbols *)

Section BatchOfSymbols.

Local Open Scope nat_scope.

Lemma generate_signals_loop_eq data all_signals self :
  foldl generate_signals_body (all_signals, self) data =
    (foldl (record (config self)) all_signals data,
     {| config := config self;
        last_signals := foldl (record (config self)) (last_signals self) data |}).
Proof.
  revert all_signals self. induction data as [|item data IH]; intros all_signals self.
  { by destruct self. }
  cbn [foldl]. rewrite generate_signals_body_eq. unfold record at 2 4.
  destruct (nonempty (produced (config self) item)); by rewrite IH.
Qed.

Lemma record_union cfg m item : record cfg m item = record cfg ∅ item ∪ m.
Proof.
  unfold record. destruct (nonempty _).
  - by rewrite <-insert_union_l, (left_id_L ∅ (∪)).
  - by rewrite (left_id_L ∅ (∪)).
Qed.

Lemma foldl_record_union cfg data m :
  foldl (record cfg) m data = foldl (record cfg) ∅ data ∪ m.
Proof.
  revert m. induction data as [|item data IH]; intros m.
  { cbn. by rewrite (left_id_L ∅ (∪)). }
  cbn [foldl]. rewrite IH, (IH (record cfg ∅ item)), (record_union cfg m).
  by rewrite (assoc_L (∪)).
Qed.

Lemma foldl_record_lookup cfg data symbol signals :
  foldl (record cfg) ∅ data !! symbol = Some signals →
  signals ≠ [] ∧ ∃ df, (symbol, df) ∈ data ∧ produced cfg (symbol, df) = signals.
Proof.
  induction data as [|item data IH] using rev_ind; [done|].
  rewrite foldl_app. cbn [foldl]. unfold record at 1.
  destruct (nonempty (produced cfg item)) eqn:Hne.
  - destruct (decide (item.1 = symbol)) as [<-|Hk].
    + rewrite lookup_insert_eq. intros [= <-]. split; [by destruct (produced cfg item)|].
      exists item.2. rewrite <-surjective_pairing. split; [|done].
      apply elem_of_app. right. by apply list_elem_of_singleton.
    + rewrite lookup_insert_ne by done. intros (? & df & Hin & ?)%IH.
      split; [done|]. exists df. split; [|done]. apply elem_of_app. by left.
  - intros (? & df & Hin & ?)%IH.
    split; [done|]. exists df. split; [|done]. apply elem_of_app. by left.
Qed.

Lemma produced_Ok self symbol df signals :
  produced (config self) (symbol, df) = signals → signals ≠ [] →
  _generate_symbol_signals self symbol df = Ok signals.
Proof.
  unfold produced. cbn [fst snd]. rewrite <-_generate_symbol_signals_config.
  destruct (_generate_symbol_signals self symbol df); [congruence|].
  by intros <-.
Qed.

Lemma generate_signals_eq data self :
  generate_signals data self =
    (Ok (foldl (record (config self)) ∅ data),
     {| config := config self;
        last_signals := foldl (record (config self)) ∅ data ∪ last_signals self |}).
Proof.
  rewrite generate_signals_unfold, generate_signals_loop_eq. cbn [fst snd].
  by rewrite (foldl_record_union _ _ (last_signals self)).
Qed.

(** X17.  A call of [generate_signals] returns a dict that holds no empty
    list and maps a symbol only to the list produced for one of its
    frames in [data]; the engine keeps its configuration, and its
    [last_signals] afterwards are the returned dict laid over the ones
    before. *)
Theorem generate_signals_returns_what_it_records data self all_signals self' :
  generate_signals data self = (Ok all_signals, self') →
  config self' = config self ∧
  last_signals self' = all_signals ∪ last_signals self ∧
  ∀ symbol signals,
    all_signals !! symbol = Some signals →
    signals ≠ [] ∧ last_signals self' !! symbol = Some signals ∧
    ∃ df, (symbol, df) ∈ data ∧ _generate_symbol_signals self symbol df = Ok signals.
Proof.
  rewrite generate_signals_eq. intros [= <- <-]. cbn [config last_signals].
  split; [done|]. split; [done|]. intros symbol signals Hk.
  destruct (foldl_record_lookup _ _ _ _ Hk) as (Hne & df & Hin & Hp).
  split; [done|]. split.
  - by apply lookup_union_Some_l.
  - exists df. split; [done|]. by apply produced_Ok.
Qed.

(** X18.  Calling [generate_signals] again on the same data returns the
    same dict and leaves the engine as the first call left it. *)
Theorem generate_signals_idempotent data self all_signals self' :
  generate_signals data self = (Ok all_signals, self') →
  generate_signals data self' = (Ok all_signals, self').
Proof.
  rewrite !generate_signals_eq. intros [= <- <-]. cbn [config last_signals].
  by rewrite (assoc_L (∪)), (idemp_L (∪)).
Qed.

(** X19.  A symbol whose processing raises, or yields the empty list,
    leaves no trace: the call returns the same dict and the same engine as
    without that item. *)
Theorem generate_signals_skips_quiet_symbols data1 symbol df data2 self :
  (∀ sig signals, _generate_symbol_signals self symbol df ≠ Ok (sig :: signals)) →
  generate_signals (data1 ++ (symbol, df) :: data2) self
  = generate_signals (data1 ++ data2) self.
Proof.
  intros Hquiet. rewrite !generate_signals_eq, !foldl_app. cbn [foldl].
  assert (record (config self) (foldl (record (config self)) ∅ data1) (symbol, df)
          = foldl (record (config self)) ∅ data1) as ->; [|done].
  unfold record, produced. cbn [fst snd]. rewrite <-_generate_symbol_signals_config.
  destruct (_generate_symbol_signals self symbol df) as [[|sig signals]|] eqn:E;
    [done| |done].
  by destruct (Hquiet sig signals).
Qed.

(** X20.  Processing the data in two batches comes to the same as
    processing it in one call: the engine ends in the same state, and the
    dict of the single call is that of the second batch laid over that of
    the first. *)
Theorem generate_signals_in_batches data1 data2 self all1 self1 all2 self2 :
  generate_signals data1 self = (Ok all1, self1) →
  generate_signals data2 self1 = (Ok all2, self2) →
  generate_signals (data1 ++ data2) self = (Ok (all2 ∪ all1), self2).
Proof.
  rewrite !generate_signals_eq. intros [= <- <-]. cbn [config last_signals].
  intros [= <- <-]. rewrite foldl_app.
  rewrite (foldl_record_union _ data2 (foldl _ _ data1)).
  by rewrite (assoc_L (∪)).
Qed.

End BatchOfSymbols.

(** ** The summary of the stored signals *)

Section Summaries.

Local Open Scope nat_scope.

Lemma count_into_snoc {A} (members : list A) x key count :
  count_into (members ++ [x]) key count =
    if decide (0 < count x) then <[key x := count x]> (count_into members key count)
    else count_into members key count.
Proof. unfold count_into. by rewrite foldl_app. Qed.

Lemma count_into_lookup_None {A} (members : list A) key count k :
  k ∉ key <$> members → count_into members key count !! k = None.
Proof.
  induction members as [|x members IH] using rev_ind; [done|].
  rewrite fmap_app, not_elem_of_app. cbn [fmap list_fmap].
  rewrite list_elem_of_singleton. intros [Hm Hx].
  rewrite count_into_snoc. case_decide; [|by apply IH].
  rewrite lookup_insert_ne by done. by apply IH.
Qed.

Lemma count_into_lookup {A} (members : list A) key count x :
  NoDup (key <$> members) → x ∈ members →
  count_into members key count !! key x =
    if decide (0 < count x) then Some (count x) else None.
Proof.
  induction members as [|y members IH] using rev_ind.
  { intros _ Hin. by apply elem_of_nil in Hin. }
  rewrite fmap_app. cbn [fmap list_fmap]. intros Hnd.
  apply NoDup_app in Hnd as (Hnd & Hfresh & _).
  rewrite elem_of_app, list_elem_of_singleton, count_into_snoc.
  intros [Hin| ->].
  - assert (key y ≠ key x) as Hne.
    { intros Heq. apply (Hfresh (key x)); [by apply list_elem_of_fmap_2|].
      rewrite Heq. by apply list_elem_of_singleton. }
    destruct (decide (0 < count y)); [rewrite lookup_insert_ne by done|]; by apply IH.
  - destruct (decide (0 < count y)); [by rewrite lookup_insert_eq|].
    apply count_into_lookup_None. intros Hin. apply (Hfresh (key y) Hin).
    by apply list_elem_of_singleton.
Qed.

Lemma counted_count_into {A} (members : list A) key count x :
  NoDup (key <$> members) → x ∈ members →
  counted (count_into members key count) (key x) = count x.
Proof.
  intros Hnd Hin. unfold counted. rewrite count_into_lookup by done.
  case_decide; cbn; lia.
Qed.

Lemma kinds_members (l : list (SignalType * Z)) signals :
  kind <$> signals `sublist_of` l → Forall (λ sig, kind sig ∈ l) signals.
Proof.
  intros Hsub. apply Forall_forall. intros sig Hin.
  eapply elem_of_sublist; [|done]. by apply list_elem_of_fmap_2.
Qed.

Lemma system1_entry_or_exit sig :
  kind sig ∈ [(BUY, 1%Z); (EXIT, 1%Z)] → entry_or_exit sig.
Proof.
  unfold kind, entry_or_exit. rewrite !elem_of_cons, elem_of_nil.
  intros [[= -> ->]|[[= -> ->]|[]]]; auto.
Qed.

Lemma system2_entry_or_exit sig :
  kind sig ∈ [(BUY, 2%Z); (EXIT, 2%Z)] → entry_or_exit sig.
Proof.
  unfold kind, entry_or_exit. rewrite !elem_of_cons, elem_of_nil.
  intros [[= -> ->]|[[= -> ->]|[]]]; auto.
Qed.

Lemma _generate_symbol_signals_entry_or_exit self symbol df signals :
  _generate_symbol_signals self symbol df = Ok signals →
  Forall entry_or_exit signals.
Proof.
  unfold _generate_symbol_signals. case_bool_decide; [by intros [= <-]|].
  destruct (iloc_last df) as [row|]; [|done]. cbn [mbind result_bind].
  destruct (_check_system1_signals self symbol df row (name row))
    as [signals1|] eqn:H1; [|done].
  apply _check_system1_signals_kinds in H1 as [H1%kinds_members _].
  eapply Forall_impl in H1; [|apply system1_entry_or_exit].
  cbn [mbind result_bind app].
  destruct (use_system2 (config self)); [|by intros [= <-]].
  destruct (_check_system2_signals self symbol df row (name row))
    as [signals2|] eqn:H2; [|done].
  apply _check_system2_signals_kinds in H2 as [H2%kinds_members _].
  eapply Forall_impl in H2; [|apply system2_entry_or_exit].
  cbn [mbind result_bind]. intros [= <-]. by apply Forall_app.
Qed.

Lemma produced_entry_or_exit cfg item : Forall entry_or_exit (produced cfg item).
Proof.
  unfold produced.
  destruct (_generate_symbol_signals _ _ _) eqn:E; [|constructor].
  by eapply _generate_symbol_signals_entry_or_exit.
Qed.

Lemma exec_only_entries_and_exits c self :
  only_entries_and_exits self → only_entries_and_exits (exec c self).
Proof.
  intros Hinv. destruct c; try done.
  cbn [exec]. rewrite generate_signals_eq. cbn [snd].
  intros symbol signals [Hk|[_ Hk]]%lookup_union_Some_raw; [|by eapply Hinv].
  apply foldl_record_lookup in Hk as (_ & df & _ & <-).
  apply produced_entry_or_exit.
Qed.

Lemma run_only_entries_and_exits cfg calls : only_entries_and_exits (run cfg calls).
Proof.
  induction calls as [|c calls IH] using rev_ind.
  { intros symbol signals. cbn. by rewrite lookup_empty. }
  rewrite run_snoc. by apply exec_only_entries_and_exits.
Qed.

Lemma stored_signals_entry_or_exit self :
  only_entries_and_exits self → Forall entry_or_exit (stored_signals self).
Proof.
  intros Hinv. unfold stored_signals. apply Forall_bind, Forall_forall.
  intros [symbol signals] Hin%elem_of_map_to_list. by eapply Hinv.
Qed.

Lemma length_by_type (l : list Signal) :
  Forall entry_or_exit l →
  length (filter (λ s, signal_type s = BUY) l)
  + length (filter (λ s, signal_type s = EXIT) l) = length l ∧
  ∀ t, t ≠ BUY → t ≠ EXIT → length (filter (λ s, signal_type s = t) l) = 0.
Proof.
  induction 1 as [|sig l [Ht _] _ [IH1 IH2]]; [done|]. split.
  - rewrite !filter_cons.
    destruct Ht as [Ht|Ht]; rewrite Ht;
      repeat (destruct (decide _); try done); cbn [length]; lia.
  - intros t HB HE. rewrite filter_cons.
    destruct (decide _) as [<-|]; [by destruct Ht|by apply IH2].
Qed.

Lemma length_by_system (l : list Signal) :
  Forall entry_or_exit l →
  length (filter (λ s, system s = 1%Z) l)
  + length (filter (λ s, system s = 2%Z) l) = length l.
Proof.
  induction 1 as [|sig l [_ Hs] _ IH]; [done|].
  rewrite !filter_cons.
  destruct Hs as [Hs|Hs]; rewrite Hs;
    repeat (destruct (decide _); try done); cbn [length]; lia.
Qed.

Lemma length_bind_nonempty {A B} (f : A → list B) (l : list A) :
  Forall (λ x, f x ≠ []) l → length l ≤ length (l ≫= f).
Proof.
  induction 1 as [|x l Hx _ IH]; [done|].
  rewrite bind_cons, length_app. destruct (f x); [done|]. cbn [length]. lia.
Qed.

Lemma SignalType_value_NoDup : NoDup (SignalType_value <$> SignalType_members).
Proof. apply (bool_decide_unpack _). vm_compute. exact I. Qed.

Lemma system_keys_NoDup : NoDup ((λ n : Z, "system_" +:+ pretty n) <$> [1%Z; 2%Z]).
Proof. apply (bool_decide_unpack _). vm_compute. exact I. Qed.

(** X21.  After construction and any sequence of calls, the summary
    counts entries and exits only: its counts for BUY and EXIT add up to
    the number of stored signals and no other type has an entry; its
    counts for the two systems add up to the same number; and there are at
    least as many signals as symbols. *)
Theorem summary_counts_entries_and_exits cfg calls :
  ∃ summary,
    get_signal_summary (run cfg calls) = (Ok summary, run cfg calls) ∧
    counted (signals_by_type summary) "BUY" + counted (signals_by_type summary) "EXIT"
    = length (stored_signals (run cfg calls)) ∧
    (∀ k, k ≠ "BUY" → k ≠ "EXIT" → signals_by_type summary !! k = None) ∧
    counted (signals_by_system summary) "system_1"
    + counted (signals_by_system summary) "system_2"
    = length (stored_signals (run cfg calls)) ∧
    total_symbols summary ≤ length (stored_signals (run cfg calls)).
Proof.
  eexists. split; [reflexivity|]. cbn [signals_by_type signals_by_system total_symbols].
  fold (stored_signals (run cfg calls)).
  pose proof (stored_signals_entry_or_exit _ (run_only_entries_and_exits cfg calls))
    as Hall.
  destruct (length_by_type _ Hall) as [Htypes Hnone].
  repeat split.
  - change "BUY" with (SignalType_value BUY).
    change "EXIT" with (SignalType_value EXIT).
    by rewrite !counted_count_into
      by first [apply SignalType_value_NoDup|repeat constructor].
  - intros k HB HE.
    destruct (decide (k ∈ SignalType_value <$> SignalType_members)) as [Hin|Hnot];
      [|by apply count_into_lookup_None].
    apply list_elem_of_fmap in Hin as (t & -> & Hin).
    rewrite count_into_lookup by first [done|apply SignalType_value_NoDup].
    rewrite decide_False; [done|].
    rewrite Hnone; [lia|by intros ->..].
  - change "system_1" with ("system_" +:+ pretty 1%Z).
    change "system_2" with ("system_" +:+ pretty 2%Z).
    rewrite (counted_count_into _ (λ n : Z, "system_" +:+ pretty n) _ 1%Z)
      by first [apply system_keys_NoDup|repeat constructor].
    rewrite (counted_count_into _ (λ n : Z, "system_" +:+ pretty n) _ 2%Z)
      by first [apply system_keys_NoDup|repeat constructor].
    by apply length_by_system.
  - rewrite <-length_map_to_list. apply length_bind_nonempty, Forall_forall.
    intros [symbol signals] Hin%elem_of_map_to_list.
    by apply (run_no_empty_list cfg calls symbol).
Qed.

End Summaries.

(** ** Validation of a frame *)

Section Validation.

Local Open Scope nat_scope.

Lemma append_report (fires : bool) (issues : list string) issue :
  (if fires then issues ++ [issue] else issues) = issues ++ report fires issue.
Proof. destruct fires; [done|by rewrite app_nil_r]. Qed.

(** The issues in the order of the checks. *)
Lemma validate_data_quality_issues df symbol :
  (validate_data_quality df symbol).2 =
    report (isnull_any df) "Missing data found"
    ++ (price_cols ≫= λ col, report (nonpositive df col)
                               ("Negative or zero prices in " +:+ col))
    ++ report (high_below_low df) "High < Low found"
    ++ report (extreme_move df) "Extreme price movements detected"
    ++ report (bool_decide (len df < 60)%Z) "Insufficient data for analysis".
Proof.
  unfold validate_data_quality. cbn [snd foldl price_cols].
  rewrite (append_report (isnull_any df)).
  change (price_cols ≫= ?f)
    with (f "open" ++ f "high" ++ f "low" ++ f "close" ++ []).
  assert (∀ (issues : list string) col,
    match columns df !! col with
    | Some prices =>
        if any ((λ x, leb x (of_Z 0)) <$> prices)
        then issues ++ ["Negative or zero prices in " +:+ col] else issues
    | None => issues
    end = issues ++ report (nonpositive df col)
                          ("Negative or zero prices in " +:+ col)) as Hprice.
  { intros issues col. unfold nonpositive.
    destruct (columns df !! col); [apply append_report|by rewrite app_nil_r]. }
  rewrite !Hprice. rewrite (append_report (bool_decide _)).
  assert (∀ issues : list string,
    match columns df !! "close" with
    | Some close =>
        if any ((λ x, gtb x (Num (1 # 2))) <$> col_abs (pct_change close))
        then issues ++ ["Extreme price movements detected"] else issues
    | None => issues
    end = issues ++ report (extreme_move df) "Extreme price movements detected")
    as ->.
  { intros issues. unfold extreme_move.
    destruct (columns df !! "close"); [apply append_report|by rewrite app_nil_r]. }
  assert (∀ issues : list string,
    match columns df !! "high", columns df !! "low" with
    | Some high, Some low =>
        if any (zip_with ltb high low) then issues ++ ["High < Low found"]
        else issues
    | _, _ => issues
    end = issues ++ report (high_below_low df) "High < Low found") as ->.
  { intros issues. unfold high_below_low.
    destruct (columns df !! "high"), (columns df !! "low");
      first [apply append_report|by rewrite app_nil_r]. }
  rewrite app_nil_r, app_nil_l. by rewrite <-!(assoc_L (++)).
Qed.

Lemma report_nil fires issue : report fires issue = [] ↔ fires = false.
Proof. by destruct fires. Qed.

Lemma any_false (bs : list bool) : any bs = false ↔ Forall (λ b, b = false) bs.
Proof.
  unfold any. induction bs as [|b bs IH]; [by split; [constructor|]|].
  cbn [existsb id]. rewrite orb_false_iff, IH, Forall_cons. done.
Qed.

Lemma any_fmap_false {A} (f : A → bool) (l : list A) :
  any (f <$> l) = false ↔ Forall (λ x, f x = false) l.
Proof. by rewrite any_false, Forall_fmap. Qed.

Lemma isnull_any_false df : isnull_any df = false ↔ complete df.
Proof.
  unfold isnull_any, complete. rewrite any_fmap_false, Forall_forall. split.
  - intros Hall k col Hk. apply any_fmap_false.
    by apply (Hall (k, col)), elem_of_map_to_list.
  - intros Hall [k col] Hk%elem_of_map_to_list. apply any_fmap_false. by eapply Hall.
Qed.

(** The flag is the conjunction of the checks. *)
Lemma validate_data_quality_valid df symbol :
  (validate_data_quality df symbol).1 = true ↔
    complete df ∧ (∀ col, col ∈ price_cols → nonpositive df col = false) ∧
    high_below_low df = false ∧ extreme_move df = false ∧ ¬ (len df < 60)%Z.
Proof.
  change ((validate_data_quality df symbol).1)
    with (bool_decide (length (validate_data_quality df symbol).2 = 0)).
  rewrite bool_decide_eq_true, length_zero_iff_nil, validate_data_quality_issues.
  change (price_cols ≫= ?f)
    with (f "open" ++ f "high" ++ f "low" ++ f "close" ++ []).
  rewrite !app_nil, !report_nil, bool_decide_eq_false, isnull_any_false.
  unfold price_cols. split.
  - intros (? & (? & ? & ? & ? & _) & ? & ? & ?). repeat split; try done.
    intros col. rewrite !elem_of_cons, elem_of_nil.
    by intros [->|[->|[->|[->|[]]]]].
  - intros (? & Hall & ? & ? & ?).
    repeat split; try done; apply Hall; rewrite !elem_of_cons; auto.
Qed.

(** *** On a price series *)

Lemma to_frame_lookup s k col :
  columns (to_frame s) !! k = Some col →
  (k = "open" ∧ col = opens s) ∨ (k = "high" ∧ col = highs s) ∨
  (k = "low" ∧ col = lows s) ∨ (k = "close" ∧ col = closes s) ∨
  (k = "volume" ∧ col = volumes s).
Proof.
  unfold to_frame. cbn [columns]. intros H.
  repeat (apply lookup_insert_Some in H as [[<- <-]|[_ H]]; [auto 10|]).
  by rewrite lookup_empty in H.
Qed.

Lemma to_frame_complete s : complete (to_frame s).
Proof.
  intros k col Hk. apply Forall_forall. intros x Hx.
  destruct (to_frame_lookup s k col Hk)
    as [[_ ->]|[[_ ->]|[[_ ->]|[[_ ->]|[_ ->]]]]];
    by apply list_elem_of_fmap in Hx as (b & -> & _).
Qed.

Lemma leb_Num_0 (q : Q) : leb (Num q) (of_Z 0) = false ↔ (0 < q)%Q.
Proof.
  cbn. change (inject_Z 0) with 0%Q. split.
  - intros H. apply Qnot_le_lt. intros Hle%Qle_bool_iff. congruence.
  - intros Hlt. destruct (Qle_bool q 0) eqn:E; [|done].
    apply Qle_bool_iff in E. lra.
Qed.

Lemma nonpositive_to_frame s :
  (∀ col, col ∈ price_cols → nonpositive (to_frame s) col = false) ↔
  Forall (λ b, (0 < bar_open b)%Q ∧ (0 < bar_high b)%Q ∧
               (0 < bar_low b)%Q ∧ (0 < bar_close b)%Q) s.
Proof.
  assert (∀ (f : PriceBar → Q),
    any ((λ x, leb x (of_Z 0)) <$> ((Num ∘ f) <$> s)) = false
    ↔ Forall (λ b, (0 < f b)%Q) s) as Hcol.
  { intros f. rewrite any_fmap_false, Forall_fmap.
    apply Forall_proper; [|done]. intros b. apply leb_Num_0. }
  split.
  - intros Hall.
    pose proof (Hall "open" ltac:(repeat constructor)) as Ho.
    pose proof (Hall "high" ltac:(repeat constructor)) as Hh.
    pose proof (Hall "low" ltac:(repeat constructor)) as Hl.
    pose proof (Hall "close" ltac:(repeat constructor)) as Hc.
    apply (Hcol bar_open) in Ho. apply (Hcol bar_high) in Hh.
    apply (Hcol bar_low) in Hl. apply (Hcol bar_close) in Hc.
    rewrite Forall_forall in Ho, Hh, Hl, Hc. apply Forall_forall. auto.
  - intros Hall col. unfold price_cols. rewrite !elem_of_cons, elem_of_nil.
    intros [->|[->|[->|[->|[]]]]].
    + apply (Hcol bar_open). eapply Forall_impl; [done|]. by intros b (? & ? & ? & ?).
    + apply (Hcol bar_high). eapply Forall_impl; [done|]. by intros b (? & ? & ? & ?).
    + apply (Hcol bar_low). eapply Forall_impl; [done|]. by intros b (? & ? & ? & ?).
    + apply (Hcol bar_close). eapply Forall_impl; [done|]. by intros b (? & ? & ? & ?).
Qed.

Lemma zip_with_fmap_same {A B C D} (f : B → C → D) (g : A → B) (h : A → C)
    (l : list A) :
  zip_with f (g <$> l) (h <$> l) = (λ x, f (g x) (h x)) <$> l.
Proof. induction l as [|x l IH]; [done|]. cbn. by rewrite IH. Qed.

Lemma high_below_low_to_frame s :
  high_below_low (to_frame s) = false ↔ Forall (λ b, (bar_low b <= bar_high b)%Q) s.
Proof.
  change (high_below_low (to_frame s)) with (any (zip_with ltb (highs s) (lows s))).
  unfold highs, lows. rewrite zip_with_fmap_same, any_fmap_false.
  apply Forall_proper; [|done]. intros b. cbn. rewrite negb_false_iff.
  apply Qle_bool_iff.
Qed.

Lemma ffill_from_Num prev (qs : list Q) : ffill_from prev (Num <$> qs) = Num <$> qs.
Proof.
  revert prev. induction qs as [|q qs IH]; intros prev; [done|].
  cbn. by rewrite IH.
Qed.

Lemma pct_change_closes_first s :
  s ≠ [] → pct_change (closes s) !! 0 = Some NaN.
Proof.
  intros Hs. unfold pct_change, ffill. rewrite closes_finite, ffill_from_Num.
  destruct s as [|b s]; [done|]. reflexivity.
Qed.

Lemma pct_change_closes_later s i p b :
  s !! i = Some p → s !! S i = Some b →
  pct_change (closes s) !! S i
  = Some (sub (div (Num (bar_close b)) (Num (bar_close p))) (Num 1)).
Proof.
  intros Hp Hb. unfold pct_change, ffill. rewrite closes_finite, ffill_from_Num.
  rewrite <-closes_finite. unfold col_div.
  rewrite list_lookup_fmap, lookup_zip_with, shift1_lookup_S.
  - unfold closes. rewrite !list_lookup_fmap, Hp, Hb. done.
  - unfold closes. rewrite length_fmap. by eapply lookup_lt_Some.
Qed.

Lemma div_by_positive (c p : Q) : (0 < p)%Q → div (Num c) (Num p) = Num (c / p).
Proof.
  intros Hp. cbn [div]. unfold Qis_zero.
  destruct (Qeq_bool p 0) eqn:E; [|done].
  apply Qeq_bool_iff in E. rewrite E in Hp. by apply Qlt_irrefl in Hp.
Qed.

Lemma move_within_half (c p : Q) :
  (0 < p)%Q → (Qabs (c / p - 1) <= 1 # 2)%Q →
  gtb (abs (sub (div (Num c) (Num p)) (Num 1))) (Num (1 # 2)) = false.
Proof.
  intros Hp Hle. rewrite div_by_positive by done.
  cbn. rewrite negb_false_iff. by apply Qle_bool_iff.
Qed.

Lemma extreme_move_to_frame s :
  Forall (λ b, (0 < bar_close b)%Q) s → moves_within_half s →
  extreme_move (to_frame s) = false.
Proof.
  intros Hpos Hmoves. rewrite Forall_lookup in Hpos.
  change (extreme_move (to_frame s))
    with (any ((λ x, gtb x (Num (1 # 2))) <$> col_abs (pct_change (closes s)))).
  unfold col_abs. rewrite any_fmap_false, Forall_fmap, Forall_lookup.
  intros [|i] x Hx.
  - rewrite pct_change_closes_first in Hx; [by injection Hx as <-|].
    by intros ->.
  - assert (S i < length s) as Hi.
    { apply lookup_lt_Some in Hx.
      rewrite length_pct_change in Hx. unfold closes in Hx.
      by rewrite length_fmap in Hx. }
    destruct (lookup_lt_is_Some_2 s i) as [p Hp]; [lia|].
    destruct (lookup_lt_is_Some_2 s (S i) Hi) as [b Hb].
    rewrite (pct_change_closes_later s i p b Hp Hb) in Hx. injection Hx as <-.
    apply (move_within_half _ _ (Hpos _ _ Hp)). by eapply Hmoves.
Qed.

(** X22.  On the frame of a price series, [validate_data_quality] passes
    whenever every bar has positive prices and its low at or under its
    high, no close moves by more than half of the close before it, and
    there are at least 60 bars; and whenever it passes, every bar has
    positive prices and its low at or under its high, and there are at
    least 60 bars.  (Of the moves nothing is concluded from a pass: at
    the boundary of one half the rounded quotient decides.) *)
Theorem validate_data_quality_on_series s symbol :
  (sound_series s → (validate_data_quality (to_frame s) symbol).1 = true) ∧
  ((validate_data_quality (to_frame s) symbol).1 = true →
   Forall sound_bar s ∧ 60 ≤ length s).
Proof.
  rewrite validate_data_quality_valid, nonpositive_to_frame, high_below_low_to_frame.
  unfold sound_series, sound_bar, len. cbn [index to_frame]. rewrite length_fmap.
  split.
  - intros (Hbars & Hmove & Hlen).
    split; [apply to_frame_complete|]. split; [|split; [|split; [|lia]]].
    + eapply Forall_impl; [done|]. by intros b (? & ? & ? & ? & ?).
    + eapply Forall_impl; [done|]. by intros b (? & ? & ? & ? & ?).
    + apply extreme_move_to_frame; [|done].
      eapply Forall_impl; [done|]. by intros b (? & ? & ? & ? & ?).
  - intros (_ & Hpos & Hlow & _ & Hlen). split; [|lia].
    rewrite Forall_forall in Hpos, Hlow. apply Forall_forall.
    intros b Hb. destruct (Hpos b Hb) as (? & ? & ? & ?).
    repeat split; try done. by apply Hlow.
Qed.

End Validation.

(** ** The indicators of a series that passed validation *)

Section ValidSeries.

Local Open Scope nat_scope.

Variable sqrt : Q → Q.

Implicit Types (s : PriceSeries) (w : nat).

Lemma last_of_finite_tail (xs : column) k :
  k < length xs → all_finite (drop k xs) → ∃ v, last xs = Some (Num v).
Proof.
  intros Hk Hfin. unfold all_finite in Hfin. rewrite Forall_lookup in Hfin.
  destruct (lookup_lt_is_Some_2 xs (pred (length xs))) as [x Hx]; [lia|].
  destruct (Hfin (pred (length xs) - k) x) as [v ->].
  { rewrite lookup_drop, <-Hx. f_equal. lia. }
  exists v. by rewrite last_lookup.
Qed.

(** The latest cell of a rolling aggregate whose last window is full of
    numbers. *)
Lemma last_rolling_defined w agg (xs : column) :
  1 ≤ w → w ≤ length xs →
  all_finite (drop (length xs - w) xs) →
  (∀ obs, length obs = w → ∃ v, agg obs = Num v) →
  ∃ v, last (rolling w agg xs) = Some (Num v).
Proof.
  intros Hpos Hw Hfin Hagg.
  rewrite last_lookup, length_rolling, rolling_lookup by lia.
  unfold observations, window.
  replace (S (pred (length xs))) with (length xs) by lia.
  rewrite firstn_all.
  destruct (all_finite_Num _ Hfin) as [qs Hqs]. rewrite Hqs, omap_observation_Num.
  assert (length qs = w) as Hlen.
  { rewrite <-(length_fmap Num), <-Hqs, length_drop. lia. }
  rewrite decide_True by lia. destruct (Hagg qs Hlen) as [v ->]. by exists v.
Qed.

Lemma agg_max_defined (obs : list Q) w :
  1 ≤ w → length obs = w → ∃ v, agg_max obs = Num v.
Proof. destruct obs; cbn; [lia|]. by eexists. Qed.

Lemma agg_min_defined (obs : list Q) w :
  1 ≤ w → length obs = w → ∃ v, agg_min obs = Num v.
Proof. destruct obs; cbn; [lia|]. by eexists. Qed.

Lemma agg_mean_defined (obs : list Q) w :
  1 ≤ w → length obs = w → ∃ v, agg_mean obs = Num v.
Proof. destruct obs; cbn; [lia|]. by eexists. Qed.

Lemma agg_std_defined (obs : list Q) w :
  2 ≤ w → length obs = w → ∃ v, agg_std sqrt obs = Num v.
Proof. destruct obs as [|? [|? ?]]; cbn; [lia..|]. by eexists. Qed.

Lemma price_column_finite (f : PriceBar → Q) s : all_finite ((Num ∘ f) <$> s).
Proof. apply Forall_fmap, Forall_true. intros b. by eexists. Qed.

Lemma volumes_finite s : all_finite (volumes s).
Proof. apply Forall_fmap, Forall_true. intros b. by eexists. Qed.

Lemma all_finite_drop xs k : all_finite xs → all_finite (drop k xs).
Proof. apply Forall_drop. Qed.

Lemma returns_tail_finite s k :
  Forall (λ b, (0 < bar_close b)%Q) s → 1 ≤ k → all_finite (drop k (returns_column s)).
Proof.
  intros Hpos Hk. rewrite Forall_lookup in Hpos.
  apply Forall_lookup. intros j x. rewrite lookup_drop.
  destruct (k + j) as [|i] eqn:E; [lia|]. intros Hx.
  assert (S i < length s) as Hi.
  { apply lookup_lt_Some in Hx. unfold returns_column in Hx.
    rewrite length_pct_change in Hx. unfold closes in Hx.
    by rewrite length_fmap in Hx. }
  destruct (lookup_lt_is_Some_2 s i) as [p Hp]; [lia|].
  destruct (lookup_lt_is_Some_2 s (S i) Hi) as [b Hb].
  unfold returns_column in Hx.
  rewrite (pct_change_closes_later s i p b Hp Hb) in Hx.
  assert (x = sub (div (Num (bar_close b)) (Num (bar_close p))) (Num 1)) as ->
    by congruence.
  rewrite div_by_positive by (by eapply Hpos). by eexists.
Qed.

Lemma length_returns_column s : length (returns_column s) = length s.
Proof.
  unfold returns_column. rewrite length_pct_change. unfold closes.
  by rewrite length_fmap.
Qed.

Lemma length_price_column {A} (f : PriceBar → A) s : length (f <$> s) = length s.
Proof. apply length_fmap. Qed.

Lemma last_scaled (k : Q) (xs : column) :
  (∃ v, last xs = Some (Num v)) → ∃ v, last (col_scale (Num k) xs) = Some (Num v).
Proof.
  intros [x Hx]. unfold col_scale. rewrite fmap_last, Hx. by eexists.
Qed.

(** X23.  For a price series that passes [validate_data_quality], the
    indicator engine returns a frame whose latest row holds a number in
    every column, the 200-day average apart. *)
Theorem valid_series_has_its_indicators s symbol :
  (validate_data_quality (to_frame s) symbol).1 = true →
  ∃ df row,
    calculate_technical_indicators sqrt (to_frame s) = Ok df ∧
    iloc_last df = Ok row ∧
    ∀ k, has_column df k → k ≠ "sma_200" → ∃ q, cells row !! k = Some (Num q).
Proof.
  intros (_ & Hpos & _ & _ & Hlen)%validate_data_quality_valid.
  apply nonpositive_to_frame in Hpos.
  assert (Forall (λ b, (0 < bar_close b)%Q) s) as Hclose.
  { eapply Forall_impl; [exact Hpos|]. by intros b (? & ? & ? & ?). }
  unfold len in Hlen. cbn [index to_frame] in Hlen. rewrite length_fmap in Hlen.
  assert (60 ≤ length s) as Hn by lia. clear Hlen Hpos.
  destruct (lookup_lt_is_Some_2 s (pred (length s))) as [b Hb]; [lia|].
  rewrite <-last_lookup in Hb.
  destruct (indicator_frame_latest sqrt s b Hb) as (row & Hrow & _ & _).
  exists (indicator_frame sqrt s), row.
  split; [apply calculate_on_series|]. split; [done|].
  intros k Hk Hne. rewrite (iloc_last_cells _ _ _ Hrow).
  apply bool_decide_unpack in Hk as [col Hcol]. rewrite Hcol.
  cbn [fmap option_fmap option_map].
  enough (∃ v, last col = Some (Num v)) as [v ->] by (by exists v).
  pose proof (true_range_finite s) as Htr.
  pose proof (length_true_range s) as Hltr.
  pose proof (length_returns_column s) as Hlr.
  apply elem_of_list_to_map_2 in Hcol. unfold indicator_columns in Hcol.
  repeat (apply elem_of_cons in Hcol as [[= -> ->]|Hcol];
    [ unfold donchian_high, donchian_low, atr, sma, volatility,
        opens, highs, lows, closes, volumes;
      first
      [ done
      | apply (last_of_finite_tail _ 0);
          [rewrite ?length_fmap, ?Hltr; lia
          |first [apply price_column_finite|apply volumes_finite|exact Htr]]
      | apply last_rolling_defined;
          [lia
          |rewrite ?length_fmap, ?Hltr; lia
          |first [apply all_finite_drop, price_column_finite
                 |apply all_finite_drop, Htr]
          |intros obs;
           first [apply agg_max_defined|apply agg_min_defined|apply agg_mean_defined];
           lia]
      | apply (last_of_finite_tail _ 1);
          [rewrite Hlr; lia|by apply returns_tail_finite]
      | apply last_scaled, last_rolling_defined;
          [lia|rewrite Hlr; lia|apply returns_tail_finite; [done|rewrite Hlr; lia]
          |intros obs; apply agg_std_defined; lia] ]
    | ]).
  by apply elem_of_nil in Hcol.
Qed.

End ValidSeries.

(** ** Normalisation of a frame *)

Section Normalisation.

Local Open Scope nat_scope.

Lemma _normalize_data_phases df symbol :
  _normalize_data df symbol = df ← adjust df; ensure_positive price_cols (dropna df).
Proof. reflexivity. Qed.

(** *** Rows kept by a mask *)

Lemma keep_nil_r {A} mask : keep mask ([] : list A) = [].
Proof. by destruct mask. Qed.

Lemma keep_cons {A} (m : bool) mask (x : A) xs :
  keep (m :: mask) (x :: xs) = if m then x :: keep mask xs else keep mask xs.
Proof.
  unfold keep. cbn [zip_with]. rewrite filter_cons. cbn [fst].
  destruct m; [by rewrite decide_True|by rewrite decide_False].
Qed.

Lemma keep_sublist {A} mask (xs : list A) : keep mask xs `sublist_of` xs.
Proof.
  revert xs. induction mask as [|m mask IH]; intros xs.
  { apply sublist_nil_l. }
  destruct xs as [|x xs]; [by rewrite keep_nil_r|].
  rewrite keep_cons. destruct m; [by apply sublist_skip|by apply sublist_cons].
Qed.

Lemma keep_elem {A} mask (xs : list A) x :
  x ∈ keep mask xs → ∃ i, mask !! i = Some true ∧ xs !! i = Some x.
Proof.
  revert xs. induction mask as [|m mask IH]; intros xs.
  { intros Hx. by apply elem_of_nil in Hx. }
  destruct xs as [|y xs]; [rewrite keep_nil_r; intros Hx; by apply elem_of_nil in Hx|].
  rewrite keep_cons. destruct m.
  - intros [->|Hx]%elem_of_cons; [by exists 0|].
    destruct (IH _ Hx) as (i & ? & ?). by exists (S i).
  - intros Hx. destruct (IH _ Hx) as (i & ? & ?). by exists (S i).
Qed.

Lemma length_keep {A} mask (xs : list A) :
  length mask = length xs →
  length (keep mask xs) = length (filter (λ b, b = true) mask).
Proof.
  revert xs. induction mask as [|m mask IH]; intros [|x xs] Hlen; try done.
  rewrite keep_cons, filter_cons. cbn [length] in Hlen.
  destruct m; [rewrite decide_True by done|rewrite decide_False by done];
    cbn [length]; rewrite IH by lia; done.
Qed.

Lemma keep_fmap_self {A} (f : A → bool) (xs : list A) :
  keep (f <$> xs) xs = filter (λ x, f x = true) xs.
Proof.
  induction xs as [|x xs IH]; [done|].
  rewrite fmap_cons, keep_cons, filter_cons, IH.
  destruct (f x) eqn:E; [by rewrite decide_True|by rewrite decide_False].
Qed.

Lemma keep_all {A} mask (xs : list A) :
  Forall (λ b, b = true) mask → length xs ≤ length mask → keep mask xs = xs.
Proof.
  intros Hall. revert xs. induction Hall as [|m mask -> _ IH]; intros [|x xs] Hlen;
    try done; cbn [length] in Hlen; [lia|].
  rewrite keep_cons, IH; [done|lia].
Qed.

Lemma sublist_Forall {A} (P : A → Prop) (l1 l2 : list A) :
  l1 `sublist_of` l2 → Forall P l2 → Forall P l1.
Proof.
  intros Hsub. rewrite !Forall_forall. intros Hall x Hx.
  apply Hall. by eapply elem_of_sublist.
Qed.

(** *** Frames with fewer rows *)

Lemma thinned_refl df : thinned df df.
Proof.
  split; [done|]. intros k. destruct (columns df !! k); by constructor.
Qed.

Lemma thinned_trans df1 df2 df3 : thinned df1 df2 → thinned df2 df3 → thinned df1 df3.
Proof.
  intros [Hi1 Hc1] [Hi2 Hc2]. split; [by etrans|]. intros k.
  specialize (Hc1 k). specialize (Hc2 k).
  destruct Hc1 as [c1 c2 H12|]; inversion Hc2 as [? c3 H23|]; subst; constructor.
  by etrans.
Qed.

Lemma thinned_has_column df' df k : thinned df' df → has_column df' k = has_column df k.
Proof.
  intros [_ Hc]. specialize (Hc k). unfold has_column.
  destruct Hc; by rewrite ?bool_decide_eq_true_2, ?bool_decide_eq_false_2
    by (by rewrite <-?not_eq_None_Some; eauto).
Qed.

Lemma thinned_Forall (P : float64 → Prop) df' df k col' :
  thinned df' df → columns df' !! k = Some col' →
  ∃ col, columns df !! k = Some col ∧ (Forall P col → Forall P col').
Proof.
  intros [_ Hc] Hk. specialize (Hc k). rewrite Hk in Hc.
  inversion Hc as [? col Hsub|]; subst. exists col. split; [done|].
  by apply sublist_Forall.
Qed.

Lemma thinned_complete df' df : thinned df' df → complete df → complete df'.
Proof.
  intros Hthin Hall k col' Hk.
  destruct (thinned_Forall (λ x, isna x = false) _ _ _ _ Hthin Hk) as (col & Hcol & Himp).
  by eapply Himp, Hall.
Qed.

Lemma rows_where_thinned mask df : thinned (rows_where mask df) df.
Proof.
  split; [apply keep_sublist|]. intros k. cbn [rows_where columns].
  rewrite lookup_fmap. destruct (columns df !! k); constructor. apply keep_sublist.
Qed.

Lemma rows_where_rectangular mask df :
  rectangular df → length mask = length (index df) → rectangular (rows_where mask df).
Proof.
  intros Hrect Hlen k col'. cbn [rows_where columns index]. rewrite lookup_fmap.
  destruct (columns df !! k) as [col|] eqn:Hk; [|done]. intros [= <-].
  rewrite !length_keep; [done|done|]. rewrite Hlen. symmetry. by eapply Hrect.
Qed.

Lemma rows_where_all mask df :
  rectangular df → Forall (λ b, b = true) mask → length mask = length (index df) →
  rows_where mask df = df.
Proof.
  intros Hrect Hall Hlen. destruct df as [idx cols]. unfold rows_where.
  cbn [index columns] in *. f_equal.
  - apply keep_all; [done|lia].
  - apply map_eq. intros k. rewrite lookup_fmap.
    destruct (cols !! k) as [col|] eqn:Hk; [|done]. cbn. f_equal.
    apply keep_all; [done|]. rewrite (Hrect k col Hk). cbn. lia.
Qed.

(** *** Dropping the rows with a missing cell *)

Lemma length_dropna_mask df :
  length (notna_row df <$> seq 0 (length (index df))) = length (index df).
Proof. by rewrite length_fmap, length_seq. Qed.

Lemma dropna_thinned df : thinned (dropna df) df.
Proof. apply rows_where_thinned. Qed.

Lemma dropna_rectangular df : rectangular df → rectangular (dropna df).
Proof. intros Hrect. apply rows_where_rectangular; [done|apply length_dropna_mask]. Qed.

Lemma dropna_complete df : complete (dropna df).
Proof.
  intros k col'. unfold dropna. cbn [rows_where columns]. rewrite lookup_fmap.
  destruct (columns df !! k) as [col|] eqn:Hk; [|done]. intros [= <-].
  apply Forall_forall. intros x (i & Hm & Hx)%keep_elem.
  rewrite list_lookup_fmap in Hm.
  destruct (seq 0 (length (index df)) !! i) as [j|] eqn:Hj; [|done].
  apply lookup_seq in Hj as [-> _]. cbn in Hm. injection Hm as Hm.
  unfold notna_row in Hm. apply Is_true_true_2, forallb_True in Hm.
  rewrite Forall_forall in Hm.
  specialize (Hm (k, col)). cbn [snd compose] in Hm. rewrite Hx in Hm.
  apply negb_true_iff, Is_true_true_1, Hm. by apply elem_of_map_to_list.
Qed.

Lemma dropna_of_complete df : rectangular df → complete df → dropna df = df.
Proof.
  intros Hrect Hall. apply rows_where_all; [done| |apply length_dropna_mask].
  apply Forall_fmap, Forall_forall. intros i _. cbn [compose].
  unfold notna_row. apply Is_true_true_1, forallb_True, Forall_forall.
  intros [k col] Hk%elem_of_map_to_list. cbn [snd compose].
  destruct (col !! i) as [x|] eqn:Hx; [|done].
  apply Is_true_true_2, negb_true_iff.
  pose proof (Hall k col Hk) as Hcol. rewrite Forall_forall in Hcol.
  by eapply Hcol, list_elem_of_lookup_2.
Qed.

(** *** The filters on the price columns *)

Lemma ensure_positive_cons col cols df :
  ensure_positive (col :: cols) df =
    match columns df !! col with
    | Some prices =>
        ensure_positive cols (rows_where ((λ x, gtb x (of_Z 0)) <$> prices) df)
    | None => ensure_positive cols df
    end.
Proof.
  unfold ensure_positive. cbn [for_each]. unfold has_column, getitem.
  destruct (columns df !! col) as [prices|].
  - by rewrite bool_decide_eq_true_2 by eauto.
  - by rewrite bool_decide_eq_false_2 by (by intros [? ?]).
Qed.

Lemma ensure_positive_returns cols df :
  rectangular df →
  ∃ df', ensure_positive cols df = Ok df' ∧ rectangular df' ∧ thinned df' df ∧
         ∀ k col, k ∈ cols → columns df' !! k = Some col →
                  Forall (λ x, gtb x (of_Z 0) = true) col.
Proof.
  revert df. induction cols as [|c cols IH]; intros df Hrect.
  { exists df. split; [done|]. split; [done|]. split; [apply thinned_refl|].
    intros k col Hk. by apply elem_of_nil in Hk. }
  rewrite ensure_positive_cons.
  destruct (columns df !! c) as [prices|] eqn:Hc.
  - set (df1 := rows_where ((λ x, gtb x (of_Z 0)) <$> prices) df).
    assert (rectangular df1) as Hrect1.
    { apply rows_where_rectangular; [done|]. rewrite length_fmap. by eapply Hrect. }
    destruct (IH df1 Hrect1) as (df' & Hrun & Hrect' & Hthin & Hpos).
    exists df'. split; [done|]. split; [done|].
    split; [eapply thinned_trans; [done|apply rows_where_thinned]|].
    intros k col [->|Hk]%elem_of_cons Hcol; [|by eapply Hpos].
    destruct (thinned_Forall (λ x, gtb x (of_Z 0) = true) _ _ _ _ Hthin Hcol)
      as (col1 & Hcol1 & Himp).
    apply Himp. unfold df1 in Hcol1. cbn [rows_where columns] in Hcol1.
    rewrite lookup_fmap, Hc in Hcol1. injection Hcol1 as <-.
    rewrite keep_fmap_self. apply Forall_forall. by intros x [? _]%list_elem_of_filter.
  - destruct (IH df Hrect) as (df' & Hrun & Hrect' & Hthin & Hpos).
    exists df'. split; [done|]. split; [done|]. split; [done|].
    intros k col [->|Hk]%elem_of_cons Hcol; [|by eapply Hpos].
    destruct Hthin as [_ Hthin]. specialize (Hthin c).
    rewrite Hcol, Hc in Hthin. inversion Hthin.
Qed.

Lemma ensure_positive_of_positive cols df :
  rectangular df →
  (∀ k col, k ∈ cols → columns df !! k = Some col →
            Forall (λ x, gtb x (of_Z 0) = true) col) →
  ensure_positive cols df = Ok df.
Proof.
  intros Hrect. induction cols as [|c cols IH]; intros Hpos; [done|].
  rewrite ensure_positive_cons.
  destruct (columns df !! c) as [prices|] eqn:Hc.
  - rewrite rows_where_all; [| done | |].
    + apply IH. intros k col Hk. apply Hpos. by apply elem_of_cons; right.
    + apply Forall_fmap. apply (Hpos c); [by apply elem_of_cons; left|done].
    + rewrite length_fmap. by eapply Hrect.
  - apply IH. intros k col Hk. apply Hpos. by apply elem_of_cons; right.
Qed.

Lemma ensure_positive_total cols df : returns (ensure_positive cols df).
Proof.
  revert df. induction cols as [|c cols IH]; intros df; [by exists df|].
  rewrite ensure_positive_cons. destruct (columns df !! c); apply IH.
Qed.

(** *** The adjustment by the adjusted close *)

Lemma has_column_Some df k col : columns df !! k = Some col → has_column df k = true.
Proof. intros Hk. apply bool_decide_eq_true_2. by rewrite Hk. Qed.

Lemma has_column_None df k : columns df !! k = None → has_column df k = false.
Proof. intros Hk. apply bool_decide_eq_false_2. rewrite Hk. by intros [? ?]. Qed.

(** Reads a column back through the assignments made so far. *)
Ltac read_back :=
  first
  [ rewrite getitem_set_column_eq
  | rewrite getitem_set_column_ne by (intros ?; discriminate) ].

Lemma adjust_cases df :
  match columns df !! "adj_close" with
  | None => adjust df = Ok df
  | Some adj_close =>
      match columns df !! "close", columns df !! "open", columns df !! "high",
            columns df !! "low", columns df !! "volume" with
      | None, _, _, _, _ => adjust df = Raise (KeyError "close")
      | Some _, None, _, _, _ => adjust df = Raise (KeyError "open")
      | Some _, Some _, None, _, _ => adjust df = Raise (KeyError "high")
      | Some _, Some _, Some _, None, _ => adjust df = Raise (KeyError "low")
      | Some _, Some _, Some _, Some _, None => adjust df = Raise (KeyError "volume")
      | Some close, Some open_, Some high, Some low, Some volume =>
          adjust df = Ok (adjusted adj_close close open_ high low volume df)
      end
  end.
Proof.
  unfold adjust.
  destruct (columns df !! "adj_close") as [adj_close|] eqn:Hadj;
    [|by rewrite (has_column_None _ _ Hadj)].
  rewrite (has_column_Some _ _ _ Hadj), (getitem_Some _ _ _ Hadj).
  cbn [mbind result_bind].
  destruct (columns df !! "close") as [close|] eqn:Hclose;
    [rewrite (getitem_Some _ _ _ Hclose)|by rewrite (getitem_None _ _ Hclose)].
  cbn [mbind result_bind].
  destruct (columns df !! "open") as [open_|] eqn:Hopen;
    [rewrite (getitem_Some _ _ _ Hopen)|by rewrite (getitem_None _ _ Hopen)].
  cbn [mbind result_bind]. read_back.
  destruct (columns df !! "high") as [high|] eqn:Hhigh;
    [rewrite (getitem_Some _ _ _ Hhigh)|by rewrite (getitem_None _ _ Hhigh)].
  cbn [mbind result_bind]. do 2 read_back.
  destruct (columns df !! "low") as [low|] eqn:Hlow;
    [rewrite (getitem_Some _ _ _ Hlow)|by rewrite (getitem_None _ _ Hlow)].
  cbn [mbind result_bind]. do 3 read_back.
  rewrite (getitem_Some _ _ _ Hadj). cbn [mbind result_bind]. do 4 read_back.
  destruct (columns df !! "volume") as [volume|] eqn:Hvolume;
    [rewrite (getitem_Some _ _ _ Hvolume)|by rewrite (getitem_None _ _ Hvolume)].
  reflexivity.
Qed.

Lemma adjusted_has_column adj_close close open_ high low volume df k :
  columns df !! "close" = Some close → columns df !! "open" = Some open_ →
  columns df !! "high" = Some high → columns df !! "low" = Some low →
  columns df !! "volume" = Some volume →
  has_column (adjusted adj_close close open_ high low volume df) k = has_column df k.
Proof.
  intros Hc Ho Hh Hl Hv. unfold has_column, adjusted. cbn [columns].
  apply bool_decide_ext. rewrite !lookup_insert_is_Some'.
  split; [|by auto 10].
  intros [<-|[<-|[<-|[<-|[<-|?]]]]]; by eauto.
Qed.

Lemma adjusted_rectangular adj_close close open_ high low volume df :
  rectangular df →
  columns df !! "adj_close" = Some adj_close →
  columns df !! "close" = Some close → columns df !! "open" = Some open_ →
  columns df !! "high" = Some high → columns df !! "low" = Some low →
  columns df !! "volume" = Some volume →
  rectangular (adjusted adj_close close open_ high low volume df).
Proof.
  intros Hrect Ha Hc Ho Hh Hl Hv k col. unfold adjusted. cbn [columns index].
  pose proof (Hrect _ _ Ha). pose proof (Hrect _ _ Hc). pose proof (Hrect _ _ Ho).
  pose proof (Hrect _ _ Hh). pose proof (Hrect _ _ Hl). pose proof (Hrect _ _ Hv).
  rewrite !lookup_insert_Some.
  intros [[_ <-]|[_ [[_ <-]|[_ [[_ <-]|[_ [[_ <-]|[_ [[_ <-]|[_ Hk]]]]]]]]]];
    unfold col_div, col_mul; rewrite ?length_zip_with; try lia.
  by eapply Hrect.
Qed.

Lemma adjust_returns df df1 :
  rectangular df → adjust df = Ok df1 →
  rectangular df1 ∧ ∀ k, has_column df1 k = has_column df k.
Proof.
  intros Hrect. pose proof (adjust_cases df) as Hcases.
  destruct (columns df !! "adj_close") as [adj_close|] eqn:Ha.
  2: { rewrite Hcases. by intros [= <-]. }
  destruct (columns df !! "close") as [close|] eqn:Hc; [|by rewrite Hcases].
  destruct (columns df !! "open") as [open_|] eqn:Ho; [|by rewrite Hcases].
  destruct (columns df !! "high") as [high|] eqn:Hh; [|by rewrite Hcases].
  destruct (columns df !! "low") as [low|] eqn:Hl; [|by rewrite Hcases].
  destruct (columns df !! "volume") as [volume|] eqn:Hv; [|by rewrite Hcases].
  rewrite Hcases. intros [= <-]. split.
  - by apply adjusted_rectangular.
  - intros k. by apply adjusted_has_column.
Qed.

(** X24.  [_normalize_data] returns unless the frame has an adjusted
    close and lacks one of the columns the adjustment reads; it then
    raises the KeyError of the first one missing, in the order close,
    open, high, low, volume. *)
Theorem normalize_data_needs_the_prices df symbol :
  match columns df !! "adj_close" with
  | None => returns (_normalize_data df symbol)
  | Some _ =>
      match columns df !! "close", columns df !! "open", columns df !! "high",
            columns df !! "low", columns df !! "volume" with
      | None, _, _, _, _ => _normalize_data df symbol = Raise (KeyError "close")
      | Some _, None, _, _, _ => _normalize_data df symbol = Raise (KeyError "open")
      | Some _, Some _, None, _, _ =>
          _normalize_data df symbol = Raise (KeyError "high")
      | Some _, Some _, Some _, None, _ =>
          _normalize_data df symbol = Raise (KeyError "low")
      | Some _, Some _, Some _, Some _, None =>
          _normalize_data df symbol = Raise (KeyError "volume")
      | Some _, Some _, Some _, Some _, Some _ => returns (_normalize_data df symbol)
      end
  end.
Proof.
  rewrite _normalize_data_phases. pose proof (adjust_cases df) as Hcases.
  destruct (columns df !! "adj_close");
    [destruct (columns df !! "close"), (columns df !! "open"),
       (columns df !! "high"), (columns df !! "low"), (columns df !! "volume")|];
    rewrite Hcases; try done; apply ensure_positive_total.
Qed.

Lemma _normalize_data_inv df symbol df' :
  rectangular df → _normalize_data df symbol = Ok df' →
  ∃ df1, adjust df = Ok df1 ∧ rectangular df1 ∧
         (∀ k, has_column df1 k = has_column df k) ∧
         rectangular df' ∧ thinned df' (dropna df1) ∧
         ∀ k col, k ∈ price_cols → columns df' !! k = Some col →
                  Forall (λ x, gtb x (of_Z 0) = true) col.
Proof.
  intros Hrect. rewrite _normalize_data_phases.
  destruct (adjust df) as [df1|] eqn:Hadj; [|done]. cbn [mbind result_bind].
  destruct (adjust_returns _ _ Hrect Hadj) as [Hrect1 Hcols].
  destruct (ensure_positive_returns price_cols (dropna df1) (dropna_rectangular _ Hrect1))
    as (df'' & -> & Hrect' & Hthin & Hpos).
  intros [= <-]. by exists df1.
Qed.

(** X25.  The frame [_normalize_data] returns for a frame has the same
    columns, each of the length of the index; no cell of it is missing;
    and every cell of its price columns is above 0. *)
Theorem normalize_data_cleans df symbol df' :
  rectangular df → _normalize_data df symbol = Ok df' →
  rectangular df' ∧ complete df' ∧ positive_prices df' ∧
  ∀ k, has_column df' k = has_column df k.
Proof.
  intros Hrect Hrun.
  destruct (_normalize_data_inv _ _ _ Hrect Hrun)
    as (df1 & _ & _ & Hcols & Hrect' & Hthin & Hpos).
  split; [done|]. split; [|split; [done|]].
  - eapply thinned_complete; [done|apply dropna_complete].
  - intros k. rewrite <-Hcols.
    rewrite (thinned_has_column _ _ _ Hthin). apply thinned_has_column, dropna_thinned.
Qed.

(** X26.  On a frame without an adjusted close, [_normalize_data] only
    removes rows: the index and every column of the result are what is
    left of those of the frame, in order; and normalising the result again
    changes nothing. *)
Theorem normalize_data_without_adjusted_close df symbol df' :
  rectangular df → has_column df "adj_close" = false →
  _normalize_data df symbol = Ok df' →
  thinned df' df ∧ _normalize_data df' symbol = Ok df'.
Proof.
  intros Hrect Hno Hrun.
  destruct (_normalize_data_inv _ _ _ Hrect Hrun)
    as (df1 & Hadj & _ & _ & Hrect' & Hthin & Hpos).
  pose proof (adjust_cases df) as Hcases.
  destruct (columns df !! "adj_close") as [adj_close|] eqn:Ha.
  { by rewrite (has_column_Some _ _ _ Ha) in Hno. }
  rewrite Hcases in Hadj. injection Hadj as <-.
  assert (thinned df' df) as Hthin'.
  { eapply thinned_trans; [done|apply dropna_thinned]. }
  split; [done|].
  rewrite _normalize_data_phases. pose proof (adjust_cases df') as Hcases'.
  destruct (columns df' !! "adj_close") as [adj_close|] eqn:Ha'.
  { apply has_column_Some in Ha'.
    rewrite (thinned_has_column _ _ _ Hthin') in Ha'. congruence. }
  rewrite Hcases'. cbn [mbind result_bind].
  rewrite dropna_of_complete; [|done|].
  - by apply ensure_positive_of_positive.
  - eapply thinned_complete; [exact Hthin|apply dropna_complete].
Qed.

Lemma elem_of_report fires issue x : x ∈ report fires issue → x = issue.
Proof.
  destruct fires; cbn; [by intros ?%list_elem_of_singleton|].
  intros Hx. by apply elem_of_nil in Hx.
Qed.

Lemma above_0_not_le_0 (x : float64) : gtb x (of_Z 0) = true → leb x (of_Z 0) = false.
Proof.
  destruct x as [|[]|q]; cbn; try done. by intros ->%negb_true_iff.
Qed.

(** X27.  On the frame [_normalize_data] returns, [validate_data_quality]
    reports neither missing data nor a price that is not positive: the
    only issues left possible are the order of high and low, extreme
    moves, and the length of the history. *)
Theorem validate_data_quality_after_normalisation df symbol df' issue :
  rectangular df → _normalize_data df symbol = Ok df' →
  issue ∈ (validate_data_quality df' symbol).2 → issue ∈ remaining_issues.
Proof.
  intros Hrect Hrun.
  destruct (_normalize_data_inv _ _ _ Hrect Hrun)
    as (df1 & _ & _ & _ & _ & Hthin & Hpos).
  assert (complete df') as Hall.
  { eapply thinned_complete; [done|apply dropna_complete]. }
  rewrite validate_data_quality_issues.
  apply isnull_any_false in Hall. rewrite Hall. cbn [report app].
  assert (∀ col, col ∈ price_cols → nonpositive df' col = false) as Hprice.
  { intros col Hcol. unfold nonpositive.
    destruct (columns df' !! col) as [prices|] eqn:Hk; [|done].
    apply any_fmap_false. eapply Forall_impl; [by eapply Hpos|].
    intros x. apply above_0_not_le_0. }
  change (price_cols ≫= ?f)
    with (f "open" ++ f "high" ++ f "low" ++ f "close" ++ []).
  cbn beta. rewrite !Hprice by (unfold price_cols; rewrite !elem_of_cons; auto).
  cbn [report app]. unfold remaining_issues.
  rewrite !elem_of_app, !elem_of_cons.
  intros [->%elem_of_report|[->%elem_of_report| ->%elem_of_report]]; auto.
Qed.

End Normalisation.

(** ** The further properties on concrete frames *)

Lemma to_frame_rectangular s : rectangular (to_frame s).
Proof.
  intros k col Hk. cbn [index to_frame]. rewrite length_fmap.
  destruct (to_frame_lookup s k col Hk)
    as [[_ ->]|[[_ ->]|[[_ ->]|[[_ ->]|[_ ->]]]]]; apply length_fmap.
Qed.

Lemma raw_frame_rectangular : rectangular raw_frame.
Proof.
  intros k col H. unfold raw_frame in H. cbn [columns] in H.
  repeat (apply lookup_insert_Some in H as [[_ <-]|[_ H]]; [reflexivity|]).
  by rewrite lookup_empty in H.
Qed.

Lemma calculate_keeps_the_input_witness :
  index (indicator_frame sqrt_e6 [plain_bar]) = index (to_frame [plain_bar]) ∧
  (∀ k, k ∉ computed_names → k ∉ temp_cols →
        columns (indicator_frame sqrt_e6 [plain_bar]) !! k
        = columns (to_frame [plain_bar]) !! k) ∧
  (∀ k, k ∈ computed_names →
        is_Some (columns (indicator_frame sqrt_e6 [plain_bar]) !! k)) ∧
  (∀ k, k ∈ temp_cols → columns (indicator_frame sqrt_e6 [plain_bar]) !! k = None).
Proof.
  apply (calculate_keeps_the_input sqrt_e6 (to_frame [plain_bar])).
  reflexivity.
Defined.

Lemma calculate_idempotent_witness :
  calculate_technical_indicators sqrt_e6 (indicator_frame sqrt_e6 [plain_bar])
  = Ok (indicator_frame sqrt_e6 [plain_bar]).
Proof.
  apply (calculate_idempotent sqrt_e6 (to_frame [plain_bar])).
  reflexivity.
Defined.

Lemma calculate_keeps_frames_rectangular_witness :
  rectangular (indicator_frame sqrt_e6 [plain_bar]).
Proof.
  apply (calculate_keeps_frames_rectangular sqrt_e6 (to_frame [plain_bar])).
  - apply to_frame_rectangular.
  - reflexivity.
Defined.

Lemma no_signal_on_an_ordered_bar_witness :
  ∃ df,
    calculate_technical_indicators sqrt_e6 (to_frame (replicate 12 plain_bar)) = Ok df ∧
    _generate_symbol_signals (__init__ short_config) "X" df = Ok [].
Proof.
  apply (no_signal_on_an_ordered_bar sqrt_e6 (__init__ short_config) "X"
           (replicate 12 plain_bar) plain_bar).
  - reflexivity.
  - vm_compute. discriminate.
  - vm_compute. discriminate.
Defined.

Lemma no_signal_on_an_ordered_universe_witness :
  ∃ data,
    get_universe_data sqrt_e6
      (frames_of [("X", replicate 12 plain_bar); ("Y", [plain_bar])]) = Ok data ∧
    data.*1 = ["X"; "Y"] ∧
    generate_signals data (__init__ short_config) = (Ok ∅, __init__ short_config).
Proof.
  apply (no_signal_on_an_ordered_universe sqrt_e6 (__init__ short_config)
           [("X", replicate 12 plain_bar); ("Y", [plain_bar])]).
  repeat constructor; exists plain_bar; cbn;
    (split; [reflexivity|split; vm_compute; discriminate]).
Defined.

Lemma stop_loss_not_above_entry_witness :
  ∃ df x,
    calculate_technical_indicators sqrt_e6 (to_frame (replicate 12 plain_bar)) = Ok df ∧
    (get_stop_loss_price "X" df (Num 13) (__init__ short_config)).1 = Ok x ∧
    (x = NaN ∨ ∃ q, x = Num q ∧ (q <= 13)%Q).
Proof.
  apply (stop_loss_not_above_entry sqrt_e6 (__init__ short_config) "X"
           (replicate 12 plain_bar) plain_bar 13%Q).
  - reflexivity.
  - vm_compute. discriminate.
  - vm_compute. discriminate.
Defined.

Lemma signals_of_a_symbol_are_ordered_witness :
  ∃ signals,
    _generate_symbol_signals (__init__ short_config) "X" plain_breakout_frame
      = Ok signals ∧
    kind <$> signals `sublist_of` [(BUY, 1%Z); (EXIT, 1%Z); (BUY, 2%Z); (EXIT, 2%Z)] ∧
    (signals ≠ [] →
     ∃ row, iloc_last plain_breakout_frame = Ok row ∧
            Forall (well_formed "X" row) signals).
Proof.
  assert (∃ signals,
    _generate_symbol_signals (__init__ short_config) "X" plain_breakout_frame
      = Ok signals) as [signals Hgen].
  { eexists. vm_compute. reflexivity. }
  destruct (signals_of_a_symbol_are_ordered (__init__ short_config) "X"
              plain_breakout_frame signals Hgen) as (Hkinds & _ & Hrow).
  exists signals. split; [exact Hgen|]. split; [exact Hkinds|exact Hrow].
Defined.

Lemma system1_exit_on_strict_breakdown_witness :
  ltb (Num 8) (Num 9) = true ∧
  ∃ signals,
    _generate_symbol_signals (__init__ short_config) "X" plain_breakdown_frame
      = Ok signals ∧
    filter (is_exit 1) signals
    = [exit_signal "X" (latest_row plain_breakdown_frame) (Num 8) 1].
Proof.
  split; [reflexivity|].
  apply (system1_exit_on_strict_breakdown (__init__ short_config) "X"
           plain_breakdown_frame (latest_row plain_breakdown_frame)
           (Num 8) (Num 12) (Num 9)).
  - apply breakout_frame_paired.
  - vm_compute. discriminate.
  - vm_compute. reflexivity.
  - vm_compute. reflexivity.
  - vm_compute. reflexivity.
  - vm_compute. reflexivity.
Defined.

Lemma pyramid_adds_above_the_position_witness :
  ∃ sig c stop,
    (check_pyramid_signals "X" (indicator_frame sqrt_e6 (replicate 12 plain_bar))
       (Num 5) 1 (__init__ short_config)).1 = Ok (Some sig) ∧
    price sig = Num c ∧ (5 < c)%Q ∧
    stop_price sig = Some (Num stop) ∧ (stop <= c)%Q.
Proof.
  assert (∃ sig,
    (check_pyramid_signals "X" (indicator_frame sqrt_e6 (replicate 12 plain_bar))
       (Num 5) 1 (__init__ short_config)).1 = Ok (Some sig)) as [sig Hsig].
  { eexists. vm_compute. reflexivity. }
  destruct (pyramid_adds_above_the_position sqrt_e6 (__init__ short_config) "X"
              (replicate 12 plain_bar) plain_bar
              (indicator_frame sqrt_e6 (replicate 12 plain_bar)) 5%Q 1 sig)
    as (c & stop & Hc & Habove & Hstop & Hle).
  - reflexivity.
  - vm_compute. discriminate.
  - vm_compute. discriminate.
  - vm_compute. discriminate.
  - lia.
  - reflexivity.
  - exact Hsig.
  - exists sig, c, stop. split; [exact Hsig|]. split; [exact Hc|].
    split; [exact Habove|]. split; [exact Hstop|exact Hle].
Defined.

Lemma generate_signals_returns_what_it_records_witness :
  ∃ all_signals self',
    generate_signals [("X", plain_breakout_frame)] (__init__ short_config)
    = (Ok all_signals, self') ∧
    config self' = short_config ∧
    last_signals self' = all_signals ∪ ∅.
Proof.
  assert (∃ all_signals self',
    generate_signals [("X", plain_breakout_frame)] (__init__ short_config)
    = (Ok all_signals, self')) as (all_signals & self' & Hcall).
  { eexists _, _. apply generate_signals_unfold. }
  destruct (generate_signals_returns_what_it_records _ _ _ _ Hcall)
    as (Hcfg & Hstate & _).
  exists all_signals, self'. split; [exact Hcall|]. split; [exact Hcfg|exact Hstate].
Defined.

Lemma generate_signals_idempotent_witness :
  ∃ all_signals self',
    generate_signals [("X", plain_breakout_frame)] (__init__ short_config)
    = (Ok all_signals, self') ∧
    generate_signals [("X", plain_breakout_frame)] self' = (Ok all_signals, self').
Proof.
  assert (∃ all_signals self',
    generate_signals [("X", plain_breakout_frame)] (__init__ short_config)
    = (Ok all_signals, self')) as (all_signals & self' & Hcall).
  { eexists _, _. apply generate_signals_unfold. }
  exists all_signals, self'. split; [exact Hcall|].
  exact (generate_signals_idempotent _ _ _ _ Hcall).
Defined.

Lemma generate_signals_skips_quiet_symbols_witness :
  generate_signals
    ([("X", plain_breakout_frame)] ++ ("Y", to_frame [plain_bar]) :: [])
    (__init__ short_config)
  = generate_signals ([("X", plain_breakout_frame)] ++ []) (__init__ short_config).
Proof.
  apply (generate_signals_skips_quiet_symbols [("X", plain_breakout_frame)] "Y"
           (to_frame [plain_bar]) [] (__init__ short_config)).
  intros sig signals. vm_compute. discriminate.
Defined.

Lemma generate_signals_in_batches_witness :
  ∃ all1 self1 all2 self2,
    generate_signals [("X", plain_breakout_frame)] (__init__ short_config)
    = (Ok all1, self1) ∧
    generate_signals [("Y", plain_breakdown_frame)] self1 = (Ok all2, self2) ∧
    generate_signals ([("X", plain_breakout_frame)] ++ [("Y", plain_breakdown_frame)])
      (__init__ short_config)
    = (Ok (all2 ∪ all1), self2).
Proof.
  assert (∃ all1 self1,
    generate_signals [("X", plain_breakout_frame)] (__init__ short_config)
    = (Ok all1, self1)) as (all1 & self1 & Hcall1).
  { eexists _, _. apply generate_signals_unfold. }
  assert (∃ all2 self2,
    generate_signals [("Y", plain_breakdown_frame)] self1 = (Ok all2, self2))
    as (all2 & self2 & Hcall2).
  { eexists _, _. apply generate_signals_unfold. }
  exists all1, self1, all2, self2. split; [exact Hcall1|]. split; [exact Hcall2|].
  exact (generate_signals_in_batches _ _ _ _ _ _ _ Hcall1 Hcall2).
Defined.

Lemma valid_series_has_its_indicators_witness :
  ∃ df row,
    calculate_technical_indicators sqrt_e6 (to_frame (replicate 60 plain_bar)) = Ok df ∧
    iloc_last df = Ok row ∧
    ∀ k, has_column df k → k ≠ "sma_200" → ∃ q, cells row !! k = Some (Num q).
Proof.
  apply (valid_series_has_its_indicators sqrt_e6 (replicate 60 plain_bar) "X").
  vm_compute. reflexivity.
Defined.

Lemma normalize_data_cleans_witness :
  ∃ df',
    _normalize_data raw_frame "X" = Ok df' ∧
    index df' = [1; 4]%Z ∧
    rectangular df' ∧ complete df' ∧ positive_prices df' ∧
    ∀ k, has_column df' k = has_column raw_frame k.
Proof.
  assert (∃ df', _normalize_data raw_frame "X" = Ok df' ∧ index df' = [1; 4]%Z)
    as (df' & Hrun & Hindex).
  { eexists. split; [vm_compute; reflexivity|]. vm_compute. reflexivity. }
  exists df'. split; [exact Hrun|]. split; [exact Hindex|].
  exact (normalize_data_cleans raw_frame "X" df' raw_frame_rectangular Hrun).
Defined.

Lemma normalize_data_without_adjusted_close_witness :
  ∃ df',
    _normalize_data (to_frame [plain_bar; inverted_bar]) "X" = Ok df' ∧
    thinned df' (to_frame [plain_bar; inverted_bar]) ∧
    _normalize_data df' "X" = Ok df'.
Proof.
  assert (∃ df', _normalize_data (to_frame [plain_bar; inverted_bar]) "X" = Ok df')
    as (df' & Hrun).
  { eexists. vm_compute. reflexivity. }
  exists df'. split; [exact Hrun|].
  apply (normalize_data_without_adjusted_close _ "X" df').
  - apply to_frame_rectangular.
  - vm_compute. reflexivity.
  - exact Hrun.
Defined.

Lemma validate_data_quality_after_normalisation_witness :
  ∃ df',
    _normalize_data raw_frame "X" = Ok df' ∧
    "Insufficient data for analysis" ∈ (validate_data_quality df' "X").2 ∧
    "Insufficient data for analysis" ∈ remaining_issues.
Proof.
  assert (∃ df', _normalize_data raw_frame "X" = Ok df' ∧
                 (validate_data_quality df' "X").2 = ["Insufficient data for analysis"])
    as (df' & Hrun & Hissues).
  { eexists. split; [vm_compute; reflexivity|]. vm_compute. reflexivity. }
  assert ("Insufficient data for analysis" ∈ (validate_data_quality df' "X").2)
    as Hin.
  { rewrite Hissues. constructor. }
  exists df'. split; [exact Hrun|]. split; [exact Hin|].
  exact (validate_data_quality_after_normalisation raw_frame "X" df' _
           raw_frame_rectangular Hrun Hin).
Defined.

Lemma system2_on_strict_breaks_witness :
  ∃ signals,
    _generate_symbol_signals (__init__ short_config) "X" plain_breakout_frame
      = Ok signals ∧
    filter (λ sig, system sig = 2%Z) signals
    = system_signals (__init__ short_config) "X" (latest_row plain_breakout_frame)
        (Num 13) (Num 12) 2 10.
Proof.
  apply (system2_on_strict_breaks (__init__ short_config) "X"
           plain_breakout_frame (latest_row plain_breakout_frame) (Num 13) (Num 12)).
  - apply breakout_frame_paired.
  - vm_compute. discriminate.
  - vm_compute. reflexivity.
  - vm_compute. reflexivity.
  - vm_compute. reflexivity.
  - reflexivity.
Defined.

Lemma generate_symbol_signals_returns_witness :
  returns (_generate_symbol_signals (__init__ short_config) "X" plain_breakout_frame).
Proof.
  apply generate_symbol_signals_returns.
  - apply breakout_frame_paired.
  - vm_compute. exact I.
  - reflexivity.
Defined.

Lemma channels_contain_the_bar_witness :
  ∃ v, cell (indicator_frame sqrt_e6 (replicate 12 plain_bar)) "donchian_high_10" 11
       = Some (Num v) ∧ (12 <= v)%Q.
Proof.
  destruct (channels_contain_the_bar sqrt_e6 (replicate 12 plain_bar)
              (indicator_frame sqrt_e6 (replicate 12 plain_bar)) 11 plain_bar 10)
    as [Hhigh _].
  - reflexivity.
  - reflexivity.
  - assert (cell (indicator_frame sqrt_e6 (replicate 12 plain_bar)) "donchian_high_10" 11
            = Some (Num 12)) as Hcell by (vm_compute; reflexivity).
    destruct (Hhigh (Num 12) Hcell) as [Hnan|(v & Hv & Hle)]; [discriminate Hnan|].
    injection Hv as <-. exists 12%Q. split; [exact Hcell|exact Hle].
Defined.

Lemma average_true_range_not_negative_witness :
  ∃ x v, cell (indicator_frame sqrt_e6 (replicate 12 plain_bar)) "atr_10" 11 = Some x ∧
         x = Num v ∧ (0 <= v)%Q.
Proof.
  destruct (average_true_range_not_negative sqrt_e6 (replicate 12 plain_bar) plain_bar
              (indicator_frame sqrt_e6 (replicate 12 plain_bar)) 11 10)
    as [_ Hatr].
  - reflexivity.
  - vm_compute. discriminate.
  - reflexivity.
  - assert (∃ q, cell (indicator_frame sqrt_e6 (replicate 12 plain_bar)) "atr_10" 11
                 = Some (Num q)) as [q Hcell] by (eexists; vm_compute; reflexivity).
    destruct (Hatr (Num q) Hcell) as [Hnan|(v & Hv & Hle)]; [discriminate Hnan|].
    exists (Num q), v. split; [exact Hcell|]. split; [exact Hv|exact Hle].
Defined.

Lemma wider_channel_contains_narrower_witness :
  ∃ x y,
    cell (indicator_frame sqrt_e6 (flat_series 19 ++ [plain_bar])) "donchian_low_10" 19
    = Some (Num x) ∧
    cell (indicator_frame sqrt_e6 (flat_series 19 ++ [plain_bar])) "donchian_low_20" 19
    = Some (Num y) ∧
    (y <= x)%Q.
Proof.
  destruct (wider_channel_contains_narrower sqrt_e6 (flat_series 19 ++ [plain_bar])
              (indicator_frame sqrt_e6 (flat_series 19 ++ [plain_bar])) 19 10 20)
    as [_ Hlow].
  - repeat constructor.
  - repeat constructor.
  - lia.
  - reflexivity.
  - assert (∃ x, cell (indicator_frame sqrt_e6 (flat_series 19 ++ [plain_bar]))
                   "donchian_low_10" 19 = Some (Num x)) as [x Hx]
      by (eexists; vm_compute; reflexivity).
    assert (∃ y, cell (indicator_frame sqrt_e6 (flat_series 19 ++ [plain_bar]))
                   "donchian_low_20" 19 = Some (Num y)) as [y Hy]
      by (eexists; vm_compute; reflexivity).
    exists x, y. split; [exact Hx|]. split; [exact Hy|]. exact (Hlow x y Hx Hy).
Defined.

Lemma validate_data_quality_on_series_witness :
  (validate_data_quality (to_frame (replicate 60 plain_bar)) "X").1 = true ∧
  Forall sound_bar (replicate 60 plain_bar) ∧ (60 ≤ length (replicate 60 plain_bar))%nat.
Proof.
  destruct (validate_data_quality_on_series (replicate 60 plain_bar) "X")
    as [Hpasses Hpassed].
  assert (sound_series (replicate 60 plain_bar)) as Hsound.
  { split; [|split].
    - apply Forall_replicate. unfold sound_bar, plain_bar. cbn.
      repeat split; vm_compute; first [reflexivity|discriminate].
    - intros i p b [-> _]%lookup_replicate [-> _]%lookup_replicate.
      vm_compute. discriminate.
    - rewrite length_replicate. lia. }
  split; [exact (Hpasses Hsound)|exact (Hpassed (Hpasses Hsound))].
Defined.
